(** * Alexa MCP server: protocol client, shallow embedding

  The TypeScript sources embedded here are
    - the security utilities (sanitizeError),
    - src/utils/alexa.ts (getCsrfToken, buildAlexaHeaders, isAnyLightOn),
    - src/api/v1/announce.ts (announceHandler),
    - the music handlers (musicControlHandler, playMusicHandler,
      musicTextCommandHandler).

  JavaScript strings are sequences of UTF-16 code units; they are modelled
  as lists of code units ([N]), so that [length] is the JS [.length] and
  character classes are predicates on code units. *)

From Stdlib Require Import ZArith NArith List Ascii String Bool Lia DecimalString.
From stdpp Require Import base option list gmap.

Local Open Scope N_scope.

(** ** JavaScript strings *)

Module JS.

Abbreviation jsstring := (list N).

(** An ASCII literal as a JS string. *)
Definition lit (s : string) : jsstring :=
  map N_of_ascii (list_ascii_of_string s).

Definition DQUOTE : N := 34.
Definition SQUOTE : N := 39.

(** An ASCII literal between double quotes. *)
Definition quoted (s : string) : jsstring := [DQUOTE] ++ lit s ++ [DQUOTE].

Definition inRange (lo hi c : N) : bool := (lo <=? c) && (c <=? hi).

Definition isDigit (c : N) : bool := inRange 48 57 c.
Definition isUpper (c : N) : bool := inRange 65 90 c.
Definition isLower (c : N) : bool := inRange 97 122 c.

(** [\s] of ECMAScript regular expressions, which is also the set that
    [String.prototype.trim] strips: WhiteSpace and LineTerminator. *)
Definition isWhiteSpace (c : N) : bool :=
  inRange 9 13 c || (c =? 32) || (c =? 160) || (c =? 5760)
  || inRange 8192 8202 c || (c =? 8232) || (c =? 8233) || (c =? 8239)
  || (c =? 8287) || (c =? 12288) || (c =? 65279).

(** Canonicalize of a case-insensitive (non-unicode) regular expression,
    restricted to what matters for an ASCII pattern character: ASCII
    letters fold to upper case, and a code unit outside ASCII never
    canonicalizes into ASCII. *)
Definition canonicalize (c : N) : N := if isLower c then c - 32 else c.

Definition eq_ci (p c : N) : bool := canonicalize p =? canonicalize c.

Fixpoint takeWhile (f : N -> bool) (s : jsstring) : jsstring :=
  match s with
  | [] => []
  | c :: s' => if f c then c :: takeWhile f s' else []
  end.

Fixpoint dropWhile (f : N -> bool) (s : jsstring) : jsstring :=
  match s with
  | [] => []
  | c :: s' => if f c then dropWhile f s' else s
  end.

(** [stripPrefix eqc p s] is the rest of [s] after the prefix [p], compared
    code unit by code unit with [eqc]. *)
Fixpoint stripPrefix (eqc : N -> N -> bool) (p s : jsstring) : option jsstring :=
  match p with
  | [] => Some s
  | a :: p' =>
      match s with
      | [] => None
      | c :: s' => if eqc a c then stripPrefix eqc p' s' else None
      end
  end.

(** [s.startsWith(p)] *)
Definition startsWith (p s : jsstring) : bool :=
  match stripPrefix N.eqb p s with Some _ => true | None => false end.

(** [s.includes(p)] *)
Fixpoint includes (p s : jsstring) : bool :=
  startsWith p s ||
  match s with
  | [] => false
  | _ :: s' => includes p s'
  end.

(** [s.trim()] *)
Definition trimStart (s : jsstring) : jsstring := dropWhile isWhiteSpace s.
Definition trimEnd (s : jsstring) : jsstring :=
  rev (dropWhile isWhiteSpace (rev s)).
Definition trim (s : jsstring) : jsstring := trimEnd (trimStart s).

(** Truthiness of a string: only the empty string is falsy. *)
Definition truthy (s : jsstring) : bool :=
  match s with [] => false | _ => true end.

(** Truthiness of a possibly-undefined string. *)
Definition truthyOpt (o : option jsstring) : bool :=
  match o with Some s => truthy s | None => false end.

(** [s.replace(re, f)] for a global regular expression that never matches
    the empty string.  [m s] tells whether the expression matches at the
    head of [s]; it then gives the length of the (greedy) match and the
    text that replaces it.  The scan goes left to right, takes the leftmost
    match and resumes right after it; [skip] counts the code units of the
    current match that are still to be consumed. *)
Fixpoint replaceAll (m : jsstring -> option (nat * jsstring))
         (skip : nat) (s : jsstring) : jsstring :=
  match s with
  | [] => []
  | c :: s' =>
      match skip with
      | S k => replaceAll m k s'
      | O =>
          match m s with
          | Some (n, r) => r ++ replaceAll m (pred n) s'
          | None => c :: replaceAll m 0 s'
          end
      end
  end.

(** [sub] occurs in [s] as a substring. *)
Definition occursIn (sub s : jsstring) : Prop :=
  exists p q, s = p ++ sub ++ q.

End JS.

Import JS.

(** ** Security utilities: sanitizeError *)

Module Security.

(** [/[A-Za-z0-9_-]/] *)
Definition isTokenChar (c : N) : bool :=
  isUpper c || isLower c || isDigit c || (c =? 95) || (c =? 45).

(** The class of a cookie value: anything but white space, semicolon,
    comma and the two quote characters. *)
Definition isCookieValueChar (c : N) : bool :=
  negb (isWhiteSpace c || (c =? 59) || (c =? 44) || (c =? DQUOTE) || (c =? SQUOTE)).

(** The case-insensitive pattern [name], then [=] or [:], then [\s*], then
    one or more cookie value characters, at the head of [s]: the length of
    the match.
    The two classes are disjoint, so the greedy [\s*] never has to give
    anything back. *)
Definition matchCookie (name s : jsstring) : option nat :=
  match stripPrefix eq_ci name s with
  | Some (sep :: rest) =>
      if (sep =? 61) || (sep =? 58) then
        let ws := takeWhile isWhiteSpace rest in
        let val := takeWhile isCookieValueChar (dropWhile isWhiteSpace rest) in
        match val with
        | [] => None
        | _ => Some (length name + 1 + length ws + length val)%nat
        end
      else None
  | _ => None
  end.

(** [s.replace(re, replacement)] for that pattern with the flags [gi]. *)
Definition redactCookie (name replacement s : jsstring) : jsstring :=
  replaceAll (fun t => match matchCookie name t with
                       | Some n => Some (n, replacement)
                       | None => None
                       end) 0 s.

(** The callback of the last replace: what a matched run becomes. *)
Definition keepToken (m : jsstring) : bool :=
  startsWith (lit "http") m
  || includes (lit ".") m
  || (truthy m && forallb isDigit m)
  || (length m <? 30)%nat.

Definition redactToken (m : jsstring) : jsstring :=
  if keepToken m then m else lit "***".

(** [/[A-Za-z0-9_-]{20,}/] at the head of [s]. *)
Definition matchLongToken (s : jsstring) : option (nat * jsstring) :=
  let run := takeWhile isTokenChar s in
  if (20 <=? length run)%nat then Some (length run, redactToken run) else None.

Definition redactLongTokens (s : jsstring) : jsstring :=
  replaceAll matchLongToken 0 s.

(** [sanitizeError(errorText)] *)
Definition sanitizeError (errorText : jsstring) : jsstring :=
  if negb (truthy errorText) then lit "Unknown error"
  else
    let sanitized := errorText in
    let sanitized := redactCookie (lit "ubid-main") (lit "ubid-main=***") sanitized in
    let sanitized := redactCookie (lit "at-main") (lit "at-main=***") sanitized in
    let sanitized := redactCookie (lit "Cookie") (lit "Cookie=***") sanitized in
    let sanitized := redactLongTokens sanitized in
    sanitized.

(** [createSafeErrorResponse(status, errorText?)]: the pair of the [error]
    and [status] fields. *)
Definition createSafeErrorResponse (status : Z) (errorText : option jsstring) : jsstring * Z :=
  let text := match errorText with
              | Some t => if truthy t then t else lit "Unknown error"
              | None => lit "Unknown error"
              end in
  (sanitizeError text, status).

End Security.

(** ** JSON values and JSON.stringify *)

Module Json.

#[warnings="-register-all"] Inductive json : Type :=
| JNull
| JBool (b : bool)
| JNum (n : Z)                        (* integral numbers only *)
| JStr (s : jsstring)
| JArr (items : list json)
| JObj (fields : list (jsstring * json)).  (* own properties, in insertion order *)

Definition hexDigit (d : N) : N := if d <? 10 then 48 + d else 87 + d.

(** The escape [\uXXXX], with lower-case hexadecimal digits. *)
Definition unicodeEscape (c : N) : jsstring :=
  [92; 117; hexDigit ((c / 4096) mod 16); hexDigit ((c / 256) mod 16);
   hexDigit ((c / 16) mod 16); hexDigit (c mod 16)].

Definition isHighSurrogate (c : N) : bool := inRange 55296 56319 c.
Definition isLowSurrogate (c : N) : bool := inRange 56320 57343 c.

(** QuoteJSONString on the code units between the quotes.  [pendingHigh]
    tells that the previous unit was a high surrogate of a pair and that
    this one is its low surrogate. *)
Fixpoint escapeJSON (pendingHigh : bool) (s : jsstring) : jsstring :=
  match s with
  | [] => []
  | c :: s' =>
      if pendingHigh then c :: escapeJSON false s'
      else if c =? 8 then [92; 98] ++ escapeJSON false s'
      else if c =? 9 then [92; 116] ++ escapeJSON false s'
      else if c =? 10 then [92; 110] ++ escapeJSON false s'
      else if c =? 12 then [92; 102] ++ escapeJSON false s'
      else if c =? 13 then [92; 114] ++ escapeJSON false s'
      else if c =? DQUOTE then [92; DQUOTE] ++ escapeJSON false s'
      else if c =? 92 then [92; 92] ++ escapeJSON false s'
      else if c <? 32 then unicodeEscape c ++ escapeJSON false s'
      else if isHighSurrogate c then
        match s' with
        | d :: _ =>
            if isLowSurrogate d then c :: escapeJSON true s'
            else unicodeEscape c ++ escapeJSON false s'
        | [] => unicodeEscape c
        end
      else if isLowSurrogate c then unicodeEscape c ++ escapeJSON false s'
      else c :: escapeJSON false s'
  end.

Definition quoteJSONString (s : jsstring) : jsstring :=
  [DQUOTE] ++ escapeJSON false s ++ [DQUOTE].

Definition numberToString (n : Z) : jsstring :=
  lit (DecimalString.NilZero.string_of_int (Z.to_int n)).

Fixpoint joinWith (sep : jsstring) (parts : list jsstring) : jsstring :=
  match parts with
  | [] => []
  | [x] => x
  | x :: rest => x ++ sep ++ joinWith sep rest
  end.

(** [JSON.stringify(value)] without indentation. *)
Fixpoint stringify (j : json) : jsstring :=
  match j with
  | JNull => lit "null"
  | JBool true => lit "true"
  | JBool false => lit "false"
  | JNum n => numberToString n
  | JStr s => quoteJSONString s
  | JArr items => lit "[" ++ joinWith (lit ",") (map stringify items) ++ lit "]"
  | JObj fields =>
      lit "{" ++
      joinWith (lit ",")
        (map (fun kv => quoteJSONString (fst kv) ++ lit ":" ++ stringify (snd kv)) fields)
      ++ lit "}"
  end.

(** Reading an own property of an object value. *)
Fixpoint lookupField (k : jsstring) (fields : list (jsstring * json)) : option json :=
  match fields with
  | [] => None
  | (k', v) :: rest => if decide (k = k') then Some v else lookupField k rest
  end.

Definition field (k : jsstring) (j : json) : option json :=
  match j with
  | JObj fields => lookupField k fields
  | _ => None
  end.

End Json.

Import Json.

(** ** src/types/env.ts and the upstream data shapes *)

Module Types.

(** The bindings as the worker receives them, before validation. *)
Record RawEnv : Type := mkRawEnv {
  raw_UBID_MAIN : option jsstring;
  raw_AT_MAIN : option jsstring;
  raw_COOKIE_SUFFIX : option jsstring;
  raw_API_KEY : option jsstring;
  raw_API_BASE : option jsstring;
  raw_TZ : option jsstring;
  raw_SPOTIFY_TOKEN : option jsstring;
  raw_SPOTIFY_CLIENT_ID : option jsstring;
  raw_SPOTIFY_CLIENT_SECRET : option jsstring;
  raw_SPOTIFY_REFRESH_TOKEN : option jsstring
}.

(** [z.infer<typeof EnvSchema>] *)
Record Env : Type := mkEnv {
  UBID_MAIN : jsstring;
  AT_MAIN : jsstring;
  COOKIE_SUFFIX : option jsstring;
  API_KEY : option jsstring;
  API_BASE : jsstring;
  TZ : option jsstring;
  SPOTIFY_TOKEN : option jsstring;
  SPOTIFY_CLIENT_ID : option jsstring;
  SPOTIFY_CLIENT_SECRET : option jsstring;
  SPOTIFY_REFRESH_TOKEN : option jsstring
}.

(** [EnvSchema.parse]: [None] stands for the ZodError it throws.  The
    validity of a URL is the platform's ([isUrl]). *)
Definition EnvSchema_parse (isUrl : jsstring -> bool) (raw : RawEnv) : option Env :=
  match raw_UBID_MAIN raw, raw_AT_MAIN raw, raw_API_BASE raw with
  | Some ubid, Some at_, Some base =>
      if (1 <=? length ubid)%nat && (1 <=? length at_)%nat && isUrl base then
        Some {| UBID_MAIN := ubid; AT_MAIN := at_;
                COOKIE_SUFFIX := raw_COOKIE_SUFFIX raw;
                API_KEY := raw_API_KEY raw;
                API_BASE := base;
                TZ := raw_TZ raw;
                SPOTIFY_TOKEN := raw_SPOTIFY_TOKEN raw;
                SPOTIFY_CLIENT_ID := raw_SPOTIFY_CLIENT_ID raw;
                SPOTIFY_CLIENT_SECRET := raw_SPOTIFY_CLIENT_SECRET raw;
                SPOTIFY_REFRESH_TOKEN := raw_SPOTIFY_REFRESH_TOKEN raw |}
      else None
  | _, _, _ => None
  end.

(** A smart-home endpoint as the handlers read it.  Each field is the value
    of an optional chain, [None] when the chain gives undefined:
      primaryCategory    = endpoint.displayCategories?.primary?.value
      deviceType         = endpoint.legacyIdentifiers?.dmsIdentifier?.deviceType?.value?.text
      deviceSerialNumber = endpoint.legacyIdentifiers?.dmsIdentifier?.deviceSerialNumber?.value?.text *)
Record Endpoint : Type := mkEndpoint {
  primaryCategory : option jsstring;
  deviceType : option jsstring;
  deviceSerialNumber : option jsstring;
  friendlyName : option jsstring
}.

(** The body of GET /api/users/me, typed [{ id?: string }]. *)
Record UsersMe : Type := mkUsersMe { id : option jsstring }.

(** One parsed capability state of the phoenix state response, when it is
    not null.  The code compares each of the three properties with a string
    by [===]: a field is [Some s] when the property is the string [s], and
    [None] when it is not there or is no string (as for every property of a
    number, a boolean or an array). *)
Record PowerStateCapability : Type := mkCapability {
  cap_namespace : option jsstring;
  cap_name : option jsstring;
  cap_value : option jsstring
}.

(** A property of the parsed request body, as a handler reads it: not
    there, null, a string, or anything else (a number, a boolean, an array
    or an object), of which only the truthiness matters.  Every property of
    a parsed body that is a number, a boolean, a string or an array reads as
    [FAbsent]. *)
Inductive Field : Type :=
| FAbsent
| FNull
| FString (s : jsstring)
| FOther (truthy : bool).

(** The body of POST /api/phoenix/state, typed
    [{ deviceStates?: Array<{ capabilityStates: string[] }> }]. *)
Record DeviceState : Type := mkDeviceState { capabilityStates : list jsstring }.
Record StateResponse : Type := mkStateResponse { deviceStates : option (list DeviceState) }.

End Types.

Import Types.

(** ** The runtime: fetch, the dynamic directory and exceptions *)

Module Runtime.

(** A thrown value: an [Error] with its message, or anything else. *)
Inductive Exn : Type :=
| Error (message : jsstring)
| NonError.

Record Request : Type := mkRequest {
  req_url : jsstring;
  req_method : jsstring;
  req_headers : gmap jsstring jsstring;
  req_body : option jsstring
}.

Record Response : Type := mkResponse {
  res_status : Z;
  res_setCookie : option jsstring;      (* headers.get of set-cookie *)
  res_text : jsstring
}.

(** [response.ok] *)
Definition res_ok (r : Response) : bool :=
  (200 <=? res_status r)%Z && (res_status r <=? 299)%Z.

(** What the handlers do to the outside, in order. *)
Inductive Event : Type :=
| Fetch (r : Request)
| GetCustomerSmartHomeEndpoints (env : Env)
| GetPrimaryLight (env : Env).

(** The outside.  utils/alexa-dynamic.ts is not part of the sources at hand:
    its functions are answered by the host, as are the network, the clock
    and the platform's string and JSON functions.  An answer may depend on
    everything that happened before. *)
Record Host : Type := mkHost {
  fetchResult : list Event -> Request -> Exn + Response;
  customerSmartHomeEndpoints : list Event -> Env -> Exn + list Endpoint;
  primaryLight : list Event -> Env -> Exn + Endpoint;
  extractEntityId : Endpoint -> Exn + jsstring;
  (* Number(new Intl.DateTimeFormat(en-US, hour numeric, hour12 false, timeZone).format(now)) *)
  hourIn : jsstring -> Exn + Z;
  isUrl : jsstring -> bool;
  toLowerCase : jsstring -> jsstring;
  toUpperCase : jsstring -> jsstring;
  jsonUsersMe : jsstring -> Exn + UsersMe;
  (* res.json() of the state response, read at its declared type: [inl]
     when the parse throws, and for a value on which a read of the same try
     block throws (null, a device state without capability states) *)
  jsonStateResponse : jsstring -> Exn + StateResponse;
  (* JSON.parse of one capability state: [inr None] when it gives null *)
  jsonCapability : jsstring -> Exn + option PowerStateCapability;
  (* the message of the ZodError that EnvSchema.parse throws *)
  zodErrorMessage : RawEnv -> jsstring;
  (* the message of the TypeError or RangeError that the engine throws when
     it evaluates the expression named *)
  nativeErrorMessage : jsstring -> jsstring
}.

(** The error the engine throws at an expression: an instance of Error,
    worded by the engine. *)
Definition nativeError (h : Host) (expression : jsstring) : Exn :=
  Error (nativeErrorMessage h expression).

(** Computations: they read the host, extend the trace of events and either
    throw or return. *)
Definition M (A : Type) : Type :=
  Host -> list Event -> list Event * (Exn + A).

Definition ret {A} (a : A) : M A := fun _ tr => (tr, inr a).

Definition throw {A} (e : Exn) : M A := fun _ tr => (tr, inl e).

Definition bind {A B} (m : M A) (k : A -> M B) : M B :=
  fun h tr =>
    match m h tr with
    | (tr', inr a) => k a h tr'
    | (tr', inl e) => (tr', inl e)
    end.

(** [try { m } catch (e) { handler e }] *)
Definition tryCatch {A} (m : M A) (handler : Exn -> M A) : M A :=
  fun h tr =>
    match m h tr with
    | (tr', inl e) => handler e h tr'
    | r => r
    end.

Definition askHost : M Host := fun h tr => (tr, inr h).

(** A pure platform call that may throw. *)
Definition lift {A} (r : Exn + A) : M A := fun _ tr => (tr, r).

Definition fetch (req : Request) : M Response :=
  fun h tr => (tr ++ [Fetch req], fetchResult h tr req).

Definition getCustomerSmartHomeEndpoints (env : Env) : M (list Endpoint) :=
  fun h tr => (tr ++ [GetCustomerSmartHomeEndpoints env], customerSmartHomeEndpoints h tr env).

Definition getPrimaryLight (env : Env) : M Endpoint :=
  fun h tr => (tr ++ [GetPrimaryLight env], primaryLight h tr env).

Definition run {A} (m : M A) (h : Host) : list Event * (Exn + A) := m h [].

End Runtime.

Import Runtime.

Declare Scope js_scope.
Notation "'let*' x ':=' m 'in' k" := (bind m (fun x => k))
  (at level 10, x name, m at level 100, k at level 200) : js_scope.
Local Open Scope js_scope.

(** ** src/utils/alexa.ts *)

Module Alexa.

Definition ALEXA_ENDPOINT : jsstring := lit "https://alexa.amazon.com/api/phoenix/state".

Definition USER_AGENT : jsstring :=
  lit "PitanguiBridge/2.2.629941.0-[PLATFORM=Android][MANUFACTURER=samsung][RELEASE=12][BRAND=Redmi][SDK=31][MODEL=SM-S928B]".

Definition HANDLEBARS_URL : jsstring := lit "https://alexa.amazon.com/api/handlebars".
Definition DEVICES_V2_URL : jsstring := lit "https://alexa.amazon.com/api/devices-v2/device".

(** The template literal of the Cookie header. *)
Definition cookieString (env : Env) : jsstring :=
  lit "csrf=1; ubid-main=" ++ UBID_MAIN env ++ lit "; at-main=" ++ AT_MAIN env.

(** [s.match(/csrf=([^;]+)/)], the first capture group: the leftmost place
    where [csrf=] is followed by at least one code unit other than the
    semicolon, and the longest run of such units from there. *)
Fixpoint matchCsrf (s : jsstring) : option jsstring :=
  match s with
  | [] => None
  | _ :: s' =>
      match stripPrefix N.eqb (lit "csrf=") s with
      | Some rest =>
          match takeWhile (fun c => negb (c =? 59)) rest with
          | [] => matchCsrf s'
          | v => Some v
          end
      | None => matchCsrf s'
      end
  end.

Definition csrfProbe (env : Env) (url : jsstring) : Request :=
  {| req_url := url;
     req_method := lit "GET";
     req_headers :=
       <[ lit "Cookie" := cookieString env ]>
       (<[ lit "Accept" := lit "application/json" ]>
       (<[ lit "User-Agent" := USER_AGENT ]> ∅));
     req_body := None |}.

(** What is inside each of the two try blocks of getCsrfToken: [Some v] when
    the block returns [v] from the function, [None] when control falls out
    of the block. *)
Definition csrfFromSource (env : Env) (url : jsstring) : M (option jsstring) :=
  let* response := fetch (csrfProbe env url) in
  if res_ok response then
    match res_setCookie response with
    | Some setCookieHeader =>
        if truthy setCookieHeader then
          match matchCsrf setCookieHeader with
          | Some v =>
              if truthy v && negb (bool_decide (v = lit "1")) then ret (Some v)
              else ret None
          | None => ret None
          end
        else ret None
    | None => ret None
    end
  else ret None.

Definition getCsrfToken (env : Env) : M jsstring :=
  let* r1 := tryCatch (csrfFromSource env HANDLEBARS_URL) (fun _ => ret None) in
  match r1 with
  | Some token => ret token
  | None =>
      let* r2 := tryCatch (csrfFromSource env DEVICES_V2_URL) (fun _ => ret None) in
      match r2 with
      | Some token => ret token
      | None => ret (lit "1")
      end
  end.

(** [buildAlexaHeaders(env, additional = {}, csrfToken = 1)]: an argument
    that is left out is [None].  The spread of [additional] comes last. *)
Definition buildAlexaHeaders (env : Env)
    (additional : option (gmap jsstring jsstring))
    (csrfToken : option jsstring) : gmap jsstring jsstring :=
  let additional := default ∅ additional in
  let csrfToken := default (lit "1") csrfToken in
  let headers :=
    <[ lit "Cookie" := cookieString env ]>
    (<[ lit "csrf" := csrfToken ]>
    (<[ lit "Accept" := lit "application/json; charset=utf-8" ]>
    (<[ lit "Accept-Language" := lit "en-US" ]>
    (<[ lit "User-Agent" := USER_AGENT ]> ∅)))) in
  additional ∪ headers.

Definition buildAlexaHeadersWithCsrf (env : Env)
    (additional : option (gmap jsstring jsstring)) : M (gmap jsstring jsstring) :=
  let* csrfToken := getCsrfToken env in
  ret (buildAlexaHeaders env additional (Some csrfToken)).

Definition stateRequestBody (entityId : jsstring) : jsstring :=
  stringify
    (JObj [(lit "stateRequests",
            JArr [JObj [(lit "entityId", JStr entityId);
                        (lit "entityType", JStr (lit "APPLIANCE"));
                        (lit "properties",
                         JArr [JObj [(lit "namespace", JStr (lit "Alexa.PowerController"));
                                     (lit "name", JStr (lit "powerState"))]])]])]).

(** The flatMap of isAnyLightOn: a raw state that does not parse is
    dropped; one that parses to null stays in the list, as [None]. *)
Definition parseCapabilities (h : Host) (raws : list jsstring)
    : list (option PowerStateCapability) :=
  flat_map (fun raw => match jsonCapability h raw with
                       | inr cap => [cap]
                       | inl _ => []
                       end) raws.

Definition isPowerState (cap : PowerStateCapability) : bool :=
  bool_decide (cap_namespace cap = Some (lit "Alexa.PowerController"))
  && bool_decide (cap_name cap = Some (lit "powerState")).

(** The find over the parsed states: its callback reads [cap.namespace],
    which throws a TypeError on null; the states after the first hit are
    not looked at. *)
Fixpoint findPowerState (h : Host) (caps : list (option PowerStateCapability))
    : Exn + option PowerStateCapability :=
  match caps with
  | [] => inr None
  | None :: _ => inl (nativeError h (lit "cap.namespace"))
  | Some cap :: rest => if isPowerState cap then inr (Some cap) else findPowerState h rest
  end.

(** [Promise<boolean | null>]: null is [None]. *)
Definition isAnyLightOn (env : Env) : M (option bool) :=
  if negb (truthy (UBID_MAIN env)) || negb (truthy (AT_MAIN env)) then ret None
  else
    tryCatch
      (let* h := askHost in
       let* primaryLight := getPrimaryLight env in
       let* entityId := lift (extractEntityId h primaryLight) in
       let body := stateRequestBody entityId in
       let* res := fetch {| req_url := ALEXA_ENDPOINT;
                       req_method := lit "POST";
                       req_headers :=
                         buildAlexaHeaders env
                           (Some {[ lit "Content-Type" := lit "application/json; charset=utf-8" ]})
                           None;
                       req_body := Some body |} in
       if negb (res_ok res) then ret None
       else
         let* data := lift (jsonStateResponse h (res_text res)) in
         let* powerCap :=
           lift (match deviceStates data with
                 | Some (first :: _) =>
                     findPowerState h (parseCapabilities h (capabilityStates first))
                 | _ => inr None
                 end) in
         ret (match powerCap with
              | Some cap => Some (bool_decide (cap_value cap = Some (lit "ON")))
              | None => None
              end))
      (fun _ => ret None).

End Alexa.

Import Alexa.

(** ** The behavior sequence, as every handler builds it *)

Module Behaviors.

Definition PREVIEW_URL : jsstring := lit "https://alexa.amazon.com/api/behaviors/preview".
Definition USERS_ME_URL : jsstring := lit "https://alexa.amazon.com/api/users/me".

(** [text.replace(/QUOTE/g, APOSTROPHE)], the escaping of the reference
    script. *)
Definition escapeQuotes (text : jsstring) : jsstring :=
  replaceAll (fun t => match t with
                       | c :: _ => if c =? DQUOTE then Some (1%nat, [SQUOTE]) else None
                       | [] => None
                       end) 0 text.

(** The object literal [operationNode]. *)
Definition operationNode (type : jsstring) (operationPayload : list (jsstring * json)) : json :=
  JObj [(lit "@type", JStr (lit "com.amazon.alexa.behaviors.model.OpaquePayloadOperationNode"));
        (lit "type", JStr type);
        (lit "operationPayload", JObj operationPayload)].

(** The object literal [sequenceJsonObj] (announce) or [sequenceJson] (music). *)
Definition sequenceJsonObj (node : json) : json :=
  JObj [(lit "@type", JStr (lit "com.amazon.alexa.behaviors.model.Sequence"));
        (lit "startNode",
         JObj [(lit "@type", JStr (lit "com.amazon.alexa.behaviors.model.ParallelNode"));
               (lit "nodesToExecute", JArr [node])])].

(** The object literal [behaviorCommand]. *)
Definition behaviorCommand (sequence : json) : json :=
  JObj [(lit "behaviorId", JStr (lit "PREVIEW"));
        (lit "sequenceJson", JStr (stringify sequence));
        (lit "status", JStr (lit "ENABLED"))].

(** The headers every handler adds for the POST to behaviors/preview. *)
Definition previewHeaders : gmap jsstring jsstring :=
  <[ lit "Content-Type" := lit "application/json; charset=UTF-8" ]>
  (<[ lit "Referer" := lit "https://alexa.amazon.com/spa/index.html" ]>
  (<[ lit "Origin" := lit "https://alexa.amazon.com" ]>
  (<[ lit "DNT" := lit "1" ]>
  (<[ lit "Connection" := lit "keep-alive" ]> ∅)))).

(** The find over the endpoints and the two checks after it; what is thrown
    is the handler's [new Error(message)].  The messages are the handler's
    arguments because each handler words them its own way. *)
Definition isVoiceEnabled (endpoint : Endpoint) : bool :=
  bool_decide (primaryCategory endpoint = Some (lit "ALEXA_VOICE_ENABLED")).

Record VoiceDevice : Type := mkVoiceDevice {
  echoDevice : Endpoint;
  vd_deviceType : jsstring;
  vd_deviceSerialNumber : jsstring
}.

Definition resolveVoiceDevice (noDeviceMessage missingMessage : jsstring)
    (endpoints : list Endpoint) : Exn + VoiceDevice :=
  match List.find isVoiceEnabled endpoints with
  | None => inl (Error noDeviceMessage)
  | Some echo =>
      match deviceType echo, deviceSerialNumber echo with
      | Some dt, Some sn =>
          if negb (truthy dt) || negb (truthy sn) then inl (Error missingMessage)
          else inr {| echoDevice := echo; vd_deviceType := dt; vd_deviceSerialNumber := sn |}
      | _, _ => inl (Error missingMessage)
      end
  end.

(** GET /api/users/me and the two checks on it. *)
Definition fetchCustomerId (env : Env) : M jsstring :=
  let* h := askHost in
  let* headers := buildAlexaHeadersWithCsrf env None in
  let* usersMeResponse :=
    fetch {| req_url := USERS_ME_URL; req_method := lit "GET";
             req_headers := headers; req_body := None |} in
  if negb (res_ok usersMeResponse) then
    throw (Error (lit "Failed to get user ID: " ++ numberToString (res_status usersMeResponse)))
  else
    let* usersMeData := lift (jsonUsersMe h (res_text usersMeResponse)) in
    match id usersMeData with
    | Some customerId =>
        if truthy customerId then ret customerId
        else throw (Error (lit "No 'id' field in /api/users/me response"))
    | None => throw (Error (lit "No 'id' field in /api/users/me response"))
    end.

(** [error instanceof Error ? error.message : Unknown error] *)
Definition errorMessage (e : Exn) : jsstring :=
  match e with
  | Error message => message
  | NonError => lit "Unknown error"
  end.

(** What a handler answers: the status, and the [error] and [details]
    strings of the JSON body when it has them.  The rest of the body (debug
    data, durations, the upstream payload) is left out. *)
Record HttpResult : Type := mkHttpResult {
  http_status : Z;
  http_error : option jsstring;
  http_details : option jsstring
}.

(** The statuses that allow no body. *)
Definition nullBodyStatus (status : Z) : bool :=
  bool_decide (status ∈ [101; 103; 204; 205; 304]%Z).

(** An answer whose status is the upstream one: [new Response(body,
    { status })] with a body, which is also what [c.json(body, status)]
    comes to.  The constructor throws a RangeError for a status outside
    200..599 and a TypeError for a null-body status. *)
Definition respond (result : HttpResult) : M HttpResult :=
  let* h := askHost in
  if ((http_status result <? 200) || (599 <? http_status result))%Z
     || nullBodyStatus (http_status result)
  then throw (nativeError h (lit "new Response"))
  else ret result.

(** A string property of the parsed body, when the property is a string. *)
Definition stringOf (f : Field) : option jsstring :=
  match f with
  | FString s => Some s
  | _ => None
  end.

End Behaviors.

Import Behaviors.

(** ** src/api/v1/announce.ts *)

Module Announce.

(** The three properties the handler reads of the parsed request body,
    which the code types [{ name?, message?, ssml? }] without checking. *)
Record AnnounceBody : Type := mkAnnounceBody {
  name : Field;
  message : Field;
  ssml : Field
}.

(** The try block around [c.req.json()]: [body] is what the call gives (it
    throws, or gives null, or a value read through its three properties).
    The logging inside the block reads [parsed.name], which throws on null,
    and calls [parsed.message?.substring(0, 50)], which throws when the
    message is there and no string. *)
Definition readBody (h : Host) (body : Exn + option AnnounceBody) : Exn + AnnounceBody :=
  match body with
  | inl error => inl error
  | inr None => inl (nativeError h (lit "parsed.name"))
  | inr (Some parsed) =>
      match message parsed with
      | FOther _ => inl (nativeError h (lit "parsed.message?.substring"))
      | _ => inr parsed
      end
  end.

(** [field?.trim()]: undefined on undefined and null, a TypeError on what
    is no string. *)
Definition trimOptional (h : Host) (expression : jsstring) (f : Field)
    : Exn + option jsstring :=
  match f with
  | FAbsent | FNull => inr None
  | FString s => inr (Some (trim s))
  | FOther _ => inl (nativeError h expression)
  end.

(** [parsed.ssml?.trim() || parsed.message?.trim() || EMPTY] *)
Definition textToSpeakRawOf (h : Host) (parsed : AnnounceBody) : Exn + jsstring :=
  match trimOptional h (lit "parsed.ssml?.trim") (ssml parsed) with
  | inl error => inl error
  | inr fromSsml =>
      if truthyOpt fromSsml then inr (default [] fromSsml)
      else
        match trimOptional h (lit "parsed.message?.trim") (message parsed) with
        | inl error => inl error
        | inr fromMessage =>
            inr (if truthyOpt fromMessage then default [] fromMessage else [])
        end
  end.

(** [(parsed.name ?? EMPTY).trim()] *)
Definition nameOf (h : Host) (parsed : AnnounceBody) : Exn + jsstring :=
  match name parsed with
  | FAbsent | FNull => inr (trim [])
  | FString s => inr (trim s)
  | FOther _ => inl (nativeError h (lit "(parsed.name ?? '').trim"))
  end.

Definition NO_ECHO_MESSAGE : jsstring :=
  lit "No Echo device found. Make sure you have at least one Alexa device registered.".
Definition MISSING_IDS_MESSAGE : jsstring :=
  lit "Missing deviceType or deviceSerialNumber in Echo device data".

(** The spec's name for lines 139 to 154 of the handler. *)
Definition resolvePrimaryVoiceDevice (endpoints : list Endpoint) : Exn + VoiceDevice :=
  resolveVoiceDevice NO_ECHO_MESSAGE MISSING_IDS_MESSAGE endpoints.

(** The try block that gets the customer id and the Echo device. *)
Definition getDeviceInfo (env : Env) : M (jsstring * VoiceDevice) :=
  let* customerId := fetchCustomerId env in
  let* endpoints := getCustomerSmartHomeEndpoints env in
  let* device := lift (resolvePrimaryVoiceDevice endpoints) in
  ret (customerId, device).

Definition speakPayload (dt sn customerId textToSpeak : jsstring) : list (jsstring * json) :=
  [(lit "deviceType", JStr dt);
   (lit "deviceSerialNumber", JStr sn);
   (lit "customerId", JStr customerId);
   (lit "locale", JStr (lit "en-US"));
   (lit "textToSpeak", JStr textToSpeak)].

Definition announceOperationNode (dt sn customerId textToSpeakRaw : jsstring) : json :=
  let textToSpeak := escapeQuotes textToSpeakRaw in
  operationNode (lit "Alexa.Speak") (speakPayload dt sn customerId textToSpeak).

Definition announceBehaviorCommand (dt sn customerId textToSpeakRaw : jsstring) : json :=
  behaviorCommand (sequenceJsonObj (announceOperationNode dt sn customerId textToSpeakRaw)).

(** From the POST to the end of the handler. *)
Definition postAnnouncement (env : Env) (customerId : jsstring) (device : VoiceDevice)
    (textToSpeakRaw : jsstring) : M HttpResult :=
  let command := announceBehaviorCommand (vd_deviceType device) (vd_deviceSerialNumber device)
                   customerId textToSpeakRaw in
  let* headers := buildAlexaHeadersWithCsrf env (Some previewHeaders) in
  let requestBody := stringify command in
  let* res := fetch {| req_url := PREVIEW_URL; req_method := lit "POST";
                       req_headers := headers; req_body := Some requestBody |} in
  if negb (res_ok res) then
    if (res_status res =? 500)%Z then
      ret {| http_status := 500;
             http_error := Some (lit "Amazon API returned 500 error");
             http_details := None |}
    else
      respond {| http_status := res_status res;
                 http_error := Some (lit "Alexa API error");
                 http_details := None |}
  else
    ret {| http_status := 200; http_error := None; http_details := None |}.

(** From [Get device information] to the end of the handler. *)
Definition deliverAnnouncement (env : Env) (textToSpeakRaw : jsstring) : M HttpResult :=
  let* info :=
    tryCatch
      (let* r := getDeviceInfo env in ret (inr r))
      (fun error =>
         ret (inl {| http_status := 500;
                     http_error := Some (lit "Failed to get device information");
                     http_details := Some (errorMessage error) |})) in
  match info with
  | inl response => ret response
  | inr (customerId, device) => postAnnouncement env customerId device textToSpeakRaw
  end.

Definition DEFAULT_TZ : jsstring := lit "America/New_York".

(** [env.TZ || DEFAULT_TZ] *)
Definition timeZone (env : Env) : jsstring :=
  match TZ env with
  | Some z => if truthy z then z else DEFAULT_TZ
  | None => DEFAULT_TZ
  end.

(** From the time check to the end of the handler. *)
Definition announceValidated (env : Env) (textToSpeakRaw : jsstring) : M HttpResult :=
  let tz := timeZone env in
  let* h := askHost in
  let* hourTz := lift (hourIn h tz) in
  let isDay := (10 <=? hourTz)%Z && (hourTz <? 22)%Z in
  if negb isDay then
    let* lightOn := isAnyLightOn env in
    match lightOn with
    | Some false =>
        ret {| http_status := 403;
               http_error := Some (lit "All lights are off " ++ [8211] ++
                                   lit " announcement suppressed for night time.");
               http_details := None |}
    | _ => deliverAnnouncement env textToSpeakRaw
    end
  else deliverAnnouncement env textToSpeakRaw.

Definition badRequest (error : jsstring) : HttpResult :=
  {| http_status := 400; http_error := Some error; http_details := None |}.

(** [announceHandler(c)]: [rawEnv] is [c.env]; [body] is what [c.req.json()]
    gives. *)
Definition announceHandler (rawEnv : RawEnv) (body : Exn + option AnnounceBody)
    : M HttpResult :=
  let* h := askHost in
  match EnvSchema_parse (isUrl h) rawEnv with
  | None =>
      ret {| http_status := 500;
             http_error := Some (lit "Environment validation failed");
             http_details := Some (zodErrorMessage h rawEnv) |}
  | Some env =>
      if negb (truthy (UBID_MAIN env)) || negb (truthy (AT_MAIN env)) then
        ret {| http_status := 500;
               http_error := Some (lit "Missing UBID_MAIN or AT_MAIN in environment.");
               http_details := None |}
      else
        match readBody h body with
        | inl error =>
            ret {| http_status := 400;
                   http_error := Some (lit "Invalid JSON body.");
                   http_details := Some (errorMessage error) |}
        | inr parsed =>
            let* name := lift (nameOf h parsed) in
            let* textToSpeakRaw := lift (textToSpeakRawOf h parsed) in
            if negb (truthy name) || negb (truthy textToSpeakRaw) then
              ret (badRequest (lit "Both " ++ quoted "name" ++ lit " and " ++ quoted "message" ++
                               lit " (or " ++ quoted "ssml" ++ lit ") are required."))
            else if (40 <? length name)%nat then
              ret (badRequest (lit "Name must be 40 characters or fewer."))
            else if (500 <? length textToSpeakRaw)%nat then
              ret (badRequest (lit "Message/SSML must be 500 characters or fewer."))
            else announceValidated env textToSpeakRaw
        end
  end.

End Announce.

Import Announce.

(** ** The music handlers *)

Module Music.

(** Reading [obj[key]] on an object literal: an own property, a property
    inherited from Object.prototype (a function or an object, never a
    string), or undefined. *)
Inductive Lookup : Type :=
| Own (value : jsstring)
| Inherited
| Undefined.

Definition objectPrototypeKeys : list jsstring :=
  [lit "constructor"; lit "__defineGetter__"; lit "__defineSetter__";
   lit "hasOwnProperty"; lit "__lookupGetter__"; lit "__lookupSetter__";
   lit "isPrototypeOf"; lit "propertyIsEnumerable"; lit "toString";
   lit "valueOf"; lit "__proto__"; lit "toLocaleString"].

Fixpoint assoc (key : jsstring) (entries : list (jsstring * jsstring)) : option jsstring :=
  match entries with
  | [] => None
  | (k, v) :: rest => if decide (key = k) then Some v else assoc key rest
  end.

Definition lookup (entries : list (jsstring * jsstring)) (key : jsstring) : Lookup :=
  match assoc key entries with
  | Some v => Own v
  | None => if bool_decide (key ∈ objectPrototypeKeys) then Inherited else Undefined
  end.

Definition commandMap : list (jsstring * jsstring) :=
  [(lit "play", lit "PlayCommand");
   (lit "pause", lit "PauseCommand");
   (lit "next", lit "NextCommand");
   (lit "prev", lit "PreviousCommand");
   (lit "previous", lit "PreviousCommand");
   (lit "forward", lit "ForwardCommand");
   (lit "fwd", lit "ForwardCommand");
   (lit "rewind", lit "RewindCommand");
   (lit "rwd", lit "RewindCommand")].

Definition textCommandMap : list (jsstring * jsstring) :=
  [(lit "PlayCommand", lit "resume music");
   (lit "PauseCommand", lit "pause music");
   (lit "NextCommand", lit "next song");
   (lit "PreviousCommand", lit "previous song");
   (lit "ForwardCommand", lit "fast forward");
   (lit "RewindCommand", lit "rewind")].

(** [s.replace(pattern, EMPTY)] with a string pattern: the first occurrence
    only. *)
Fixpoint removeFirst (pattern s : jsstring) : jsstring :=
  match stripPrefix N.eqb pattern s with
  | Some rest => rest
  | None =>
      match s with
      | [] => []
      | c :: s' => c :: removeFirst pattern s'
      end
  end.

(** [textCommandMap[commandType] || commandType.toLowerCase().replace(Command, EMPTY)]
    for a string [commandType]; an inherited property is truthy and is not
    a string, which the handler does not expect. *)
Definition textCommandOf (h : Host) (commandType : jsstring) : Exn + jsstring :=
  let fallback := removeFirst (lit "Command") (toLowerCase h commandType) in
  match lookup textCommandMap commandType with
  | Own phrase => inr (if truthy phrase then phrase else fallback)
  | Inherited => inl (Error (lit "textCommand.replace is not a function"))
  | Undefined => inr fallback
  end.

Definition textCommandPayload (dt sn customerId text : jsstring) : list (jsstring * json) :=
  [(lit "deviceType", JStr dt);
   (lit "deviceSerialNumber", JStr sn);
   (lit "customerId", JStr customerId);
   (lit "locale", JStr (lit "en-US"));
   (lit "skillId", JStr (lit "amzn1.ask.1p.tellalexa"));
   (lit "text", JStr text)].

(** The operation node, sequence and command of musicControlHandler and of
    musicTextCommandHandler. *)
Definition textCommandOperationNode (dt sn customerId text : jsstring) : json :=
  let textEscaped := escapeQuotes text in
  operationNode (lit "Alexa.TextCommand") (textCommandPayload dt sn customerId textEscaped).

Definition textCommandBehavior (dt sn customerId text : jsstring) : json :=
  behaviorCommand (sequenceJsonObj (textCommandOperationNode dt sn customerId text)).

Definition playSearchPhrasePayload (dt sn customerId provider searchPhrase : jsstring)
    : list (jsstring * json) :=
  [(lit "deviceType", JStr dt);
   (lit "deviceSerialNumber", JStr sn);
   (lit "customerId", JStr customerId);
   (lit "locale", JStr (lit "en-US"));
   (lit "musicProviderId", JStr provider);
   (lit "searchPhrase", JStr searchPhrase)].

(** The operation node, sequence and command of playMusicHandler;
    [provider] is already in upper case. *)
Definition playSearchPhraseOperationNode (dt sn customerId provider searchPhrase : jsstring)
    : json :=
  let searchPhraseEscaped := escapeQuotes searchPhrase in
  operationNode (lit "Alexa.Music.PlaySearchPhrase")
    (playSearchPhrasePayload dt sn customerId provider searchPhraseEscaped).

Definition playSearchPhraseBehavior (dt sn customerId provider searchPhrase : jsstring) : json :=
  behaviorCommand
    (sequenceJsonObj (playSearchPhraseOperationNode dt sn customerId provider searchPhrase)).

Definition NO_ECHO_MESSAGE : jsstring := lit "No Echo device found".
Definition MISSING_IDS_MESSAGE : jsstring := lit "Missing deviceType or deviceSerialNumber".

Definition resolveEcho (env : Env) : M VoiceDevice :=
  let* endpoints := getCustomerSmartHomeEndpoints env in
  lift (resolveVoiceDevice NO_ECHO_MESSAGE MISSING_IDS_MESSAGE endpoints).

Definition serverError (error : jsstring) (details : option jsstring) : HttpResult :=
  {| http_status := 500; http_error := Some error; http_details := details |}.

Definition badRequest (error : jsstring) : HttpResult :=
  {| http_status := 400; http_error := Some error; http_details := None |}.

(** The validation of the environment and of the credentials, the same in
    the three handlers. *)
Definition withEnv (rawEnv : RawEnv) (k : Env -> M HttpResult) : M HttpResult :=
  let* h := askHost in
  match EnvSchema_parse (isUrl h) rawEnv with
  | None =>
      ret (serverError (lit "Environment validation failed")
             (Some (zodErrorMessage h rawEnv)))
  | Some env =>
      if negb (truthy (UBID_MAIN env)) || negb (truthy (AT_MAIN env)) then
        ret (serverError (lit "Missing UBID_MAIN or AT_MAIN in environment.") None)
      else k env
  end.

(** The POST of the command to behaviors/preview and the answer; [failure]
    is the handler's wording of a rejected request. *)
Definition postBehavior (env : Env) (command : json) (failure : jsstring) : M HttpResult :=
  let* headers := buildAlexaHeadersWithCsrf env (Some previewHeaders) in
  let* res := fetch {| req_url := PREVIEW_URL; req_method := lit "POST";
                       req_headers := headers; req_body := Some (stringify command) |} in
  if negb (res_ok res) then
    respond {| http_status := res_status res;
               http_error := Some (failure ++ numberToString (res_status res));
               http_details := Some (take 200 (res_text res)) |}
  else
    ret {| http_status := 200; http_error := None; http_details := None |}.

(** Runs a try block whose catch answers 500 with [error]. *)
Definition orServerError {A} (error : jsstring) (m : M A) : M (HttpResult + A) :=
  tryCatch (let* a := m in ret (inr a))
           (fun e => ret (inl (serverError error (Some (errorMessage e))))).

(** [field?.method()] on a property of the parsed body: undefined on
    undefined and null, a TypeError on what is no string. *)
Definition callOptional (h : Host) (expression : jsstring) (method : jsstring -> jsstring)
    (f : Field) : Exn + option jsstring :=
  match f with
  | FAbsent | FNull => inr None
  | FString s => inr (Some (method s))
  | FOther _ => inl (nativeError h expression)
  end.

(** Reading a property of what [c.req.json()] gave: a TypeError on null. *)
Definition readProperty {A} (h : Host) (expression : jsstring) (parsed : option A) : Exn + A :=
  match parsed with
  | Some a => inr a
  | None => inl (nativeError h expression)
  end.

(** musicControlHandler: [body] is what [c.req.json()] gives (it throws, or
    gives null, or a value read through its property [command]). *)
Definition musicControlHandler (rawEnv : RawEnv) (body : Exn + option Field) : M HttpResult :=
  withEnv rawEnv (fun env =>
    let* h := askHost in
    match body with
    | inl error =>
        ret {| http_status := 400; http_error := Some (lit "Invalid JSON body.");
               http_details := Some (errorMessage error) |}
    | inr parsed =>
        let* parsedCommand := lift (readProperty h (lit "parsed.command") parsed) in
        let* command :=
          lift (callOptional h (lit "parsed.command?.toLowerCase")
                  (fun c => trim (toLowerCase h c)) parsedCommand) in
        if negb (truthyOpt command) then
          ret (badRequest (lit "Missing " ++ quoted "command" ++
                 lit " field. Valid commands: play, pause, next, prev, forward, rewind"))
        else
          let command := default [] command in
          match lookup commandMap command with
          | Undefined =>
              ret (badRequest (lit "Invalid command " ++ [DQUOTE] ++ command ++ [DQUOTE] ++
                     lit ". Valid commands: " ++ joinWith (lit ", ") (map fst commandMap)))
          | commandType =>
              let* device := orServerError (lit "Failed to get device information") (resolveEcho env) in
              match device with
              | inl response => ret response
              | inr device =>
                  let* customer := orServerError (lit "Failed to get customer ID") (fetchCustomerId env) in
                  match customer with
                  | inl response => ret response
                  | inr customerId =>
                      match commandType with
                      | Own commandType =>
                          let* textCommand := lift (textCommandOf h commandType) in
                          postBehavior env
                            (textCommandBehavior (vd_deviceType device) (vd_deviceSerialNumber device)
                               customerId textCommand)
                            (lit "Music control failed: ")
                      | _ => throw (Error (lit "commandType.toLowerCase is not a function"))
                      end
                  end
              end
          end
    end).

Definition validProviders : list jsstring :=
  [lit "SPOTIFY"; lit "AMAZON_MUSIC"; lit "TUNEIN"; lit "APPLE_MUSIC"; lit "DEEZER";
   lit "I_HEART_RADIO"].

(** The single try block of playMusicHandler and musicTextCommandHandler. *)
Definition getDeviceInfo (env : Env) : M (jsstring * VoiceDevice) :=
  let* customerId := fetchCustomerId env in
  let* device := resolveEcho env in
  ret (customerId, device).

(** [parsed.provider || SPOTIFY]: the default stands in for whatever is
    falsy; [None] is a truthy value that is no string. *)
Definition providerOf (parsedProvider : Field) : option jsstring :=
  match parsedProvider with
  | FString s => Some (if truthy s then s else lit "SPOTIFY")
  | FOther true => None
  | _ => Some (lit "SPOTIFY")
  end.

(** playMusicHandler: [body] is what [c.req.json()] gives (it throws, or
    gives null, or a value read through its properties [searchPhrase] and
    [provider]). *)
Definition playMusicHandler (rawEnv : RawEnv)
    (body : Exn + option (Field * Field)) : M HttpResult :=
  withEnv rawEnv (fun env =>
    let* h := askHost in
    match body with
    | inl _ => ret (badRequest (lit "Invalid JSON body."))
    | inr parsed =>
        let* properties := lift (readProperty h (lit "parsed.searchPhrase") parsed) in
        let parsedSearchPhrase := fst properties in
        let parsedProvider := snd properties in
        let* searchPhrase :=
          lift (callOptional h (lit "parsed.searchPhrase?.trim") trim parsedSearchPhrase) in
        let provider := providerOf parsedProvider in
        if negb (truthyOpt searchPhrase) then
          ret (badRequest (lit "Missing " ++ quoted "searchPhrase" ++ lit " field. Example: " ++
                 quoted "jazz music" ++ lit ", " ++ quoted "The Beatles" ++ lit ", etc."))
        else
          let searchPhrase := default [] searchPhrase in
          let* provider := lift (readProperty h (lit "provider.toUpperCase") provider) in
          if negb (bool_decide (toUpperCase h provider ∈ validProviders)) then
            ret (badRequest (lit "Invalid provider " ++ [DQUOTE] ++ provider ++ [DQUOTE] ++
                   lit ". Valid providers: " ++ joinWith (lit ", ") validProviders))
          else
            let* info := orServerError (lit "Failed to get device information") (getDeviceInfo env) in
            match info with
            | inl response => ret response
            | inr (customerId, device) =>
                postBehavior env
                  (playSearchPhraseBehavior (vd_deviceType device) (vd_deviceSerialNumber device)
                     customerId (toUpperCase h provider) searchPhrase)
                  (lit "Play music failed: ")
            end
    end).

(** musicTextCommandHandler: [body] is what [c.req.json()] gives (it throws,
    or gives null, or a value read through its property [text]). *)
Definition musicTextCommandHandler (rawEnv : RawEnv) (body : Exn + option Field)
    : M HttpResult :=
  withEnv rawEnv (fun env =>
    let* h := askHost in
    match body with
    | inl _ => ret (badRequest (lit "Invalid JSON body."))
    | inr parsed =>
        let* parsedText := lift (readProperty h (lit "parsed.text") parsed) in
        let* text := lift (callOptional h (lit "parsed.text?.trim") trim parsedText) in
        if negb (truthyOpt text) then
          ret (badRequest (lit "Missing " ++ quoted "text" ++ lit " field. Example: " ++
                 quoted "play jazz music" ++ lit ", " ++ quoted "pause music" ++ lit ", etc."))
        else
          let text := default [] text in
          let* info := orServerError (lit "Failed to get device information") (getDeviceInfo env) in
          match info with
          | inl response => ret response
          | inr (customerId, device) =>
              postBehavior env
                (textCommandBehavior (vd_deviceType device) (vd_deviceSerialNumber device)
                   customerId text)
                (lit "Text command failed: ")
          end
    end).

End Music.

(** ** The directory cache *)

Module DirectoryCache.

(** Modelled from the spec: utils/alexa-dynamic.ts, which holds the cached
    reads of the resource directory, is not among the sources at hand.  The
    spec gives the policy: each cached value independently stores
    (value, fetchedAt); a read recomputes when now - fetchedAt > ttl; the
    ttl is fixed (5 minutes); nothing but expiry invalidates an entry.  The
    clock is the argument [now], in milliseconds.  The spec does not say
    what a failed fetch leaves in the slot: here it leaves the slot as it
    was and the failure goes to the caller. *)
Record Entry (V : Type) : Type := mkEntry { value : V; fetchedAt : Z }.

Arguments mkEntry {V} _ _.
Arguments value {V} _.
Arguments fetchedAt {V} _.

(** Modelled from the spec: the fixed ttl of alexa-dynamic.ts, 5 minutes, in
    milliseconds. *)
Definition TTL : Z := 300000.

Inductive Resource : Type := AccountInfoRead | SmartHomeEndpointsRead | DevicesRead.

Record AccountInfo : Type := mkAccountInfo { customerId : jsstring }.

Record Device : Type := mkDevice {
  dev_serialNumber : jsstring;
  dev_deviceType : jsstring;
  dev_friendlyName : jsstring
}.

(** The upstream service: what a fetch answers, given the fetches made so
    far. *)
Record Upstream : Type := mkUpstream {
  up_accountInfo : list Resource -> Exn + AccountInfo;
  up_endpoints : list Resource -> Exn + list Endpoint;
  up_devices : list Resource -> Exn + list Device
}.

Record Directory : Type := mkDirectory {
  accountSlot : option (Entry AccountInfo);
  endpointSlot : option (Entry (list Endpoint));
  deviceSlot : option (Entry (list Device));
  upstreamCalls : list Resource
}.

Definition emptyDirectory : Directory :=
  {| accountSlot := None; endpointSlot := None; deviceSlot := None; upstreamCalls := [] |}.

(** Modelled from the spec: the staleness test of alexa-dynamic.ts, a read
    recomputes when now - fetchedAt > ttl. *)
Definition expired {V} (now : Z) (e : Entry V) : bool := (TTL <? now - fetchedAt e)%Z.

(** Modelled from the spec: one cached read of alexa-dynamic.ts.  It gives
    the slot after the read, whether upstream was called, and the result. *)
Definition readSlot {V} (now : Z) (fetched : Exn + V) (slot : option (Entry V))
    : option (Entry V) * bool * (Exn + V) :=
  let refetch :=
    match fetched with
    | inr v => (Some (mkEntry v now), true, inr v)
    | inl e => (slot, true, inl e)
    end in
  match slot with
  | Some e => if expired now e then refetch else (slot, false, inr (value e))
  | None => refetch
  end.

Definition logCall (called : bool) (r : Resource) (calls : list Resource) : list Resource :=
  if called then calls ++ [r] else calls.

(** Modelled from the spec: the three cached reads of alexa-dynamic.ts, each
    on its own slot. *)
Definition getAccountInfo (up : Upstream) (now : Z) (d : Directory)
    : Directory * (Exn + AccountInfo) :=
  let '(slot, called, result) :=
    readSlot now (up_accountInfo up (upstreamCalls d)) (accountSlot d) in
  ({| accountSlot := slot; endpointSlot := endpointSlot d; deviceSlot := deviceSlot d;
      upstreamCalls := logCall called AccountInfoRead (upstreamCalls d) |}, result).

Definition listSmartHomeEndpoints (up : Upstream) (now : Z) (d : Directory)
    : Directory * (Exn + list Endpoint) :=
  let '(slot, called, result) :=
    readSlot now (up_endpoints up (upstreamCalls d)) (endpointSlot d) in
  ({| accountSlot := accountSlot d; endpointSlot := slot; deviceSlot := deviceSlot d;
      upstreamCalls := logCall called SmartHomeEndpointsRead (upstreamCalls d) |}, result).

Definition listDevices (up : Upstream) (now : Z) (d : Directory)
    : Directory * (Exn + list Device) :=
  let '(slot, called, result) :=
    readSlot now (up_devices up (upstreamCalls d)) (deviceSlot d) in
  ({| accountSlot := accountSlot d; endpointSlot := endpointSlot d; deviceSlot := slot;
      upstreamCalls := logCall called DevicesRead (upstreamCalls d) |}, result).

End DirectoryCache.

(** ** Security utilities: isAmazonDomain *)

Module Domain.

(** [s.endsWith(suffix)] *)
Definition endsWith (suffix s : jsstring) : bool := startsWith (rev suffix) (rev s).

(** [isAmazonDomain(url)]: [hostnameOf url] is [new URL(url).hostname],
    [None] when the constructor throws. *)
Definition isAmazonDomain (hostnameOf : jsstring -> option jsstring) (url : jsstring) : bool :=
  match hostnameOf url with
  | Some hostname =>
      bool_decide (hostname = lit "alexa.amazon.com")
      || bool_decide (hostname = lit "alexa-comms-mobile-service.amazon.com")
      || endsWith (lit ".amazon.com") hostname
  | None => false
  end.

End Domain.

(** ** src/utils/alexa.ts: getAmazonMusicPlayback *)

Module NowPlaying.

(** The body of GET /api/np/list-media-sessions, as the function reads it. *)
Record InfoText : Type := mkInfoText {
  title : option jsstring;
  subText1 : option jsstring;           (* artist *)
  subText2 : option jsstring            (* album / mix *)
}.

Record MainArt : Type := mkMainArt {
  mediumUrl : option jsstring;
  largeUrl : option jsstring;
  smallUrl : option jsstring;
  tinyUrl : option jsstring;
  fullUrl : option jsstring
}.

(** The two numbers are passed on as they come. *)
Record Progress : Type := mkProgress {
  mediaLength : option Z;
  mediaProgress : option Z
}.

Record NowPlayingData : Type := mkNowPlayingData {
  infoText : option InfoText;
  mainArt : option MainArt;
  np_playerState : option jsstring;
  progress : option Progress;
  providerName : option jsstring        (* provider?.providerName *)
}.

Record MediaSession : Type := mkMediaSession {
  nowPlayingData : option NowPlayingData;
  playerState : option jsstring
}.

Record NPResponse : Type := mkNPResponse {
  mediaSessionList : option (list MediaSession)
}.

(** What the function returns when it does not return null. *)
Record Playback : Type := mkPlayback {
  provider : jsstring;
  isPlaying : bool;
  trackName : jsstring;
  artist : jsstring;
  album : jsstring;
  coverUrl : jsstring;
  pb_mediaLength : option Z;
  pb_mediaProgress : option Z
}.

Definition NP_URL : jsstring :=
  lit "https://alexa.amazon.com/api/np/list-media-sessions?deviceSerialNumber=".

(** The template literal [npUrl]. *)
Definition npUrl (deviceSerial deviceType : jsstring) : jsstring :=
  NP_URL ++ deviceSerial ++ lit "&deviceType=" ++ deviceType.

(** [a || b]: the first when it is truthy. *)
Definition orElse (a : option jsstring) (b : jsstring) : jsstring :=
  match a with
  | Some s => if truthy s then s else b
  | None => b
  end.

(** [a ?? b]: the first when it is not undefined. *)
Definition nullish (a : option jsstring) (b : jsstring) : jsstring :=
  match a with
  | Some s => s
  | None => b
  end.

(** [mediumUrl || largeUrl || smallUrl || tinyUrl || fullUrl || EMPTY] on
    [mainArt?]. *)
Definition coverOf (art : option MainArt) : jsstring :=
  orElse (art ≫= mediumUrl)
    (orElse (art ≫= largeUrl)
       (orElse (art ≫= smallUrl)
          (orElse (art ≫= tinyUrl)
             (orElse (art ≫= fullUrl) [])))).

(** From [session.nowPlayingData] to the returned object. *)
Definition playbackOf (h : Host) (session : MediaSession) (np : NowPlayingData) : Playback :=
  let state := match playerState session with
               | Some st => Some st
               | None => np_playerState np
               end in
  let providerName := nullish (providerName np) [] in
  let provider := if includes (lit "spotify") (toLowerCase h providerName)
                  then lit "spotify" else lit "amazon" in
  {| provider := provider;
     isPlaying := bool_decide (state = Some (lit "PLAYING"));
     trackName := nullish (infoText np ≫= title) [];
     artist := nullish (infoText np ≫= subText1) [];
     album := nullish (infoText np ≫= subText2) [];
     coverUrl := coverOf (mainArt np);
     pb_mediaLength := progress np ≫= mediaLength;
     pb_mediaProgress := progress np ≫= mediaProgress |}.

(** The first try block: the serial number and the type of the Echo device,
    [None] where the block returns null. *)
Definition echoIdentifiers (env : Env) : M (option (jsstring * jsstring)) :=
  tryCatch
    (let* endpoints := getCustomerSmartHomeEndpoints env in
     match List.find isVoiceEnabled endpoints with
     | None => ret None
     | Some echoDevice =>
         match deviceSerialNumber echoDevice, deviceType echoDevice with
         | Some deviceSerial, Some deviceType =>
             if negb (truthy deviceSerial) || negb (truthy deviceType) then ret None
             else ret (Some (deviceSerial, deviceType))
         | _, _ => ret None
         end
     end)
    (fun _ => ret None).

(** [getAmazonMusicPlayback(env)]: null is [None]; [jsonSessions] is the
    platform's [res.json()] on this body. *)
Definition getAmazonMusicPlayback (jsonSessions : jsstring -> Exn + NPResponse) (env : Env)
    : M (option Playback) :=
  if negb (truthy (UBID_MAIN env)) || negb (truthy (AT_MAIN env)) then ret None
  else
    let* ids := echoIdentifiers env in
    match ids with
    | None => ret None
    | Some (deviceSerial, deviceType) =>
        let* h := askHost in
        let* res := fetch {| req_url := npUrl deviceSerial deviceType;
                             req_method := lit "GET";
                             req_headers := buildAlexaHeaders env None None;
                             req_body := None |} in
        if negb (res_ok res) then ret None
        else
          let* data := lift (jsonSessions (res_text res)) in
          match mediaSessionList data with
          | Some (session :: _) =>
              match nowPlayingData session with
              | Some np => ret (Some (playbackOf h session np))
              | None => ret None
              end
          | _ => ret None
          end
    end.

End NowPlaying.

(** ** src/app.ts: GET /api/status *)

Module Status.

(** A device of getAlexaDevices, as the handler reads it. *)
Record AlexaDevice : Type := mkAlexaDevice {
  ad_accountName : option jsstring;
  ad_deviceName : option jsstring;
  ad_friendlyName : option jsstring;
  ad_deviceType : option jsstring;
  ad_deviceFamily : option jsstring;
  ad_online : option bool;
  ad_serialNumber : option jsstring
}.

Record DeviceSummary : Type := mkDeviceSummary {
  ds_name : jsstring;
  ds_type : jsstring;
  ds_family : jsstring;
  ds_online : bool;
  ds_serialNumber : jsstring
}.

(** [value ? value.substring(0, 8) + DOTS : fallback] *)
Definition mask (value : option jsstring) (fallback : jsstring) : jsstring :=
  match value with
  | Some v => if truthy v then take 8 v ++ lit "..." else fallback
  | None => fallback
  end.

(** The callback of [devices.map]. *)
Definition formatDevice (device : AlexaDevice) : DeviceSummary :=
  {| ds_name :=
       NowPlaying.orElse (ad_accountName device)
         (NowPlaying.orElse (ad_deviceName device)
            (NowPlaying.orElse (ad_friendlyName device) (lit "Unknown")));
     ds_type :=
       NowPlaying.orElse (ad_deviceType device)
         (NowPlaying.orElse (ad_deviceFamily device) (lit "Unknown"));
     ds_family := NowPlaying.orElse (ad_deviceFamily device) (lit "Unknown");
     ds_online := default false (ad_online device);
     ds_serialNumber := mask (ad_serialNumber device) (lit "N/A") |}.

(** The callback of [devices.filter]. *)
Definition isOnline (device : AlexaDevice) : bool := default false (ad_online device).

Record StatusBody : Type := mkStatusBody {
  connected : bool;
  sb_error : option jsstring;
  sb_details : option jsstring;
  sb_customerId : option jsstring;
  sb_total : nat;
  sb_online : nat;
  sb_offline : nat;
  sb_list : list DeviceSummary;
  sb_endpoints : nat
}.

Definition failure (error : jsstring) (details : option jsstring) : StatusBody :=
  {| connected := false; sb_error := Some error; sb_details := details;
     sb_customerId := None; sb_total := 0; sb_online := 0; sb_offline := 0;
     sb_list := []; sb_endpoints := 0 |}.

(** The handler of GET /api/status: the status and the body, the time stamp
    left out.  [rawEnv] is [c.env]; the other three arguments are what
    getAccountInfo (its customerId), getAlexaDevices and
    getCustomerSmartHomeEndpoints of alexa-dynamic.ts give when the handler
    calls them, in this order. *)
Definition statusHandler (rawEnv : RawEnv)
    (accountInfo : Exn + jsstring)
    (alexaDevices : Exn + list AlexaDevice)
    (smartHomeEndpoints : Exn + list Endpoint) : Z * StatusBody :=
  if negb (truthyOpt (raw_UBID_MAIN rawEnv)) || negb (truthyOpt (raw_AT_MAIN rawEnv)) then
    (500%Z, failure (lit "Missing authentication credentials") None)
  else
    match accountInfo with
    | inl error =>
        let errorMessage := errorMessage error in
        if includes (lit "401") errorMessage || includes (lit "403") errorMessage then
          (401%Z,
           failure (lit "Authentication failed. Please check your cookies - they may have expired.")
             (Some errorMessage))
        else (500%Z, failure errorMessage None)
    | inr customerId =>
        let devices := match alexaDevices with inr l => l | inl _ => [] end in
        let endpoints := match smartHomeEndpoints with inr l => l | inl _ => [] end in
        let deviceList := map formatDevice devices in
        let onlineDevices := length (List.filter isOnline devices) in
        let offlineDevices := (length devices - onlineDevices)%nat in
        (200%Z,
         {| connected := true; sb_error := None; sb_details := None;
            sb_customerId := Some (mask (Some customerId) (lit "Unknown"));
            sb_total := length devices;
            sb_online := onlineDevices;
            sb_offline := offlineDevices;
            sb_list := deviceList;
            sb_endpoints := length endpoints |})
    end.

End Status.

(** * Properties *)

Import Security.

(** ** Vocabulary of the statements *)

(** *** sanitizeError *)

Definition tokens (s : jsstring) : bool := forallb isTokenChar s.

Definition headNotToken (s : jsstring) : bool :=
  match s with [] => true | c :: _ => negb (isTokenChar c) end.

(** The last code unit of [p], if there is one, is no token character. *)
Definition lastNotToken (p : jsstring) : bool := headNotToken (rev p).

(** A run that the last replace leaves alone when it is 20 long or more. *)
Definition harmless (r : jsstring) : Prop :=
  (length r < 30)%nat \/ startsWith (lit "http") r = true \/ forallb isDigit r = true.

(** The shape of what redactLongTokens gives: separators and maximal runs of
    token characters, each run harmless. *)
Inductive Clean : jsstring -> Prop :=
| Clean_nil : Clean []
| Clean_sep c l : isTokenChar c = false -> Clean l -> Clean (c :: l)
| Clean_run r l : tokens r = true -> harmless r -> headNotToken l = true ->
                  Clean l -> Clean (r ++ l).

(** What a maximal run of token characters becomes. *)
Definition flush (run : jsstring) : jsstring :=
  if (20 <=? length run)%nat then redactToken run else run.

(** *** getCsrfToken *)

(** The ways a source gives no token. *)
Inductive SourceFails : Exn + Response -> Prop :=
| NetworkFailure e : SourceFails (inl e)
| NonOkStatus r : res_ok r = false -> SourceFails (inr r)
| MissingHeader r : res_setCookie r = None -> SourceFails (inr r)
| NoCsrfCookie r c : res_setCookie r = Some c -> matchCsrf c = None -> SourceFails (inr r)
| PlaceholderValue r c :
    res_setCookie r = Some c -> matchCsrf c = Some (lit "1") -> SourceFails (inr r).

(** The one way it gives the token [v]. *)
Inductive SourceYields (v : jsstring) : Exn + Response -> Prop :=
| RealToken r c :
    res_ok r = true -> res_setCookie r = Some c -> matchCsrf c = Some v ->
    v <> lit "1" -> SourceYields v (inr r).

(** The two probes, in the order of the code, the trace after each, and
    what the host answers to each. *)
Definition firstProbe (env : Env) : Request := csrfProbe env HANDLEBARS_URL.
Definition secondProbe (env : Env) : Request := csrfProbe env DEVICES_V2_URL.

Definition afterFirst (env : Env) (tr : list Event) : list Event :=
  tr ++ [Fetch (firstProbe env)].
Definition afterSecond (env : Env) (tr : list Event) : list Event :=
  afterFirst env tr ++ [Fetch (secondProbe env)].

Definition firstAnswer (h : Host) (env : Env) (tr : list Event) : Exn + Response :=
  fetchResult h tr (firstProbe env).
Definition secondAnswer (h : Host) (env : Env) (tr : list Event) : Exn + Response :=
  fetchResult h (afterFirst env tr) (secondProbe env).

(** *** Traces *)

Definition isLightCheck (ev : Event) : bool :=
  match ev with
  | GetPrimaryLight _ => true
  | Fetch r => bool_decide (req_url r = ALEXA_ENDPOINT)
  | GetCustomerSmartHomeEndpoints _ => false
  end.

Definition isPreviewPost (ev : Event) : bool :=
  match ev with
  | Fetch r => bool_decide (req_url r = PREVIEW_URL)
  | _ => false
  end.

(** [Emits P m]: whatever the host and the trace so far, [m] only appends
    events that satisfy [P]. *)
Definition Emits {A} (P : Event -> Prop) (m : M A) : Prop :=
  forall h tr, exists evs, fst (m h tr) = tr ++ evs /\ Forall P evs.

(** [Returns m]: [m] never throws. *)
Definition Returns {A} (m : M A) : Prop :=
  forall h tr, exists a, snd (m h tr) = inr a.

(** [Starts ev m]: the first thing [m] does to the outside is [ev]. *)
Definition Starts {A} (ev : Event) (m : M A) : Prop :=
  forall h tr, exists evs, fst (m h tr) = tr ++ ev :: evs.

(** [command], serialized, is what [ev] posts to behaviors/preview. *)
Definition isPreviewPostOf (command : json) (ev : Event) : Prop :=
  exists headers,
    ev = Fetch {| req_url := PREVIEW_URL; req_method := lit "POST";
                  req_headers := headers; req_body := Some (stringify command) |}.

(** *** isAnyLightOn *)

Definition STATE_REQUEST_PREFIX : jsstring :=
  lit "{" ++ quoted "stateRequests" ++ lit ":[{" ++ quoted "entityId" ++ lit ":".

Definition STATE_REQUEST_SUFFIX : jsstring :=
  lit "," ++ quoted "entityType" ++ lit ":" ++ quoted "APPLIANCE"
  ++ lit "," ++ quoted "properties" ++ lit ":[{" ++ quoted "namespace" ++ lit ":"
  ++ quoted "Alexa.PowerController" ++ lit "," ++ quoted "name" ++ lit ":"
  ++ quoted "powerState" ++ lit "}]}]}".

(** The one request of the light check, for the entity [entityId]: the
    power state of that appliance is asked of the phoenix state endpoint. *)
Definition stateRequest (env : Env) (entityId : jsstring) : Request :=
  {| req_url := lit "https://alexa.amazon.com/api/phoenix/state";
     req_method := lit "POST";
     req_headers :=
       buildAlexaHeaders env
         (Some {[ lit "Content-Type" := lit "application/json; charset=utf-8" ]}) None;
     req_body :=
       Some (STATE_REQUEST_PREFIX ++ quoteJSONString entityId ++ STATE_REQUEST_SUFFIX) |}.

Definition isPowerController (cap : PowerStateCapability) : Prop :=
  cap_namespace cap = Some (lit "Alexa.PowerController")
  /\ cap_name cap = Some (lit "powerState").

(** What the capability states of a device state say of its power, read
    from left to right: a state that does not parse is skipped, and so is
    one that is not the power state; the first power state decides, on
    exactly when its value is the string ON; a state that parses to null
    before it leaves the question open (reading its namespace throws), and
    so does the end of the list. *)
Inductive PowerReport (h : Host) : list jsstring -> option bool -> Prop :=
| report_end : PowerReport h [] None
| report_unparsed raw raws e v :
    jsonCapability h raw = inl e -> PowerReport h raws v -> PowerReport h (raw :: raws) v
| report_null raw raws :
    jsonCapability h raw = inr None -> PowerReport h (raw :: raws) None
| report_other raw raws cap v :
    jsonCapability h raw = inr (Some cap) -> ~ isPowerController cap ->
    PowerReport h raws v -> PowerReport h (raw :: raws) v
| report_power raw raws cap :
    jsonCapability h raw = inr (Some cap) -> isPowerController cap ->
    PowerReport h (raw :: raws) (Some (bool_decide (cap_value cap = Some (lit "ON")))).

(** The light check with the credentials there, path by path: what it does
    to the outside after the trace [tr] and the verdict it gives, null
    being [None].  It asks the directory for the primary light, then the
    phoenix state endpoint for the power state of that light, and reads the
    first device state of the answer. *)
Inductive LightCheck (h : Host) (env : Env) (tr : list Event)
    : list Event -> option bool -> Prop :=
| check_no_light e :
    primaryLight h tr env = inl e ->
    LightCheck h env tr [GetPrimaryLight env] None
| check_no_entity light e :
    primaryLight h tr env = inr light -> extractEntityId h light = inl e ->
    LightCheck h env tr [GetPrimaryLight env] None
| check_fetch_failed light entityId e :
    primaryLight h tr env = inr light -> extractEntityId h light = inr entityId ->
    fetchResult h (tr ++ [GetPrimaryLight env]) (stateRequest env entityId) = inl e ->
    LightCheck h env tr [GetPrimaryLight env; Fetch (stateRequest env entityId)] None
| check_not_ok light entityId res :
    primaryLight h tr env = inr light -> extractEntityId h light = inr entityId ->
    fetchResult h (tr ++ [GetPrimaryLight env]) (stateRequest env entityId) = inr res ->
    res_ok res = false ->
    LightCheck h env tr [GetPrimaryLight env; Fetch (stateRequest env entityId)] None
| check_no_body light entityId res e :
    primaryLight h tr env = inr light -> extractEntityId h light = inr entityId ->
    fetchResult h (tr ++ [GetPrimaryLight env]) (stateRequest env entityId) = inr res ->
    res_ok res = true -> jsonStateResponse h (res_text res) = inl e ->
    LightCheck h env tr [GetPrimaryLight env; Fetch (stateRequest env entityId)] None
| check_no_state light entityId res data :
    primaryLight h tr env = inr light -> extractEntityId h light = inr entityId ->
    fetchResult h (tr ++ [GetPrimaryLight env]) (stateRequest env entityId) = inr res ->
    res_ok res = true -> jsonStateResponse h (res_text res) = inr data ->
    deviceStates data = None \/ deviceStates data = Some [] ->
    LightCheck h env tr [GetPrimaryLight env; Fetch (stateRequest env entityId)] None
| check_state light entityId res data first others verdict :
    primaryLight h tr env = inr light -> extractEntityId h light = inr entityId ->
    fetchResult h (tr ++ [GetPrimaryLight env]) (stateRequest env entityId) = inr res ->
    res_ok res = true -> jsonStateResponse h (res_text res) = inr data ->
    deviceStates data = Some (first :: others) ->
    PowerReport h (capabilityStates first) verdict ->
    LightCheck h env tr [GetPrimaryLight env; Fetch (stateRequest env entityId)] verdict.

(** A capability state that the light check passes over: it does not parse,
    or it parses to a capability that is not the power state. *)
Definition skippedState (h : Host) (raw : jsstring) : Prop :=
  (exists e, jsonCapability h raw = inl e)
  \/ (exists cap, jsonCapability h raw = inr (Some cap) /\ ~ isPowerController cap).

(** *** getAmazonMusicPlayback *)

(** The endpoint carries both legacy identifiers, [sn] and [dt], and
    neither is the empty string. *)
Definition usableEcho (echo : Endpoint) (sn dt : jsstring) : Prop :=
  deviceSerialNumber echo = Some sn /\ deviceType echo = Some dt /\ sn <> [] /\ dt <> [].

(** *** announceHandler *)

(** A property as the code types it: a string, or null, or not there. *)
Definition stringOrAbsent (f : Field) : Prop :=
  match f with
  | FOther _ => False
  | _ => True
  end.

(** The body as the code types it, [{ name?: string; message?: string;
    ssml?: string }]. *)
Definition wellTyped (parsed : AnnounceBody) : Prop :=
  stringOrAbsent (name parsed) /\ stringOrAbsent (message parsed)
  /\ stringOrAbsent (ssml parsed).

(** The trimmed name of a well-typed body. *)
Definition trimmedName (parsed : AnnounceBody) : jsstring :=
  trim (default [] (stringOf (name parsed))).

(** The text to speak of a well-typed body: the trimmed ssml when that is
    not empty, the trimmed message otherwise. *)
Definition textToSpeak (parsed : AnnounceBody) : jsstring :=
  let fromSsml := default [] (trim <$> stringOf (ssml parsed)) in
  if truthy fromSsml then fromSsml
  else default [] (trim <$> stringOf (message parsed)).

(** A request that passes the input limits. *)
Definition validRequest (parsed : AnnounceBody) : Prop :=
  wellTyped parsed
  /\ trimmedName parsed <> [] /\ textToSpeak parsed <> []
  /\ (length (trimmedName parsed) <= 40)%nat /\ (length (textToSpeak parsed) <= 500)%nat.

(** The time zone of the handler: TZ when it is set and not empty,
    America/New_York otherwise. *)
Definition configuredTimeZone (env : Env) (tz : jsstring) : Prop :=
  (TZ env = Some tz /\ tz <> [])
  \/ ((TZ env = None \/ TZ env = Some []) /\ tz = lit "America/New_York").

(** The answer of the night gate. *)
Definition forbidden : HttpResult :=
  {| http_status := 403;
     http_error := Some (lit "All lights are off " ++ [8211] ++
                         lit " announcement suppressed for night time.");
     http_details := None |}.

(** The text to speak as the spec words it: the ssml field when present,
    otherwise the message field. *)
Definition specTextToSpeak (parsed : AnnounceBody) : jsstring :=
  match ssml parsed with
  | FString s => trim s
  | _ => default [] (trim <$> stringOf (message parsed))
  end.

(** *** resolvePrimaryVoiceDevice *)

(** A legacy identifier is lacking when it is undefined or empty. *)
Definition lacksLegacyIds (e : Endpoint) : Prop :=
  truthyOpt (deviceType e) = false \/ truthyOpt (deviceSerialNumber e) = false.

(** *** The behavior sequence *)

(** Reading a field of the operation payload of an operation node. *)
Definition operationPayloadField (k : jsstring) (node : json) : option json :=
  match field (lit "operationPayload") node with
  | Some payload => field k payload
  | None => None
  end.

Definition swapQuote (c : N) : N := if c =? DQUOTE then SQUOTE else c.

Definition SEQUENCE_TYPE : jsstring := lit "com.amazon.alexa.behaviors.model.Sequence".
Definition PARALLEL_TYPE : jsstring := lit "com.amazon.alexa.behaviors.model.ParallelNode".

(** The serialized sequence around the serialized operation node. *)
Definition SEQUENCE_PREFIX : jsstring :=
  lit "{" ++ quoted "@type" ++ lit ":" ++ quoted "com.amazon.alexa.behaviors.model.Sequence"
  ++ lit "," ++ quoted "startNode" ++ lit ":{" ++ quoted "@type" ++ lit ":"
  ++ quoted "com.amazon.alexa.behaviors.model.ParallelNode"
  ++ lit "," ++ quoted "nodesToExecute" ++ lit ":[".

Definition SEQUENCE_SUFFIX : jsstring := lit "]}}".

(** [sequence] is a Sequence whose start node is a ParallelNode that
    executes [node] and nothing else. *)
Definition nestsTwoLevels (sequence node : json) : Prop :=
  field (lit "@type") sequence = Some (JStr SEQUENCE_TYPE)
  /\ exists startNode,
       field (lit "startNode") sequence = Some startNode
       /\ field (lit "@type") startNode = Some (JStr PARALLEL_TYPE)
       /\ field (lit "nodesToExecute") startNode = Some (JArr [node]).

(** The envelope around a serialized sequence. *)
Definition previewEnvelope (sequenceJson : jsstring) : json :=
  JObj [(lit "behaviorId", JStr (lit "PREVIEW"));
        (lit "sequenceJson", JStr sequenceJson);
        (lit "status", JStr (lit "ENABLED"))].

(** *** The csrf cookie *)

(** [csrf=] stands in [s] right after [pre] and is followed by the value
    [v]: not empty, without a semicolon, and reaching to a semicolon or to
    the end of [s]. *)
Definition csrfValueAt (s pre v : jsstring) : Prop :=
  exists rest,
    s = pre ++ lit "csrf=" ++ v ++ rest
    /\ v <> []
    /\ forallb (fun c => negb (c =? 59)) v = true
    /\ match rest with [] => True | c :: _ => c = 59 end.

(** *** What the music handlers post *)

(** The operation node of a text command, as it goes out. *)
Definition textCommandNode (deviceType deviceSerialNumber customerId text : jsstring) : json :=
  JObj [(lit "@type", JStr (lit "com.amazon.alexa.behaviors.model.OpaquePayloadOperationNode"));
        (lit "type", JStr (lit "Alexa.TextCommand"));
        (lit "operationPayload",
         JObj [(lit "deviceType", JStr deviceType);
               (lit "deviceSerialNumber", JStr deviceSerialNumber);
               (lit "customerId", JStr customerId);
               (lit "locale", JStr (lit "en-US"));
               (lit "skillId", JStr (lit "amzn1.ask.1p.tellalexa"));
               (lit "text", JStr text)])].

(** The operation node of a music search, as it goes out. *)
Definition playSearchPhraseNode
    (deviceType deviceSerialNumber customerId provider searchPhrase : jsstring) : json :=
  JObj [(lit "@type", JStr (lit "com.amazon.alexa.behaviors.model.OpaquePayloadOperationNode"));
        (lit "type", JStr (lit "Alexa.Music.PlaySearchPhrase"));
        (lit "operationPayload",
         JObj [(lit "deviceType", JStr deviceType);
               (lit "deviceSerialNumber", JStr deviceSerialNumber);
               (lit "customerId", JStr customerId);
               (lit "locale", JStr (lit "en-US"));
               (lit "musicProviderId", JStr provider);
               (lit "searchPhrase", JStr searchPhrase)])].

(** The request that carries [node] to behaviors/preview: a POST of the
    envelope around the serialized sequence that holds the node alone. *)
Definition previewPost (headers : gmap jsstring jsstring) (node : json) : Request :=
  {| req_url := lit "https://alexa.amazon.com/api/behaviors/preview";
     req_method := lit "POST";
     req_headers := headers;
     req_body :=
       Some (stringify
               (previewEnvelope (SEQUENCE_PREFIX ++ stringify node ++ SEQUENCE_SUFFIX))) |}.

(** The endpoints of the music handlers: the two probes for the csrf
    token, the customer id and the preview of a behavior.  The playback
    endpoint /api/np/command is not among them. *)
Definition MUSIC_ENDPOINTS : list jsstring :=
  [lit "https://alexa.amazon.com/api/handlebars";
   lit "https://alexa.amazon.com/api/devices-v2/device";
   lit "https://alexa.amazon.com/api/users/me";
   lit "https://alexa.amazon.com/api/behaviors/preview"].

(** [ev], when it is a fetch, goes to one of [urls]. *)
Definition fetchesOnly (urls : list jsstring) (ev : Event) : bool :=
  match ev with
  | Fetch r => bool_decide (req_url r ∈ urls)
  | _ => true
  end.

(** ** Sample inputs *)

(** A host with no network: every fetch fails; it is noon. *)
Definition offlineHost : Host :=
  {| fetchResult := fun _ _ => inl (Error (lit "fetch failed"));
     customerSmartHomeEndpoints := fun _ _ => inr [];
     primaryLight := fun _ _ => inl NonError;
     extractEntityId := fun _ => inl NonError;
     hourIn := fun _ => inr 12%Z;
     isUrl := fun _ => true;
     toLowerCase := fun s => s;
     toUpperCase := fun s => s;
     jsonUsersMe := fun _ => inl NonError;
     jsonStateResponse := fun _ => inl NonError;
     jsonCapability := fun _ => inl NonError;
     zodErrorMessage := fun _ => lit "Required";
     nativeErrorMessage := fun expression => expression ++ lit " is not a function" |}.

Definition okResponse : Response :=
  {| res_status := 200; res_setCookie := None; res_text := lit "{}" |}.

Definition cookieResponse : Response :=
  {| res_status := 200;
     res_setCookie := Some (lit "session-id=1; csrf=-1234567; Path=/");
     res_text := lit "{}" |}.

Definition errorResponse : Response :=
  {| res_status := 500; res_setCookie := None; res_text := [] |}.

Definition lightEndpoint : Endpoint :=
  {| primaryCategory := Some (lit "LIGHT"); deviceType := None;
     deviceSerialNumber := None; friendlyName := Some (lit "Lamp") |}.

Definition otherEndpoint : Endpoint :=
  {| primaryCategory := Some (lit "OTHER"); deviceType := Some (lit "T0");
     deviceSerialNumber := Some (lit "S0"); friendlyName := None |}.

Definition voiceEndpoint : Endpoint :=
  {| primaryCategory := Some (lit "ALEXA_VOICE_ENABLED"); deviceType := Some (lit "T1");
     deviceSerialNumber := Some (lit "S1"); friendlyName := None |}.

Definition voiceDevice : VoiceDevice :=
  {| echoDevice := voiceEndpoint; vd_deviceType := lit "T1";
     vd_deviceSerialNumber := lit "S1" |}.

(** A host that answers every fetch with [response], at the hour [hour],
    with one light whose power state is [power]. *)
Definition sampleHost (response : Response) (hour : Z) (power : jsstring) : Host :=
  {| fetchResult := fun _ _ => inr response;
     customerSmartHomeEndpoints := fun _ _ => inr [otherEndpoint; voiceEndpoint];
     primaryLight := fun _ _ => inr lightEndpoint;
     extractEntityId := fun _ => inr (lit "light-1");
     hourIn := fun _ => inr hour;
     isUrl := fun _ => true;
     toLowerCase := fun s => s;
     toUpperCase := fun s => s;
     jsonUsersMe := fun _ => inr {| id := Some (lit "A1CUSTOMER") |};
     jsonStateResponse :=
       fun _ => inr {| deviceStates := Some [ {| capabilityStates := [lit "state"] |} ] |};
     jsonCapability :=
       fun _ => inr (Some {| cap_namespace := Some (lit "Alexa.PowerController");
                             cap_name := Some (lit "powerState");
                             cap_value := Some power |});
     zodErrorMessage := fun _ => lit "Required";
     nativeErrorMessage := fun expression => expression ++ lit " is not a function" |}.

Definition tokenHost : Host := sampleHost cookieResponse 12 (lit "ON").
Definition brokenHost : Host := sampleHost errorResponse 12 (lit "ON").
Definition onlineHost : Host := sampleHost okResponse 12 (lit "ON").
Definition nightHost : Host := sampleHost okResponse 23 (lit "OFF").

Definition sampleRawEnv : RawEnv :=
  {| raw_UBID_MAIN := Some (lit "133-1234567-1234567");
     raw_AT_MAIN := Some (lit "Atza|token");
     raw_COOKIE_SUFFIX := None; raw_API_KEY := None;
     raw_API_BASE := Some (lit "http://localhost:8787");
     raw_TZ := None; raw_SPOTIFY_TOKEN := None; raw_SPOTIFY_CLIENT_ID := None;
     raw_SPOTIFY_CLIENT_SECRET := None; raw_SPOTIFY_REFRESH_TOKEN := None |}.

Definition sampleEnv : Env :=
  {| UBID_MAIN := lit "133-1234567-1234567";
     AT_MAIN := lit "Atza|token";
     COOKIE_SUFFIX := None; API_KEY := None;
     API_BASE := lit "http://localhost:8787";
     TZ := None; SPOTIFY_TOKEN := None; SPOTIFY_CLIENT_ID := None;
     SPOTIFY_CLIENT_SECRET := None; SPOTIFY_REFRESH_TOKEN := None |}.

Definition blankSsmlBody : AnnounceBody :=
  {| name := FString (lit "Kitchen"); message := FString (lit "Dinner is ready");
     ssml := FString (lit " ") |}.

Definition sampleBody : AnnounceBody :=
  {| name := FString (lit "Kitchen"); message := FString (lit "Dinner is ready");
     ssml := FAbsent |}.

Definition namelessBody : AnnounceBody :=
  {| name := FString (lit "  "); message := FString (lit "Dinner is ready");
     ssml := FAbsent |}.

Definition overrideHeaders : gmap jsstring jsstring :=
  {[ lit "csrf" := lit "override" ]}.

(** The two try blocks of musicControlHandler on the sample host. *)
Definition pauseDeviceRun : list Event * (Exn + (HttpResult + VoiceDevice)) :=
  Music.orServerError (lit "Failed to get device information")
    (Music.resolveEcho sampleEnv) onlineHost [].

Definition pauseCustomerRun : list Event * (Exn + (HttpResult + jsstring)) :=
  Music.orServerError (lit "Failed to get customer ID")
    (fetchCustomerId sampleEnv) onlineHost (fst pauseDeviceRun).

Definition longToken : jsstring := lit "ABCDEFGHIJKLMNOPQRSTUVWXYZabcdef".

Definition sampleAccount : DirectoryCache.AccountInfo :=
  {| DirectoryCache.customerId := lit "A1CUSTOMER" |}.

Definition sampleUpstream : DirectoryCache.Upstream :=
  {| DirectoryCache.up_accountInfo := fun _ => inr sampleAccount;
     DirectoryCache.up_endpoints := fun _ => inr [voiceEndpoint];
     DirectoryCache.up_devices := fun _ => inr [] |}.

Definition warmDirectory : DirectoryCache.Directory :=
  {| DirectoryCache.accountSlot := Some (DirectoryCache.mkEntry sampleAccount 0);
     DirectoryCache.endpointSlot := None;
     DirectoryCache.deviceSlot := None;
     DirectoryCache.upstreamCalls := [DirectoryCache.AccountInfoRead] |}.

(** *** The directory cache *)

(** The policy of one cached read [read], whose slot is [slotOf], whose
    upstream fetch is [fetchOf] and whose tag in the log is [tag]. *)
Definition TtlPolicy {V} (read : DirectoryCache.Upstream -> Z -> DirectoryCache.Directory ->
                                 DirectoryCache.Directory * (Exn + V))
    (slotOf : DirectoryCache.Directory -> option (DirectoryCache.Entry V))
    (fetchOf : DirectoryCache.Upstream -> list DirectoryCache.Resource -> Exn + V)
    (tag : DirectoryCache.Resource) : Prop :=
  forall up d,
    (* two reads within the window: the cached value twice, nothing fetched *)
    (forall e now1 now2,
        slotOf d = Some e ->
        (now1 - DirectoryCache.fetchedAt e <= DirectoryCache.TTL)%Z ->
        (now2 - DirectoryCache.fetchedAt e <= DirectoryCache.TTL)%Z ->
        let r1 := read up now1 d in
        let r2 := read up now2 (fst r1) in
        snd r1 = inr (DirectoryCache.value e) /\ snd r2 = inr (DirectoryCache.value e)
        /\ fst r2 = d)
    (* a read after expiry: one fetch, its result, and a new time stamp *)
    /\ (forall e now,
          slotOf d = Some e ->
          (DirectoryCache.TTL < now - DirectoryCache.fetchedAt e)%Z ->
          let r := read up now d in
          DirectoryCache.upstreamCalls (fst r) = DirectoryCache.upstreamCalls d ++ [tag]
          /\ snd r = fetchOf up (DirectoryCache.upstreamCalls d)
          /\ (forall v, fetchOf up (DirectoryCache.upstreamCalls d) = inr v ->
                        slotOf (fst r) = Some (DirectoryCache.mkEntry v now)))
    (* the first read *)
    /\ (forall now,
          slotOf d = None ->
          let r := read up now d in
          DirectoryCache.upstreamCalls (fst r) = DirectoryCache.upstreamCalls d ++ [tag]
          /\ snd r = fetchOf up (DirectoryCache.upstreamCalls d)
          /\ (forall v, fetchOf up (DirectoryCache.upstreamCalls d) = inr v ->
                        slotOf (fst r) = Some (DirectoryCache.mkEntry v now))).

(** *** getAmazonMusicPlayback *)

(** The five candidates of the cover, in the order of the code. *)
Definition coverCandidates (art : option NowPlaying.MainArt) : list (option jsstring) :=
  [art ≫= NowPlaying.mediumUrl; art ≫= NowPlaying.largeUrl; art ≫= NowPlaying.smallUrl;
   art ≫= NowPlaying.tinyUrl; art ≫= NowPlaying.fullUrl].

(** The one request of getAmazonMusicPlayback. *)
Definition nowPlayingRequest (env : Env) (deviceSerial deviceType : jsstring) : Request :=
  {| req_url := NowPlaying.npUrl deviceSerial deviceType;
     req_method := lit "GET";
     req_headers := buildAlexaHeaders env None None;
     req_body := None |}.

Definition sampleSession : NowPlaying.MediaSession :=
  {| NowPlaying.nowPlayingData :=
       Some {| NowPlaying.infoText :=
                 Some {| NowPlaying.title := Some (lit "So What");
                         NowPlaying.subText1 := Some (lit "Miles Davis");
                         NowPlaying.subText2 := None |};
               NowPlaying.mainArt :=
                 Some {| NowPlaying.mediumUrl := Some [];
                         NowPlaying.largeUrl := None;
                         NowPlaying.smallUrl := Some (lit "https://img/small.jpg");
                         NowPlaying.tinyUrl := Some (lit "https://img/tiny.jpg");
                         NowPlaying.fullUrl := None |};
               NowPlaying.np_playerState := Some (lit "PLAYING");
               NowPlaying.progress := None;
               NowPlaying.providerName := Some (lit "my spotify") |};
     NowPlaying.playerState := Some [] |}.

Definition sampleSessions (body : jsstring) : Exn + NowPlaying.NPResponse :=
  inr {| NowPlaying.mediaSessionList := Some [sampleSession] |}.

(** *** Where the requests go *)

(** [ev], when it is a call of fetch, goes to the API of alexa.amazon.com.
    The calls into alexa-dynamic.ts are events of their own: what they
    request is not in these sources, and nothing is said of it. *)
Definition fetchToAlexa (ev : Event) : bool :=
  match ev with
  | Fetch r => startsWith (lit "https://alexa.amazon.com/api/") (req_url r)
  | _ => true
  end.

(** [Answers Q m]: whatever [m] returns satisfies [Q]. *)
Definition Answers {A} (Q : A -> Prop) (m : M A) : Prop :=
  forall h tr a, snd (m h tr) = inr a -> Q a.

(** [PostsOnSuccess m]: [m] answers 200 only when its last event is a
    request to behaviors/preview that the host answered OK. *)
Definition PostsOnSuccess (m : M HttpResult) : Prop :=
  forall h tr resp,
    snd (m h tr) = inr resp -> http_status resp = 200%Z ->
    exists evs req res,
      fst (m h tr) = tr ++ evs ++ [Fetch req]
      /\ req_url req = PREVIEW_URL
      /\ fetchResult h (tr ++ evs) req = inr res
      /\ res_ok res = true.

Definition MISSING_CREDENTIALS : jsstring :=
  lit "Missing UBID_MAIN or AT_MAIN in environment.".

(** An early answer, when there is one, is not the missing-credentials one. *)
Definition earlyAnswerOk {A} (x : HttpResult + A) : Prop :=
  match x with
  | inl r => http_error r <> Some MISSING_CREDENTIALS
  | inr _ => True
  end.

(** An early answer, when there is one, is not a success. *)
Definition earlyAnswerFails {A} (info : HttpResult + A) : Prop :=
  match info with
  | inl response => http_status response <> 200%Z
  | inr _ => True
  end.

(** *** The status handler *)

(** Both credentials of the raw environment are there and not empty. *)
Definition hasCredentials (rawEnv : RawEnv) : Prop :=
  truthyOpt (raw_UBID_MAIN rawEnv) = true /\ truthyOpt (raw_AT_MAIN rawEnv) = true.

Definition sampleDevices : list Status.AlexaDevice :=
  [ {| Status.ad_accountName := Some (lit "Kitchen"); Status.ad_deviceName := None;
       Status.ad_friendlyName := None; Status.ad_deviceType := Some (lit "T1");
       Status.ad_deviceFamily := Some (lit "ECHO"); Status.ad_online := Some true;
       Status.ad_serialNumber := Some (lit "G090LF1234567890") |};
    {| Status.ad_accountName := None; Status.ad_deviceName := None;
       Status.ad_friendlyName := None; Status.ad_deviceType := None;
       Status.ad_deviceFamily := None; Status.ad_online := None;
       Status.ad_serialNumber := Some (lit "SHORT") |} ].

(** *** The device information *)

(** A device the handlers can address: voice-enabled, with both legacy
    identifiers, neither of them empty. *)
Definition usableDevice (device : VoiceDevice) : Prop :=
  isVoiceEnabled (echoDevice device) = true
  /\ deviceType (echoDevice device) = Some (vd_deviceType device)
  /\ deviceSerialNumber (echoDevice device) = Some (vd_deviceSerialNumber device)
  /\ vd_deviceType device <> []
  /\ vd_deviceSerialNumber device <> [].

Definition usableDeviceInfo (info : jsstring * VoiceDevice) : Prop :=
  fst info <> [] /\ usableDevice (snd info).

(** *** The validation of the environment *)

(** The answer to an environment that does not validate: the details are
    the message of the ZodError. *)
Definition environmentFailure (h : Host) (rawEnv : RawEnv) : HttpResult :=
  {| http_status := 500; http_error := Some (lit "Environment validation failed");
     http_details := Some (zodErrorMessage h rawEnv) |}.

(** A raw environment without API_BASE, the credentials being there. *)
Definition baselessRawEnv : RawEnv :=
  {| raw_UBID_MAIN := Some (lit "133-1234567-1234567");
     raw_AT_MAIN := Some (lit "Atza|token");
     raw_COOKIE_SUFFIX := None; raw_API_KEY := None;
     raw_API_BASE := None;
     raw_TZ := None; raw_SPOTIFY_TOKEN := None; raw_SPOTIFY_CLIENT_ID := None;
     raw_SPOTIFY_CLIENT_SECRET := None; raw_SPOTIFY_REFRESH_TOKEN := None |}.

(** ** Proofs *)

(** *** The runtime *)

Lemma matchCsrf_nil : matchCsrf [] = None.
Proof. reflexivity. Qed.

Lemma matchCsrf_truthy c v : matchCsrf c = Some v -> truthy v = true.
Proof.
  induction c as [|a c IH]; [discriminate|].
  cbn [matchCsrf]. destruct (stripPrefix N.eqb (lit "csrf=") (a :: c)) as [rest|]; [|exact IH].
  destruct (takeWhile _ rest) as [|d t] eqn:E; [exact IH|].
  intros [= <-]. reflexivity.
Qed.

Lemma csrfFromSource_yields env url h tr v :
  SourceYields v (fetchResult h tr (csrfProbe env url)) ->
  csrfFromSource env url h tr = (tr ++ [Fetch (csrfProbe env url)], inr (Some v)).
Proof.
  intros Hy. unfold csrfFromSource, bind, fetch.
  inversion Hy as [r c Hok Hc Hm Hv Heq]. 
  rewrite Hok, Hc, Hm.
  assert (Ht : truthy c = true).
  { destruct c; [discriminate|reflexivity]. }
  rewrite Ht, (matchCsrf_truthy _ _ Hm).
  rewrite bool_decide_eq_false_2 by exact Hv. reflexivity.
Qed.

Lemma csrfFromSource_fails env url h tr :
  SourceFails (fetchResult h tr (csrfProbe env url)) ->
  tryCatch (csrfFromSource env url) (fun _ => ret None) h tr
  = (tr ++ [Fetch (csrfProbe env url)], inr None).
Proof.
  intros Hf. unfold tryCatch, csrfFromSource, bind, fetch, ret.
  inversion Hf as [e He|r Hok Hr|r Hc Hr|r c Hc Hm Hr|r c Hc Hm Hr]; [reflexivity|..].
  - now rewrite Hok.
  - rewrite Hc. now destruct (res_ok r).
  - rewrite Hc, Hm. destruct (res_ok r); [|reflexivity]. now destruct (truthy c).
  - rewrite Hc, Hm. destruct (res_ok r); [|reflexivity]. now destruct (truthy c).
Qed.

Lemma source_decides a : SourceFails a \/ exists v, SourceYields v a.
Proof.
  destruct a as [e|r]; [left; constructor|].
  destruct (res_ok r) eqn:Hok; [|left; now constructor].
  destruct (res_setCookie r) as [c|] eqn:Hc; [|left; now apply MissingHeader].
  destruct (matchCsrf c) as [v|] eqn:Hm; [|left; now apply (NoCsrfCookie r c)].
  destruct (decide (v = lit "1")) as [->|Hv].
  - left. now apply (PlaceholderValue r c).
  - right. exists v. now apply (RealToken v r c).
Qed.

Lemma bind_returns {A B} (m : M A) (k : A -> M B) h tr tr' a :
  m h tr = (tr', inr a) -> bind m k h tr = k a h tr'.
Proof. intros H. unfold bind. now rewrite H. Qed.

Lemma bind_throws {A B} (m : M A) (k : A -> M B) h tr tr' e :
  m h tr = (tr', inl e) -> bind m k h tr = (tr', inl e).
Proof. intros H. unfold bind. now rewrite H. Qed.

Lemma tryCatch_returns {A} (m : M A) handler h tr tr' a :
  m h tr = (tr', inr a) -> tryCatch m handler h tr = (tr', inr a).
Proof. intros H. unfold tryCatch. now rewrite H. Qed.

Lemma getCsrfToken_first h env tr v :
  SourceYields v (firstAnswer h env tr) ->
  getCsrfToken env h tr = (afterFirst env tr, inr v).
Proof.
  intros Hy. unfold getCsrfToken.
  erewrite bind_returns
    by (apply tryCatch_returns; apply csrfFromSource_yields; exact Hy).
  reflexivity.
Qed.

Lemma getCsrfToken_second h env tr v :
  SourceFails (firstAnswer h env tr) -> SourceYields v (secondAnswer h env tr) ->
  getCsrfToken env h tr = (afterSecond env tr, inr v).
Proof.
  intros Hf Hy. unfold getCsrfToken.
  erewrite bind_returns by (apply csrfFromSource_fails; exact Hf).
  cbv beta iota.
  erewrite bind_returns
    by (apply tryCatch_returns; apply csrfFromSource_yields; exact Hy).
  reflexivity.
Qed.

Lemma getCsrfToken_sentinel h env tr :
  SourceFails (firstAnswer h env tr) -> SourceFails (secondAnswer h env tr) ->
  getCsrfToken env h tr = (afterSecond env tr, inr (lit "1")).
Proof.
  intros Hf1 Hf2. unfold getCsrfToken.
  erewrite bind_returns by (apply csrfFromSource_fails; exact Hf1).
  cbv beta iota.
  erewrite bind_returns by (apply csrfFromSource_fails; exact Hf2).
  reflexivity.
Qed.

(** Total: a token comes back, after one or two probes. *)
Lemma getCsrfToken_total h env tr :
  exists v, getCsrfToken env h tr = (afterFirst env tr, inr v)
            \/ getCsrfToken env h tr = (afterSecond env tr, inr v).
Proof.
  destruct (source_decides (firstAnswer h env tr)) as [Hf1|[v Hy1]].
  - destruct (source_decides (secondAnswer h env tr)) as [Hf2|[v Hy2]].
    + exists (lit "1"). right. now apply getCsrfToken_sentinel.
    + exists v. right. now apply getCsrfToken_second.
  - exists v. left. now apply getCsrfToken_first.
Qed.

Lemma status_500_fails r : res_status r = 500%Z -> SourceFails (inr r).
Proof. intros H. apply NonOkStatus. unfold res_ok. now rewrite H. Qed.

(** C2.  getCsrfToken asks the handlebars endpoint first and the device
    listing second.  A value other than 1 from the first source is returned
    and the second source is not contacted; when the first source fails (a
    network failure, a status that is not OK, no Set-Cookie header, no csrf
    cookie in it, or the value 1) the second source is asked, and its value
    is returned if it gives one; with both exhausted the result is the
    sentinel 1.  The function always returns, never throws; in particular
    two answers with status 500 give 1.  The first probe goes to
    /api/handlebars, the second to /api/devices-v2/device. *)
Theorem getCsrfToken_two_source_chain (h : Host) (env : Env) (tr : list Event) :
  (forall v, SourceYields v (firstAnswer h env tr) ->
             getCsrfToken env h tr = (afterFirst env tr, inr v))
  /\ (forall v, SourceFails (firstAnswer h env tr) ->
                SourceYields v (secondAnswer h env tr) ->
                getCsrfToken env h tr = (afterSecond env tr, inr v))
  /\ (SourceFails (firstAnswer h env tr) -> SourceFails (secondAnswer h env tr) ->
      getCsrfToken env h tr = (afterSecond env tr, inr (lit "1")))
  /\ (exists v, getCsrfToken env h tr = (afterFirst env tr, inr v)
                \/ getCsrfToken env h tr = (afterSecond env tr, inr v))
  /\ (forall r1 r2,
        firstAnswer h env tr = inr r1 -> secondAnswer h env tr = inr r2 ->
        res_status r1 = 500%Z -> res_status r2 = 500%Z ->
        getCsrfToken env h tr = (afterSecond env tr, inr (lit "1")))
  /\ req_url (firstProbe env) = lit "https://alexa.amazon.com/api/handlebars"
  /\ req_url (secondProbe env) = lit "https://alexa.amazon.com/api/devices-v2/device".
Proof.
  split; [|split; [|split; [|split; [|split; [|split]]]]]; [| | | | |reflexivity|reflexivity].
  - intros v. apply getCsrfToken_first.
  - intros v. apply getCsrfToken_second.
  - apply getCsrfToken_sentinel.
  - apply getCsrfToken_total.
  - intros r1 r2 H1 H2 S1 S2. apply getCsrfToken_sentinel.
    + rewrite H1. now apply status_500_fails.
    + rewrite H2. now apply status_500_fails.
Qed.

Lemma getCsrfToken_two_source_chain_witness :
  getCsrfToken sampleEnv tokenHost [] = (afterFirst sampleEnv [], inr (lit "-1234567"))
  /\ getCsrfToken sampleEnv brokenHost [] = (afterSecond sampleEnv [], inr (lit "1")).
Proof.
  split.
  - apply (proj1 (getCsrfToken_two_source_chain tokenHost sampleEnv [])).
    apply (RealToken _ cookieResponse (lit "session-id=1; csrf=-1234567; Path=/"));
      [reflexivity | reflexivity | vm_compute; reflexivity | vm_compute; discriminate].
  - apply (proj1 (proj2 (proj2 (proj2 (proj2
             (getCsrfToken_two_source_chain brokenHost sampleEnv [])))))
             errorResponse errorResponse); reflexivity.
Defined.

(** *** Traces *)

Lemma Emits_ret {A} P (a : A) : Emits P (ret a).
Proof. intros h tr. exists []. now rewrite app_nil_r. Qed.

Lemma Emits_throw {A} P e : Emits P (@throw A e).
Proof. intros h tr. exists []. now rewrite app_nil_r. Qed.

Lemma Emits_lift {A} P (r : Exn + A) : Emits P (lift r).
Proof. intros h tr. exists []. now rewrite app_nil_r. Qed.

Lemma Emits_askHost P : Emits P askHost.
Proof. intros h tr. exists []. now rewrite app_nil_r. Qed.

Lemma Emits_fetch P req : P (Fetch req) -> Emits P (fetch req).
Proof. intros HP h tr. exists [Fetch req]. split; [reflexivity|]. now constructor. Qed.

Lemma Emits_endpoints P env :
  P (GetCustomerSmartHomeEndpoints env) -> Emits P (getCustomerSmartHomeEndpoints env).
Proof.
  intros HP h tr. exists [GetCustomerSmartHomeEndpoints env].
  split; [reflexivity|]. now constructor.
Qed.

Lemma Emits_primaryLight P env : P (GetPrimaryLight env) -> Emits P (getPrimaryLight env).
Proof.
  intros HP h tr. exists [GetPrimaryLight env]. split; [reflexivity|]. now constructor.
Qed.

Lemma Emits_bind {A B} P (m : M A) (k : A -> M B) :
  Emits P m -> (forall a, Emits P (k a)) -> Emits P (bind m k).
Proof.
  intros Hm Hk h tr. destruct (Hm h tr) as (evs & Htr & Hevs).
  unfold bind. destruct (m h tr) as [tr' [e|a]]; simpl in Htr; subst tr'.
  - now exists evs.
  - destruct (Hk a h (tr ++ evs)) as (evs' & Htr' & Hevs').
    exists (evs ++ evs'). rewrite Htr', app_assoc. split; [reflexivity|].
    now apply Forall_app.
Qed.

Lemma Emits_tryCatch {A} P (m : M A) handler :
  Emits P m -> (forall e, Emits P (handler e)) -> Emits P (tryCatch m handler).
Proof.
  intros Hm Hk h tr. destruct (Hm h tr) as (evs & Htr & Hevs).
  unfold tryCatch. destruct (m h tr) as [tr' [e|a]]; simpl in Htr; subst tr'.
  - destruct (Hk e h (tr ++ evs)) as (evs' & Htr' & Hevs').
    exists (evs ++ evs'). rewrite Htr', app_assoc. split; [reflexivity|].
    now apply Forall_app.
  - now exists evs.
Qed.

Lemma Returns_tryCatch {A} (m : M A) handler :
  (forall e, Returns (handler e)) -> Returns (tryCatch m handler).
Proof.
  intros Hk h tr. unfold tryCatch. destruct (m h tr) as [tr' [e|a]].
  - apply Hk.
  - now exists a.
Qed.

Lemma Returns_ret {A} (a : A) : Returns (ret a).
Proof. intros h tr. now exists a. Qed.

Ltac emits :=
  repeat first
    [ apply Emits_ret | apply Emits_throw | apply Emits_lift | apply Emits_askHost
    | apply Emits_bind; [|intros ?]
    | apply Emits_tryCatch; [|intros ?]
    | apply Emits_fetch; vm_compute; reflexivity
    | apply Emits_endpoints; reflexivity
    | apply Emits_primaryLight; reflexivity
    | match goal with
      | |- Emits _ (if ?b then _ else _) => destruct b
      | |- Emits _ (match ?x with _ => _ end) => destruct x
      end ].

Ltac emits_step :=
  first
    [ apply Emits_ret | apply Emits_throw | apply Emits_lift | apply Emits_askHost
    | apply Emits_fetch; first [exact I | vm_compute; reflexivity]
    | apply Emits_endpoints; first [exact I | reflexivity]
    | apply Emits_primaryLight; first [exact I | reflexivity]
    | apply Emits_bind; [|intros ?]
    | apply Emits_tryCatch; [|intros ?]
    | match goal with
      | |- Emits _ (if ?b then _ else _) => destruct b
      | |- Emits _ (match ?x with _ => _ end) => destruct x
      end ].

Lemma csrfFromSource_emits P env url :
  P (Fetch (csrfProbe env url)) -> Emits P (csrfFromSource env url).
Proof. intros HP. unfold csrfFromSource. apply Emits_bind; [now apply Emits_fetch|]. intros r. emits. Qed.

Lemma getCsrfToken_emits_any P env :
  P (Fetch (firstProbe env)) -> P (Fetch (secondProbe env)) -> Emits P (getCsrfToken env).
Proof.
  intros H1 H2. unfold getCsrfToken.
  apply Emits_bind;
    [apply Emits_tryCatch; [now apply csrfFromSource_emits|intros; apply Emits_ret]|].
  intros [t|]; [apply Emits_ret|].
  apply Emits_bind;
    [apply Emits_tryCatch; [now apply csrfFromSource_emits|intros; apply Emits_ret]|].
  intros [t|]; apply Emits_ret.
Qed.

Lemma buildAlexaHeadersWithCsrf_emits_any P env additional :
  P (Fetch (firstProbe env)) -> P (Fetch (secondProbe env)) ->
  Emits P (buildAlexaHeadersWithCsrf env additional).
Proof.
  intros H1 H2. unfold buildAlexaHeadersWithCsrf.
  apply Emits_bind; [now apply getCsrfToken_emits_any|]. intros; apply Emits_ret.
Qed.

Lemma respond_emits P result : Emits P (respond result).
Proof. unfold respond. repeat emits_step. Qed.

(** Proves [Emits P m] for a handler [m], given that [P] holds of the
    events of its own. *)
Ltac emits_handler :=
  unfold isAnyLightOn, Music.orServerError, Music.resolveEcho, Music.getDeviceInfo,
    Announce.getDeviceInfo, fetchCustomerId, postAnnouncement, Music.postBehavior,
    buildAlexaHeadersWithCsrf;
  repeat first
    [ apply respond_emits
    | apply getCsrfToken_emits_any; first [exact I | vm_compute; reflexivity]
    | emits_step ].

Ltac trivial_emits := emits_handler.

Lemma deliverAnnouncement_emits env text :
  Emits (fun ev => isLightCheck ev = false) (deliverAnnouncement env text).
Proof. unfold deliverAnnouncement. emits_handler. Qed.

Lemma EnvSchema_parse_credentials isUrl raw env :
  EnvSchema_parse isUrl raw = Some env ->
  truthy (UBID_MAIN env) = true /\ truthy (AT_MAIN env) = true.
Proof.
  unfold EnvSchema_parse.
  destruct (raw_UBID_MAIN raw) as [u|]; [|discriminate].
  destruct (raw_AT_MAIN raw) as [a|]; [|discriminate].
  destruct (raw_API_BASE raw) as [b|]; [|discriminate].
  destruct (_ && _) eqn:E; [|discriminate]. intros [= <-]. simpl.
  apply andb_true_iff in E as [E _]. apply andb_true_iff in E as [E1 E2].
  apply Nat.leb_le in E1, E2.
  destruct u, a; simpl in *; try lia; auto.
Qed.

(** *** What a computation starts with *)

Lemma Starts_fetch req : Starts (Fetch req) (fetch req).
Proof. intros h tr. now exists []. Qed.

Lemma Starts_primaryLight env : Starts (GetPrimaryLight env) (getPrimaryLight env).
Proof. intros h tr. now exists []. Qed.

Lemma Starts_bind {A B} ev (m : M A) (k : A -> M B) :
  Starts ev m -> (forall a, Emits (fun _ => True) (k a)) -> Starts ev (bind m k).
Proof.
  intros Hm Hk h tr. destruct (Hm h tr) as (evs & Htr). unfold bind.
  destruct (m h tr) as [tr' [e|a]]; cbn [fst] in Htr; subst tr'.
  - now exists evs.
  - destruct (Hk a h (tr ++ ev :: evs)) as (evs' & Htr' & _).
    exists (evs ++ evs'). rewrite Htr'. now rewrite <- app_assoc.
Qed.

Lemma Starts_tryCatch {A} ev (m : M A) handler :
  Starts ev m -> (forall e, Emits (fun _ => True) (handler e)) ->
  Starts ev (tryCatch m handler).
Proof.
  intros Hm Hk h tr. destruct (Hm h tr) as (evs & Htr). unfold tryCatch.
  destruct (m h tr) as [tr' [e|a]]; cbn [fst] in Htr; subst tr'.
  - destruct (Hk e h (tr ++ ev :: evs)) as (evs' & Htr' & _).
    exists (evs ++ evs'). rewrite Htr'. now rewrite <- app_assoc.
  - now exists evs.
Qed.

Lemma Starts_ask {A} ev (k : Host -> M A) :
  (forall h, Starts ev (k h)) -> Starts ev (bind askHost k).
Proof. intros Hk h tr. apply (Hk h h tr). Qed.

Lemma getCsrfToken_starts env : Starts (Fetch (firstProbe env)) (getCsrfToken env).
Proof.
  unfold getCsrfToken.
  apply Starts_bind; [|intros [t|]; emits_handler].
  apply Starts_tryCatch; [|intros; emits_handler].
  unfold csrfFromSource. apply Starts_bind; [apply Starts_fetch|].
  intros r. emits_handler.
Qed.

Lemma fetchCustomerId_starts env : Starts (Fetch (firstProbe env)) (fetchCustomerId env).
Proof.
  unfold fetchCustomerId. apply Starts_ask. intros h.
  apply Starts_bind; [|intros; emits_handler].
  unfold buildAlexaHeadersWithCsrf.
  apply Starts_bind; [apply getCsrfToken_starts|intros; emits_handler].
Qed.

Lemma deliverAnnouncement_starts env text :
  Starts (Fetch (firstProbe env)) (deliverAnnouncement env text).
Proof.
  unfold deliverAnnouncement.
  apply Starts_bind; [|intros [r|[c d]]; emits_handler].
  apply Starts_tryCatch; [|intros; emits_handler].
  apply Starts_bind; [|intros; emits_handler].
  unfold Announce.getDeviceInfo.
  apply Starts_bind; [apply fetchCustomerId_starts|intros; emits_handler].
Qed.

(** *** The light check *)

Lemma stateRequestBody_text entityId :
  stateRequestBody entityId
  = STATE_REQUEST_PREFIX ++ quoteJSONString entityId ++ STATE_REQUEST_SUFFIX.
Proof.
  unfold stateRequestBody. cbn [stringify map fst snd joinWith].
  generalize (quoteJSONString entityId). intros s.
  unfold STATE_REQUEST_PREFIX, STATE_REQUEST_SUFFIX. repeat rewrite <- app_assoc.
  vm_compute. reflexivity.
Qed.

Lemma isPowerState_spec cap : isPowerState cap = true <-> isPowerController cap.
Proof.
  unfold isPowerState, isPowerController.
  rewrite andb_true_iff, !bool_decide_eq_true. reflexivity.
Qed.

Lemma parseCapabilities_cons h raw raws :
  parseCapabilities h (raw :: raws)
  = match jsonCapability h raw with
    | inr cap => [cap]
    | inl _ => []
    end ++ parseCapabilities h raws.
Proof. reflexivity. Qed.

(** The verdict that the code draws from the find. *)
Lemma PowerReport_find h raws verdict :
  PowerReport h raws verdict ->
  match findPowerState h (parseCapabilities h raws) with
  | inr (Some cap) => verdict = Some (bool_decide (cap_value cap = Some (lit "ON")))
  | _ => verdict = None
  end.
Proof.
  induction 1 as [|raw raws e v Hraw _ IH|raw raws Hraw|raw raws cap v Hraw Hcap _ IH
                 |raw raws cap Hraw Hcap];
    rewrite ?parseCapabilities_cons, ?Hraw; cbn [app findPowerState].
  - reflexivity.
  - exact IH.
  - reflexivity.
  - destruct (isPowerState cap) eqn:E; [|exact IH].
    apply isPowerState_spec in E. contradiction.
  - apply isPowerState_spec in Hcap. now rewrite Hcap.
Qed.

Lemma PowerReport_total h raws : exists verdict, PowerReport h raws verdict.
Proof.
  induction raws as [|raw raws [v IH]]; [exists None; constructor|].
  destruct (jsonCapability h raw) as [e|[cap|]] eqn:Hraw.
  - exists v. now apply (report_unparsed h raw raws e).
  - destruct (isPowerState cap) eqn:E.
    + eexists. apply (report_power h raw raws cap Hraw). now apply isPowerState_spec.
    + exists v. apply (report_other h raw raws cap v Hraw); [|exact IH].
      rewrite <- isPowerState_spec. congruence.
  - exists None. now apply report_null.
Qed.

Lemma PowerReport_unique h raws v1 v2 :
  PowerReport h raws v1 -> PowerReport h raws v2 -> v1 = v2.
Proof.
  intros H1 H2. apply PowerReport_find in H1, H2.
  destruct (findPowerState h (parseCapabilities h raws)) as [e|[cap|]]; congruence.
Qed.

(** isAnyLightOn with the credentials there, as one expression of what the
    host answers. *)
Lemma isAnyLightOn_steps env h tr :
  truthy (UBID_MAIN env) = true -> truthy (AT_MAIN env) = true ->
  isAnyLightOn env h tr
  = match primaryLight h tr env with
    | inl _ => (tr ++ [GetPrimaryLight env], inr None)
    | inr light =>
        match extractEntityId h light with
        | inl _ => (tr ++ [GetPrimaryLight env], inr None)
        | inr entityId =>
            (tr ++ [GetPrimaryLight env; Fetch (stateRequest env entityId)],
             inr match fetchResult h (tr ++ [GetPrimaryLight env]) (stateRequest env entityId) with
                 | inl _ => None
                 | inr res =>
                     if res_ok res then
                       match jsonStateResponse h (res_text res) with
                       | inl _ => None
                       | inr data =>
                           match deviceStates data with
                           | Some (first :: _) =>
                               match findPowerState h
                                       (parseCapabilities h (capabilityStates first)) with
                               | inr (Some cap) =>
                                   Some (bool_decide (cap_value cap = Some (lit "ON")))
                               | _ => None
                               end
                           | _ => None
                           end
                       end
                     else None
                 end)
        end
    end.
Proof.
  intros Hu Ha. unfold isAnyLightOn. rewrite Hu, Ha. cbn [negb orb].
  unfold tryCatch, bind, askHost, getPrimaryLight, lift, fetch.
  destruct (primaryLight h tr env) as [e|light]; [reflexivity|].
  destruct (extractEntityId h light) as [e|entityId]; [reflexivity|].
  rewrite stateRequestBody_text.
  match goal with
  | |- context [fetchResult h ?t ?r] => change r with (stateRequest env entityId)
  end.
  rewrite <- app_assoc. cbn [app].
  destruct (fetchResult h _ (stateRequest env entityId)) as [e|res]; [reflexivity|].
  destruct (res_ok res); cbn [negb]; [|reflexivity].
  destruct (jsonStateResponse h (res_text res)) as [e|data]; [reflexivity|].
  destruct (deviceStates data) as [[|first others]|]; try reflexivity.
  destruct (findPowerState h _) as [e|[cap|]]; reflexivity.
Qed.

Lemma isAnyLightOn_check env h tr evs verdict :
  truthy (UBID_MAIN env) = true -> truthy (AT_MAIN env) = true ->
  LightCheck h env tr evs verdict ->
  isAnyLightOn env h tr = (tr ++ evs, inr verdict).
Proof.
  intros Hu Ha Hcheck. rewrite (isAnyLightOn_steps _ _ _ Hu Ha).
  destruct Hcheck as [e Hl|light e Hl He|light entityId e Hl He Hf
                     |light entityId res Hl He Hf Hok
                     |light entityId res e Hl He Hf Hok Hd
                     |light entityId res data Hl He Hf Hok Hd Hs
                     |light entityId res data first others verdict Hl He Hf Hok Hd Hs Hr];
    rewrite Hl; try rewrite He; try rewrite Hf; try rewrite Hok; try rewrite Hd;
    try reflexivity.
  - destruct Hs as [-> | ->]; reflexivity.
  - rewrite Hs. apply PowerReport_find in Hr.
    destruct (findPowerState h _) as [e|[cap|]]; now subst.
Qed.

Lemma LightCheck_total h env tr : exists evs verdict, LightCheck h env tr evs verdict.
Proof.
  destruct (primaryLight h tr env) as [e|light] eqn:Hl;
    [eexists _, _; now apply (check_no_light h env tr e)|].
  destruct (extractEntityId h light) as [e|entityId] eqn:He;
    [eexists _, _; now apply (check_no_entity h env tr light e)|].
  destruct (fetchResult h (tr ++ [GetPrimaryLight env]) (stateRequest env entityId))
    as [e|res] eqn:Hf;
    [eexists _, _; now apply (check_fetch_failed h env tr light entityId e)|].
  destruct (res_ok res) eqn:Hok;
    [|eexists _, _; now apply (check_not_ok h env tr light entityId res)].
  destruct (jsonStateResponse h (res_text res)) as [e|data] eqn:Hd;
    [eexists _, _; now apply (check_no_body h env tr light entityId res e)|].
  destruct (deviceStates data) as [[|first others]|] eqn:Hs.
  - eexists _, _. apply (check_no_state h env tr light entityId res data); auto.
  - destruct (PowerReport_total h (capabilityStates first)) as [verdict Hr].
    eexists _, _.
    now apply (check_state h env tr light entityId res data first others verdict).
  - eexists _, _. apply (check_no_state h env tr light entityId res data); auto.
Qed.

(** Every path of the check begins with the question to the directory and
    stays away from behaviors/preview. *)
Lemma LightCheck_events h env tr evs verdict :
  LightCheck h env tr evs verdict ->
  (exists rest, evs = GetPrimaryLight env :: rest)
  /\ Forall (fun ev => isPreviewPost ev = false) evs.
Proof.
  destruct 1; (split; [eexists; reflexivity|]);
    repeat (constructor; [vm_compute; reflexivity|]); constructor.
Qed.

(** A verdict comes from the power state alone. *)
Lemma LightCheck_verdict h env tr evs b :
  LightCheck h env tr evs (Some b) ->
  exists light entityId res data first others,
    primaryLight h tr env = inr light /\ extractEntityId h light = inr entityId
    /\ evs = [GetPrimaryLight env; Fetch (stateRequest env entityId)]
    /\ fetchResult h (tr ++ [GetPrimaryLight env]) (stateRequest env entityId) = inr res
    /\ res_ok res = true /\ jsonStateResponse h (res_text res) = inr data
    /\ deviceStates data = Some (first :: others)
    /\ PowerReport h (capabilityStates first) (Some b).
Proof.
  inversion 1; subst. eexists _, _, _, _, _, _. repeat split; eassumption.
Qed.

(** *** The night gate of announceHandler *)

Lemma truthy_or_empty (t : jsstring) : (if truthy t then t else []) = t.
Proof. now destruct t. Qed.

Lemma wellTyped_reads h parsed :
  wellTyped parsed ->
  readBody h (inr (Some parsed)) = inr parsed
  /\ nameOf h parsed = inr (trimmedName parsed)
  /\ textToSpeakRawOf h parsed = inr (textToSpeak parsed).
Proof.
  unfold wellTyped, readBody, nameOf, textToSpeakRawOf, trimmedName, textToSpeak.
  destruct parsed as [n m s]. cbn [name message ssml].
  intros (Hn & Hm & Hs). split; [|split].
  - now destruct m.
  - now destruct n.
  - destruct s as [| |s|?]; [| | |contradiction];
      destruct m as [| |m|?]; try contradiction;
      cbn [stringOf trimOptional truthyOpt default fmap option_fmap option_map];
      unfold Datatypes.id; rewrite ?truthy_or_empty; try reflexivity;
      destruct (trim s); reflexivity.
Qed.

Lemma announceHandler_validated h rawEnv env parsed tr :
  EnvSchema_parse (isUrl h) rawEnv = Some env -> validRequest parsed ->
  announceHandler rawEnv (inr (Some parsed)) h tr
  = announceValidated env (textToSpeak parsed) h tr.
Proof.
  intros Hparse (Htyped & Hname & Htext & Hn40 & Ht500).
  destruct (EnvSchema_parse_credentials _ _ _ Hparse) as [Hu Ha].
  destruct (wellTyped_reads h parsed Htyped) as (Hbody & Hn & Ht).
  unfold announceHandler, bind at 1, askHost. rewrite Hparse, Hu, Ha. cbn [negb orb].
  rewrite Hbody. unfold bind at 1, lift. rewrite Hn. unfold bind at 1. rewrite Ht.
  assert (Hnt : truthy (trimmedName parsed) = true)
    by (destruct (trimmedName parsed); [congruence|reflexivity]).
  assert (Htt : truthy (textToSpeak parsed) = true)
    by (destruct (textToSpeak parsed); [congruence|reflexivity]).
  rewrite Hnt, Htt. cbn [negb orb].
  destruct (Nat.ltb_spec 40 (length (trimmedName parsed))); [lia|].
  destruct (Nat.ltb_spec 500 (length (textToSpeak parsed))); [lia|].
  reflexivity.
Qed.

Lemma configuredTimeZone_timeZone env tz : configuredTimeZone env tz -> timeZone env = tz.
Proof.
  unfold timeZone. intros [[-> Htz]|[[-> | ->] ->]]; [|reflexivity|reflexivity].
  now destruct tz.
Qed.

Lemma announceValidated_night h env text tr hour tr' lightOn :
  hourIn h (timeZone env) = inr hour -> (hour < 10 \/ 22 <= hour)%Z ->
  isAnyLightOn env h tr = (tr', inr lightOn) ->
  announceValidated env text h tr =
    match lightOn with
    | Some false => (tr', inr forbidden)
    | _ => deliverAnnouncement env text h tr'
    end.
Proof.
  intros Hhour Hnight Hlight.
  unfold announceValidated, bind at 1, askHost. unfold bind at 1, lift. rewrite Hhour.
  replace ((10 <=? hour)%Z && (hour <? 22)%Z) with false
    by (symmetry; apply andb_false_iff; rewrite Z.leb_gt, Z.ltb_ge; lia).
  cbn [negb]. unfold bind at 1. rewrite Hlight.
  destruct lightOn as [[|]|]; reflexivity.
Qed.

Lemma announceValidated_day h env text tr hour :
  hourIn h (timeZone env) = inr hour -> (10 <= hour < 22)%Z ->
  announceValidated env text h tr = deliverAnnouncement env text h tr.
Proof.
  intros Hhour Hday.
  unfold announceValidated, bind at 1, askHost. unfold bind at 1, lift. rewrite Hhour.
  replace ((10 <=? hour)%Z && (hour <? 22)%Z) with true
    by (symmetry; apply andb_true_iff; rewrite Z.leb_le, Z.ltb_lt; lia).
  reflexivity.
Qed.

Lemma isAnyLightOn_without_credentials env h tr :
  truthy (UBID_MAIN env) = false \/ truthy (AT_MAIN env) = false ->
  isAnyLightOn env h tr = (tr, inr None).
Proof.
  intros Hmissing. unfold isAnyLightOn.
  destruct Hmissing as [-> | ->]; [reflexivity|].
  now rewrite orb_true_r.
Qed.

(** C9.  For a request that passed validation, the hour being the one of
    the time zone TZ, or of America/New_York when TZ is not set or empty.
    When that hour is before 10 or at or after 22, the first thing the
    handler does is the light check: it asks the directory for the primary
    light and then the phoenix state endpoint for the power state of that
    light, and it posts nothing to behaviors/preview.  If the check says
    off, the answer is 403 and nothing else happens; if it says on, or
    leaves the question open (null), the handler goes on to deliver the
    announcement, which starts with the first csrf probe of the customer
    lookup.  When
    the hour is from 10 to 21 the handler delivers directly and no event of
    the whole run is a light check.  Without credentials the check gives
    null without doing anything. *)
Theorem announce_night_gate h rawEnv env parsed tr tz hour :
  EnvSchema_parse (isUrl h) rawEnv = Some env ->
  validRequest parsed ->
  configuredTimeZone env tz ->
  hourIn h tz = inr hour ->
  let text := textToSpeak parsed in
  let handler := announceHandler rawEnv (inr (Some parsed)) h tr in
  ((hour < 10 \/ 22 <= hour)%Z ->
   (exists evs, fst handler = tr ++ GetPrimaryLight env :: evs)
   /\ (exists evs lightOn, LightCheck h env tr evs lightOn)
   /\ (forall evs lightOn,
         LightCheck h env tr evs lightOn ->
         Forall (fun ev => isPreviewPost ev = false) evs
         /\ (lightOn = Some false -> handler = (tr ++ evs, inr forbidden))
         /\ (lightOn <> Some false ->
             handler = deliverAnnouncement env text h (tr ++ evs))))
  /\ ((10 <= hour < 22)%Z ->
      handler = deliverAnnouncement env text h tr
      /\ exists evs, fst handler = tr ++ evs
                     /\ Forall (fun ev => isLightCheck ev = false) evs)
  /\ Starts (Fetch (firstProbe env)) (deliverAnnouncement env text)
  /\ (forall env' h' tr',
        truthy (UBID_MAIN env') = false \/ truthy (AT_MAIN env') = false ->
        isAnyLightOn env' h' tr' = (tr', inr None)).
Proof.
  intros Hparse Hvalid Hzone Hhour text handler.
  destruct (EnvSchema_parse_credentials _ _ _ Hparse) as [Hu Ha].
  apply configuredTimeZone_timeZone in Hzone. rewrite <- Hzone in Hhour.
  assert (Hh : handler = announceValidated env text h tr)
    by now apply announceHandler_validated.
  assert (Hgate : (hour < 10 \/ 22 <= hour)%Z ->
                  forall evs lightOn,
                    LightCheck h env tr evs lightOn ->
                    handler = match lightOn with
                              | Some false => (tr ++ evs, inr forbidden)
                              | _ => deliverAnnouncement env text h (tr ++ evs)
                              end).
  { intros Hnight evs lightOn Hcheck. rewrite Hh.
    apply (announceValidated_night _ _ _ _ _ _ _ Hhour Hnight).
    now apply isAnyLightOn_check. }
  split; [|split; [|split]].
  - intros Hnight. split; [|split].
    + destruct (LightCheck_total h env tr) as (evs & lightOn & Hcheck).
      destruct (LightCheck_events _ _ _ _ _ Hcheck) as [[rest ->] _].
      rewrite (Hgate Hnight _ _ Hcheck).
      destruct (deliverAnnouncement_emits env text h (tr ++ GetPrimaryLight env :: rest))
        as (more & Hmore & _).
      destruct lightOn as [[|]|];
        try (exists (rest ++ more); rewrite Hmore, <- app_assoc; reflexivity).
      now exists rest.
    + apply LightCheck_total.
    + intros evs lightOn Hcheck. split; [|split].
      * apply (LightCheck_events _ _ _ _ _ Hcheck).
      * intros ->. apply (Hgate Hnight _ _ Hcheck).
      * intros Hne. rewrite (Hgate Hnight _ _ Hcheck).
        destruct lightOn as [[|]|]; congruence.
  - intros Hday. rewrite Hh, (announceValidated_day _ _ _ _ _ Hhour Hday).
    split; [reflexivity|]. apply deliverAnnouncement_emits.
  - apply deliverAnnouncement_starts.
  - intros env' h' tr'. apply isAnyLightOn_without_credentials.
Qed.

Lemma announce_night_gate_witness :
  (forall evs lightOn,
      LightCheck nightHost sampleEnv [] evs lightOn ->
      Forall (fun ev => isPreviewPost ev = false) evs
      /\ (lightOn = Some false ->
          announceHandler sampleRawEnv (inr (Some sampleBody)) nightHost []
          = ([] ++ evs, inr forbidden))
      /\ (lightOn <> Some false ->
          announceHandler sampleRawEnv (inr (Some sampleBody)) nightHost []
          = deliverAnnouncement sampleEnv (textToSpeak sampleBody) nightHost ([] ++ evs)))
  /\ (announceHandler sampleRawEnv (inr (Some sampleBody)) onlineHost []
      = deliverAnnouncement sampleEnv (textToSpeak sampleBody) onlineHost []
      /\ exists evs,
           fst (announceHandler sampleRawEnv (inr (Some sampleBody)) onlineHost []) = [] ++ evs
           /\ Forall (fun ev => isLightCheck ev = false) evs).
Proof.
  assert (Hvalid : validRequest sampleBody).
  { split; [repeat split|].
    split; [vm_compute; discriminate|]. split; [vm_compute; discriminate|].
    split; vm_compute; lia. }
  assert (Hzone : configuredTimeZone sampleEnv (lit "America/New_York"))
    by (right; split; [now left|reflexivity]).
  split.
  - apply (proj2 (proj2 (proj1 (announce_night_gate nightHost sampleRawEnv sampleEnv
                                  sampleBody [] (lit "America/New_York") 23%Z
                                  eq_refl Hvalid Hzone eq_refl)
                           ltac:(right; lia)))).
  - apply (proj1 (proj2 (announce_night_gate onlineHost sampleRawEnv sampleEnv sampleBody []
                           (lit "America/New_York") 12%Z eq_refl Hvalid Hzone eq_refl))).
    lia.
Defined.

(** At night with the light off the answer is 403, after the light check
    alone: the directory call and the state fetch. *)
Example announce_night_light_off :
  let '(trace, result) :=
    run (announceHandler sampleRawEnv (inr (Some sampleBody))) nightHost in
  result = inr forbidden /\ length trace = 2%nat /\ forallb isLightCheck trace = true.
Proof. vm_compute. repeat split. Qed.

(** By day the same request goes through: seven events, the last one the
    post to behaviors/preview, and the answer 200. *)
Example announce_day_delivers :
  let '(trace, result) :=
    run (announceHandler sampleRawEnv (inr (Some sampleBody))) onlineHost in
  result = inr {| http_status := 200; http_error := None; http_details := None |}
  /\ map isPreviewPost trace = [false; false; false; false; false; false; true].
Proof. vm_compute. repeat split. Qed.

(** *** sanitizeError *)

Lemma replaceAll_skip m k s : replaceAll m k s = replaceAll m 0 (drop k s).
Proof.
  revert k. induction s as [|c s IH]; intros k.
  - now destruct k.
  - destruct k as [|k]; [reflexivity|]. simpl. apply IH.
Qed.

Lemma takeWhile_dropWhile f s : takeWhile f s ++ dropWhile f s = s.
Proof.
  induction s as [|c s IH]; simpl; [reflexivity|].
  destruct (f c); simpl; [now rewrite IH | reflexivity].
Qed.

Lemma takeWhile_all f s : forallb f (takeWhile f s) = true.
Proof.
  induction s as [|c s IH]; simpl; [reflexivity|].
  destruct (f c) eqn:E; simpl; [now rewrite E | reflexivity].
Qed.

Lemma dropWhile_head f s :
  match dropWhile f s with [] => True | c :: _ => f c = false end.
Proof.
  induction s as [|c s IH]; simpl; [exact I|].
  destruct (f c) eqn:E; [exact IH | exact E].
Qed.

Lemma takeWhile_run r rest :
  tokens r = true -> headNotToken rest = true ->
  takeWhile isTokenChar (r ++ rest) = r.
Proof.
  intros Hr Hrest. induction r as [|c r IH]; simpl in *.
  - destruct rest as [|d rest]; [reflexivity|]. simpl in Hrest.
    simpl. now destruct (isTokenChar d).
  - apply andb_true_iff in Hr as [Hc Hr]. rewrite Hc. now rewrite IH.
Qed.

Lemma redact_short r rest :
  tokens r = true -> headNotToken rest = true -> (length r < 20)%nat ->
  redactLongTokens (r ++ rest) = r ++ redactLongTokens rest.
Proof.
  intros Hr Hrest. induction r as [|c r IH]; intros Hlen; [reflexivity|].
  unfold redactLongTokens in *. simpl app. cbn [replaceAll].
  unfold matchLongToken at 1.
  change (c :: r ++ rest) with ((c :: r) ++ rest).
  rewrite (takeWhile_run (c :: r) rest Hr Hrest).
  destruct (Nat.leb_spec 20 (length (c :: r))); [lia|].
  simpl. f_equal. apply IH.
  - simpl in Hr. now apply andb_true_iff in Hr as [_ Hr].
  - simpl in Hlen. lia.
Qed.

Lemma redact_run r rest :
  tokens r = true -> headNotToken rest = true ->
  redactLongTokens (r ++ rest) = flush r ++ redactLongTokens rest.
Proof.
  intros Hr Hrest. unfold flush.
  destruct (Nat.leb_spec 20 (length r)) as [Hlen|Hlen].
  - destruct r as [|c r]; [simpl in Hlen; lia|].
    unfold redactLongTokens. simpl app. cbn [replaceAll].
    unfold matchLongToken.
    change (c :: r ++ rest) with ((c :: r) ++ rest).
    rewrite (takeWhile_run (c :: r) rest Hr Hrest).
    destruct (Nat.leb_spec 20 (length (c :: r))); [|lia].
    f_equal. rewrite replaceAll_skip. simpl pred.
    now rewrite drop_app_length.
  - now apply redact_short.
Qed.

Lemma redact_sep c s :
  isTokenChar c = false ->
  redactLongTokens (c :: s) = c :: redactLongTokens s.
Proof.
  intros Hc. unfold redactLongTokens. cbn [replaceAll].
  unfold matchLongToken. simpl. now rewrite Hc.
Qed.

Lemma redact_head_not_token s :
  headNotToken s = true -> headNotToken (redactLongTokens s) = true.
Proof.
  destruct s as [|c s]; [reflexivity|]. simpl. intros Hc.
  apply negb_true_iff in Hc. rewrite redact_sep by exact Hc.
  simpl. now rewrite Hc.
Qed.

Lemma startsWith_single a c s : startsWith [a] (c :: s) = (a =? c).
Proof. unfold startsWith. cbn [stripPrefix]. now destruct (a =? c). Qed.

Lemma keepToken_harmless r :
  tokens r = true -> keepToken r = true -> harmless r.
Proof.
  intros Hr. unfold keepToken, harmless.
  rewrite !orb_true_iff. intros [[[H|H]|H]|H].
  - now right; left.
  - exfalso. clear -Hr H. induction r as [|c r IH]; simpl in *.
    + discriminate.
    + apply andb_true_iff in Hr as [Hc Hr].
      apply orb_true_iff in H as [H|H]; [|now apply IH].
      change (lit ".") with [46] in H. rewrite startsWith_single in H.
      apply N.eqb_eq in H. subst c. discriminate.
  - right; right. now apply andb_true_iff in H as [_ H].
  - left. now apply Nat.ltb_lt in H.
Qed.

Lemma flush_clean r l :
  tokens r = true -> headNotToken l = true -> Clean l -> Clean (flush r ++ l).
Proof.
  intros Hr Hl Hc. unfold flush.
  destruct (Nat.leb_spec 20 (length r)) as [Hlen|Hlen].
  - unfold redactToken. destruct (keepToken r) eqn:K.
    + apply Clean_run; auto using keepToken_harmless.
    + simpl. repeat (apply Clean_sep; [reflexivity|]). exact Hc.
  - apply Clean_run; auto. left. lia.
Qed.

Lemma redactLongTokens_clean s : Clean (redactLongTokens s).
Proof.
  remember (length s) as n eqn:Hn. revert s Hn.
  induction n as [n IH] using lt_wf_ind. intros s Hn.
  destruct s as [|c s]; [apply Clean_nil|].
  destruct (isTokenChar c) eqn:Hc.
  - pose proof (takeWhile_dropWhile isTokenChar (c :: s)) as Hsplit.
    pose proof (takeWhile_all isTokenChar (c :: s)) as Hall.
    pose proof (dropWhile_head isTokenChar (c :: s)) as Hhead.
    assert (Hrest : headNotToken (dropWhile isTokenChar (c :: s)) = true).
    { unfold headNotToken. destruct (dropWhile isTokenChar (c :: s)); [reflexivity|].
      now rewrite Hhead. }
    assert (Hshort : (length (dropWhile isTokenChar (c :: s)) < n)%nat).
    { subst n. simpl. rewrite Hc. simpl.
      pose proof (takeWhile_dropWhile isTokenChar s) as H2.
      apply (f_equal (@length N)) in H2. rewrite length_app in H2. lia. }
    rewrite <- Hsplit. rewrite redact_run by assumption.
    apply flush_clean; [assumption| now apply redact_head_not_token |].
    eapply IH; [exact Hshort | reflexivity].
  - rewrite redact_sep by exact Hc. apply Clean_sep; [exact Hc|].
    eapply IH; [|reflexivity]. subst n. simpl. lia.
Qed.

Lemma stripPrefix_eq q s t : stripPrefix N.eqb q s = Some t <-> s = q ++ t.
Proof.
  revert s. induction q as [|a q IH]; intros s; simpl.
  - split; congruence.
  - destruct s as [|c s]; [split; discriminate|].
    destruct (N.eqb_spec a c) as [->|Hne].
    + rewrite IH. split; congruence.
    + split; [discriminate | congruence].
Qed.

Lemma startsWith_spec q s : startsWith q s = true <-> exists t, s = q ++ t.
Proof.
  unfold startsWith. split.
  - destruct (stripPrefix N.eqb q s) as [t|] eqn:E; [|discriminate].
    intros _. exists t. now apply stripPrefix_eq.
  - intros [t Ht]. apply stripPrefix_eq in Ht. now rewrite Ht.
Qed.

Lemma startsWith_shorten q a b :
  startsWith q (a ++ b) = true -> (length q <= length a)%nat -> startsWith q a = true.
Proof.
  rewrite !startsWith_spec. intros [t Ht] Hlen.
  apply app_eq_inv in Ht as [(k & Ha & _)|(k & Hq & _)].
  - now exists k.
  - subst q. rewrite length_app in Hlen.
    destruct k; [|simpl in Hlen; lia]. exists []. now rewrite !app_nil_r.
Qed.

Lemma tokens_app a b : tokens (a ++ b) = tokens a && tokens b.
Proof. apply forallb_app. Qed.

Lemma Clean_occurrence o :
  Clean o ->
  forall p c s,
    o = p ++ c ++ s -> tokens c = true -> (30 <= length c)%nat ->
    forallb isDigit c = false ->
    exists p1 x, p = p1 ++ x /\ tokens x = true /\
                 startsWith (lit "http") (x ++ c) = true.
Proof.
  induction 1 as [|ch l Hch Hl IH|r l Hr Hharm Hhead Hl IH];
    intros p c s Heq Hc Hlen Hdig.
  - destruct p, c; simpl in *; try discriminate; lia.
  - destruct p as [|a p].
    + destruct c as [|d c]; [simpl in Hlen; lia|].
      simpl in Heq. injection Heq as -> _.
      simpl in Hc. rewrite Hch in Hc. discriminate.
    + simpl in Heq. injection Heq as -> Heq.
      destruct (IH _ _ _ Heq Hc Hlen Hdig) as (p1 & x & -> & Hx & Hs).
      exists (a :: p1), x. auto.
  - apply app_eq_inv in Heq as [(k & -> & Hl')|(k & -> & Hcs)].
    + (* the occurrence starts inside the run *)
      symmetry in Hl'.
      apply app_eq_inv in Hl' as [(k' & -> & ->)|(k' & -> & ->)].
      * (* the occurrence ends inside the run *)
        destruct Hharm as [Hshort|[Hhttp|Hdigits]].
        -- rewrite !length_app in Hshort. lia.
        -- exists [], p. split; [reflexivity|]. split.
           ++ rewrite tokens_app in Hr. now apply andb_true_iff in Hr as [Hr _].
           ++ rewrite app_assoc in Hhttp.
              apply (startsWith_shorten _ _ _ Hhttp).
              rewrite length_app. simpl. lia.
        -- rewrite !forallb_app in Hdigits.
           apply andb_true_iff in Hdigits as [_ Hd].
           apply andb_true_iff in Hd as [Hd _]. congruence.
      * (* the occurrence goes past the end of the run *)
        destruct k' as [|d k'].
        -- rewrite app_nil_r in *.
           destruct Hharm as [Hshort|[Hhttp|Hdigits]].
           ++ rewrite !length_app in Hshort. lia.
           ++ exists [], p. split; [reflexivity|]. split; [|exact Hhttp].
              rewrite tokens_app in Hr. now apply andb_true_iff in Hr as [Hr _].
           ++ rewrite !forallb_app in Hdigits.
              apply andb_true_iff in Hdigits as [_ Hd]. congruence.
        -- simpl in Hhead. rewrite tokens_app in Hc.
           apply andb_true_iff in Hc as [_ Hc]. simpl in Hc.
           apply andb_true_iff in Hc as [Hc _]. rewrite Hc in Hhead. discriminate.
    + destruct (IH _ _ _ Hcs Hc Hlen Hdig) as (p1 & x & -> & Hx & Hs).
      exists (r ++ p1), x. rewrite app_assoc. auto.
Qed.

Lemma stripPrefix_suffix eqc p s r : stripPrefix eqc p s = Some r -> exists q, s = q ++ r.
Proof.
  revert s. induction p as [|a p IH]; intros s; cbn [stripPrefix].
  - intros [= ->]. now exists [].
  - destruct s as [|c s]; [discriminate|]. destruct (eqc a c); [|discriminate].
    intros H. destruct (IH _ H) as [q ->]. now exists (c :: q).
Qed.

(** A cookie pattern needs [=] or [:], which is no token character. *)
Lemma matchCookie_tokens name t : tokens t = true -> matchCookie name t = None.
Proof.
  intros Ht. unfold matchCookie.
  destruct (stripPrefix eq_ci name t) as [[|sep rest]|] eqn:E; try reflexivity.
  destruct (stripPrefix_suffix _ _ _ _ E) as [q ->].
  rewrite tokens_app in Ht. apply andb_true_iff in Ht as [_ Ht].
  cbn [tokens forallb] in Ht. apply andb_true_iff in Ht as [Hsep _].
  destruct ((sep =? 61) || (sep =? 58)) eqn:S; [|reflexivity].
  apply orb_true_iff in S as [S|S]; apply N.eqb_eq in S; subst sep; discriminate.
Qed.

Lemma redactCookie_tokens name replacement s :
  tokens s = true -> redactCookie name replacement s = s.
Proof.
  unfold redactCookie. induction s as [|c s IH]; [reflexivity|]. intros Hs.
  cbn [replaceAll]. rewrite (matchCookie_tokens name (c :: s) Hs).
  cbn [tokens forallb] in Hs. apply andb_true_iff in Hs as [_ Hs].
  f_equal. now apply IH.
Qed.

Lemma sanitizeError_short_token r :
  r <> [] -> tokens r = true -> (length r < 30)%nat -> sanitizeError r = r.
Proof.
  intros Hne Hr Hlen. unfold sanitizeError.
  destruct r as [|c r]; [congruence|]. cbn [truthy negb].
  rewrite (redactCookie_tokens (lit "ubid-main")) by exact Hr.
  rewrite (redactCookie_tokens (lit "at-main")) by exact Hr.
  rewrite (redactCookie_tokens (lit "Cookie")) by exact Hr.
  rewrite <- (app_nil_r (c :: r)) at 1. rewrite redact_run by (auto; reflexivity).
  change (redactLongTokens []) with (@nil N). rewrite app_nil_r.
  unfold flush, redactToken, keepToken.
  destruct (20 <=? length (c :: r))%nat; [|reflexivity].
  apply Nat.ltb_lt in Hlen. rewrite Hlen. now rewrite !orb_true_r.
Qed.

Lemma sanitizeError_occurrence text c p s :
  tokens c = true -> (30 <= length c)%nat -> forallb isDigit c = false ->
  sanitizeError text = p ++ c ++ s ->
  exists p1 x, p = p1 ++ x /\ tokens x = true /\
               startsWith (lit "http") (x ++ c) = true.
Proof.
  intros Hc Hlen Hdig Hout.
  unfold sanitizeError in Hout.
  destruct (negb (truthy text)).
  - apply (f_equal (@length N)) in Hout. rewrite !length_app in Hout.
    simpl in Hout. lia.
  - eapply Clean_occurrence; eauto using redactLongTokens_clean.
Qed.

Lemma tokens_last x p1 :
  tokens x = true -> x <> [] -> headNotToken (rev (p1 ++ x)) = false.
Proof.
  intros Hx Hne. rewrite rev_app_distr.
  destruct (rev x) as [|d t] eqn:E.
  - apply (f_equal (@rev N)) in E. rewrite rev_involutive in E. contradiction.
  - cbn [app headNotToken].
    assert (Hd : In d x) by (apply in_rev; rewrite E; now left).
    unfold tokens in Hx. rewrite forallb_forall in Hx. now rewrite (Hx d Hd).
Qed.

(** C1, amended.  Let [c] be made of token characters only (letters,
    digits, underscore, hyphen), 30 or more of them, not all digits.
    Wherever [c] occurs in the output of sanitizeError, however often, a
    run of token characters ends right before it that together with [c]
    starts with http: such a value survives only inside a run that looks
    like a URL.  In
    particular every maximal run of token characters of the output is
    shorter than 30, starts with http or is all digits: an opaque token of
    30 or more that is of neither kind is redacted.  A token of fewer than
    30 characters is not covered: on its own it comes out unchanged. *)
Theorem sanitizeError_long_token :
  (forall text c p s,
      tokens c = true -> (30 <= length c)%nat -> forallb isDigit c = false ->
      sanitizeError text = p ++ c ++ s ->
      exists p1 x, p = p1 ++ x /\ tokens x = true /\
                   startsWith (lit "http") (x ++ c) = true)
  /\ (forall text p r s,
        sanitizeError text = p ++ r ++ s ->
        tokens r = true -> lastNotToken p = true -> headNotToken s = true ->
        (length r < 30)%nat \/ startsWith (lit "http") r = true
        \/ forallb isDigit r = true)
  /\ (forall r,
        r <> [] -> tokens r = true -> (length r < 30)%nat -> sanitizeError r = r).
Proof.
  split; [|split].
  - apply sanitizeError_occurrence.
  - intros text p r s Hout Hr Hp Hs.
    destruct (Nat.lt_ge_cases (length r) 30) as [Hshort|Hlong]; [now left|].
    destruct (forallb isDigit r) eqn:Hdig; [now right; right|].
    right; left.
    destruct (sanitizeError_occurrence _ _ _ _ Hr Hlong Hdig Hout)
      as (p1 & x & -> & Hx & Hhttp).
    destruct x as [|d x]; [exact Hhttp|].
    unfold lastNotToken in Hp. rewrite tokens_last in Hp by (auto; discriminate).
    discriminate.
  - apply sanitizeError_short_token.
Qed.

Lemma sanitizeError_long_token_witness :
  (exists p1 x, lit "http" = p1 ++ x /\ tokens x = true
                /\ startsWith (lit "http") (x ++ longToken) = true)
  /\ ((length (lit "AbCdEfGhIjKlMnOpQrStUvWxY") < 30)%nat
      \/ startsWith (lit "http") (lit "AbCdEfGhIjKlMnOpQrStUvWxY") = true
      \/ forallb isDigit (lit "AbCdEfGhIjKlMnOpQrStUvWxY") = true)
  /\ sanitizeError (lit "AbCdEfGhIjKlMnOpQrStUvWxY") = lit "AbCdEfGhIjKlMnOpQrStUvWxY".
Proof.
  split; [|split].
  - apply (proj1 sanitizeError_long_token (lit "httpABCDEFGHIJKLMNOPQRSTUVWXYZabcdef")
             longToken (lit "http") []);
      [reflexivity | vm_compute; lia | reflexivity | vm_compute; reflexivity].
  - apply (proj1 (proj2 sanitizeError_long_token)
             (lit "401 for session AbCdEfGhIjKlMnOpQrStUvWxY, retry")
             (lit "401 for session ") (lit "AbCdEfGhIjKlMnOpQrStUvWxY") (lit ", retry"));
      vm_compute; reflexivity.
  - apply (proj2 (proj2 sanitizeError_long_token) (lit "AbCdEfGhIjKlMnOpQrStUvWxY"));
      [vm_compute; discriminate | vm_compute; reflexivity | vm_compute; lia].
Defined.

(** C1 as stated fails: a credential of 25 alphanumeric characters, which is
    no URL, has no dot and is not a number, goes through unchanged. *)
Lemma sanitizeError_keeps_short_token :
  sanitizeError (lit "401 for session AbCdEfGhIjKlMnOpQrStUvWxY")
  = lit "401 for session AbCdEfGhIjKlMnOpQrStUvWxY"
  /\ occursIn (lit "AbCdEfGhIjKlMnOpQrStUvWxY")
       (sanitizeError (lit "401 for session AbCdEfGhIjKlMnOpQrStUvWxY")).
Proof.
  split; [vm_compute; reflexivity|].
  exists (lit "401 for session "), []. vm_compute. reflexivity.
Qed.

(** The same input with the credential 32 long: redacted. *)
Example sanitizeError_redacts_long_token :
  sanitizeError (lit "401 for session ABCDEFGHIJKLMNOPQRSTUVWXYZabcdef, retry")
  = lit "401 for session ***, retry".
Proof. vm_compute. reflexivity. Qed.

Example sanitizeError_cookies :
  sanitizeError (lit "fail Cookie: ubid-main=133-1; at-main=Atza|x y")
  = lit "fail Cookie=***; at-main=*** y".
Proof. vm_compute. reflexivity. Qed.

(** *** resolvePrimaryVoiceDevice *)

Lemma find_first_match (before after : list Endpoint) e :
  Forall (fun x => isVoiceEnabled x = false) before -> isVoiceEnabled e = true ->
  List.find isVoiceEnabled (before ++ e :: after) = Some e.
Proof.
  intros Hb He. induction Hb as [|x before Hx _ IH]; simpl.
  - now rewrite He.
  - now rewrite Hx.
Qed.

Lemma find_no_match (endpoints : list Endpoint) :
  Forall (fun x => isVoiceEnabled x = false) endpoints ->
  List.find isVoiceEnabled endpoints = None.
Proof.
  induction 1 as [|x l Hx _ IH]; simpl; [reflexivity|]. now rewrite Hx.
Qed.

(** C3.  resolvePrimaryVoiceDevice looks for the display category
    ALEXA_VOICE_ENABLED and takes the first endpoint that has it, in list
    order: with none (the empty list included) it fails with the no-device
    error; when the first match has both legacy identifiers it is returned
    with them; when it lacks one it fails with the missing-identifiers
    error, whatever comes after it; the two errors differ; and on the list
    of scenario A the second entry is returned. *)
Theorem resolvePrimaryVoiceDevice_first_match :
  (* no voice-enabled endpoint, the empty list included *)
  (forall endpoints,
      Forall (fun x => primaryCategory x <> Some (lit "ALEXA_VOICE_ENABLED")) endpoints ->
      resolvePrimaryVoiceDevice endpoints = inl (Error Announce.NO_ECHO_MESSAGE))
  /\ resolvePrimaryVoiceDevice [] = inl (Error Announce.NO_ECHO_MESSAGE)
  (* the first match in list order is the one that counts *)
  /\ (forall before e after,
        Forall (fun x => primaryCategory x <> Some (lit "ALEXA_VOICE_ENABLED")) before ->
        primaryCategory e = Some (lit "ALEXA_VOICE_ENABLED") ->
        (forall dt sn, deviceType e = Some dt -> deviceSerialNumber e = Some sn ->
                       dt <> [] -> sn <> [] ->
           resolvePrimaryVoiceDevice (before ++ e :: after)
           = inr {| echoDevice := e; vd_deviceType := dt; vd_deviceSerialNumber := sn |})
        /\ (lacksLegacyIds e ->
            resolvePrimaryVoiceDevice (before ++ e :: after)
            = inl (Error Announce.MISSING_IDS_MESSAGE)))
  (* the two failures are told apart *)
  /\ Announce.NO_ECHO_MESSAGE <> Announce.MISSING_IDS_MESSAGE
  (* scenario A *)
  /\ resolvePrimaryVoiceDevice [otherEndpoint; voiceEndpoint]
     = inr {| echoDevice := voiceEndpoint; vd_deviceType := lit "T1";
              vd_deviceSerialNumber := lit "S1" |}.
Proof.
  assert (Hno : forall l : list Endpoint,
             Forall (fun x => primaryCategory x <> Some (lit "ALEXA_VOICE_ENABLED")) l ->
             Forall (fun x => isVoiceEnabled x = false) l).
  { induction 1 as [|x l Hx _ IH]; constructor; [|exact IH].
    unfold isVoiceEnabled. now apply bool_decide_eq_false_2. }
  split; [|split; [|split; [|split]]].
  - intros endpoints Hnone. unfold resolvePrimaryVoiceDevice, resolveVoiceDevice.
    now rewrite (find_no_match _ (Hno _ Hnone)).
  - reflexivity.
  - intros before e after Hbefore He.
    assert (Hfind : List.find isVoiceEnabled (before ++ e :: after) = Some e).
    { apply find_first_match; [now apply Hno|].
      unfold isVoiceEnabled. now apply bool_decide_eq_true_2. }
    unfold resolvePrimaryVoiceDevice, resolveVoiceDevice. rewrite Hfind. split.
    + intros dt sn -> -> Hdt Hsn. destruct dt, sn; try congruence. reflexivity.
    + unfold lacksLegacyIds, truthyOpt.
      destruct (deviceType e) as [dt|], (deviceSerialNumber e) as [sn|]; try reflexivity.
      intros [->| ->]; [reflexivity|]. now rewrite orb_true_r.
  - vm_compute. discriminate.
  - vm_compute. reflexivity.
Qed.

Lemma resolvePrimaryVoiceDevice_first_match_witness :
  resolvePrimaryVoiceDevice ([otherEndpoint] ++ voiceEndpoint :: [lightEndpoint])
  = inr voiceDevice.
Proof.
  apply (proj1 (proj1 (proj2 (proj2 resolvePrimaryVoiceDevice_first_match))
                  [otherEndpoint] voiceEndpoint [lightEndpoint]
                  ltac:(repeat constructor; vm_compute; discriminate)
                  eq_refl)
               (lit "T1") (lit "S1") eq_refl eq_refl);
    vm_compute; discriminate.
Defined.

(** *** The behavior sequence *)

Lemma escapeQuotes_map text : escapeQuotes text = map swapQuote text.
Proof.
  unfold escapeQuotes. induction text as [|c text IH]; [reflexivity|].
  cbn [replaceAll map]. unfold swapQuote at 1.
  destruct (c =? DQUOTE); cbn [pred app]; now rewrite IH.
Qed.

Lemma escapeQuotes_no_quote text : ~ In DQUOTE (escapeQuotes text).
Proof.
  rewrite escapeQuotes_map. intros Hin. apply in_map_iff in Hin as (c & Hc & _).
  unfold swapQuote in Hc. destruct (N.eqb_spec c DQUOTE); [discriminate|congruence].
Qed.

Lemma escapeQuotes_id text : ~ In DQUOTE text -> escapeQuotes text = text.
Proof.
  rewrite escapeQuotes_map. induction text as [|c text IH]; [reflexivity|].
  intros Hnot. simpl. rewrite IH by (intros H; apply Hnot; now right).
  unfold swapQuote. destruct (N.eqb_spec c DQUOTE) as [->|]; [|reflexivity].
  exfalso. apply Hnot. now left.
Qed.

Lemma escapeQuotes_length text : length (escapeQuotes text) = length text.
Proof. rewrite escapeQuotes_map. apply length_map. Qed.

(** C4.  escapeQuotes turns every double quote into a single quote and
    touches nothing else: no double quote is left, and a text without double
    quotes comes out as it went in.  The free-text field of each operation
    (textToSpeak, text, searchPhrase) is the escaped input; for the text
    Say QUOTE hi QUOTE the field is Say 'hi'. *)
Theorem escapeQuotes_free_text :
  (forall text, escapeQuotes text = map swapQuote text)
  /\ (forall text, ~ In DQUOTE (escapeQuotes text))
  /\ (forall text, ~ In DQUOTE text -> escapeQuotes text = text)
  /\ (forall dt sn customerId text,
        operationPayloadField (lit "textToSpeak") (announceOperationNode dt sn customerId text)
        = Some (JStr (escapeQuotes text)))
  /\ (forall dt sn customerId text,
        operationPayloadField (lit "text") (Music.textCommandOperationNode dt sn customerId text)
        = Some (JStr (escapeQuotes text)))
  /\ (forall dt sn customerId provider searchPhrase,
        operationPayloadField (lit "searchPhrase")
          (Music.playSearchPhraseOperationNode dt sn customerId provider searchPhrase)
        = Some (JStr (escapeQuotes searchPhrase)))
  /\ (forall dt sn customerId,
        operationPayloadField (lit "textToSpeak")
          (announceOperationNode dt sn customerId (lit "Say " ++ quoted "hi"))
        = Some (JStr (lit "Say 'hi'"))).
Proof.
  repeat split.
  - apply escapeQuotes_map.
  - apply escapeQuotes_no_quote.
  - apply escapeQuotes_id.
Qed.

Lemma escapeQuotes_free_text_witness :
  escapeQuotes (lit "Say 'hi' again") = lit "Say 'hi' again".
Proof.
  apply (proj1 (proj2 (proj2 escapeQuotes_free_text)) (lit "Say 'hi' again")).
  vm_compute. intros H.
  repeat (destruct H as [H|H]; [discriminate H|]). exact H.
Defined.

Lemma stringify_sequence node :
  stringify (sequenceJsonObj node) = SEQUENCE_PREFIX ++ stringify node ++ SEQUENCE_SUFFIX.
Proof.
  unfold sequenceJsonObj. cbn [stringify map fst snd joinWith].
  generalize (stringify node). intros s.
  unfold SEQUENCE_PREFIX, SEQUENCE_SUFFIX. repeat rewrite <- app_assoc.
  vm_compute. reflexivity.
Qed.

Lemma sequence_nests node : nestsTwoLevels (sequenceJsonObj node) node.
Proof. split; [reflexivity|]. eexists. repeat split. Qed.

(** *** The input limits of announceHandler *)

(** C10 as stated fails: with a blank ssml next to a message the text to
    speak, read as the ssml field, is empty, a violation; yet the handler
    takes the message,
    passes validation and goes to the network (three fetches here, all
    failing, and the answer 500). *)
Lemma announce_blank_ssml_uses_message :
  specTextToSpeak blankSsmlBody = []
  /\ textToSpeakRawOf offlineHost blankSsmlBody = inr (lit "Dinner is ready")
  /\ (let '(trace, result) :=
        run (announceHandler sampleRawEnv (inr (Some blankSsmlBody))) offlineHost in
      length trace = 3%nat
      /\ result = inr {| http_status := 500;
                         http_error := Some (lit "Failed to get device information");
                         http_details := Some (lit "fetch failed") |}).
Proof. vm_compute. repeat split. Qed.

(** C10, amended.  Once the environment has validated and the body has
    parsed to a value whose name, message and ssml are each a string, null
    or not there, with the name trimmed and the text to speak being the
    trimmed ssml when that is not empty and the trimmed message otherwise:
    an empty name, an empty text, a name longer than 40 or a text longer
    than 500 is answered with 400, and the trace is left as it was: nothing
    is asked of the network or of the directory. *)
Theorem announce_input_limits h rawEnv env parsed tr :
  EnvSchema_parse (isUrl h) rawEnv = Some env ->
  wellTyped parsed ->
  let name := trimmedName parsed in
  let text := textToSpeak parsed in
  name = [] \/ text = [] \/ (40 < length name)%nat \/ (500 < length text)%nat ->
  exists error,
    announceHandler rawEnv (inr (Some parsed)) h tr = (tr, inr (Announce.badRequest error)).
Proof.
  intros Hparse Htyped name text Hbad.
  destruct (EnvSchema_parse_credentials _ _ _ Hparse) as [Hu Ha].
  destruct (wellTyped_reads h parsed Htyped) as (Hbody & Hn & Ht).
  unfold announceHandler, bind at 1, askHost. rewrite Hparse, Hu, Ha. cbn [negb orb].
  rewrite Hbody. unfold bind at 1, lift. rewrite Hn. unfold bind at 1. rewrite Ht.
  fold name text.
  destruct (negb (truthy name) || negb (truthy text)) eqn:E1; [eexists; reflexivity|].
  destruct (Nat.ltb_spec 40 (length name)); [eexists; reflexivity|].
  destruct (Nat.ltb_spec 500 (length text)); [eexists; reflexivity|].
  exfalso. apply orb_false_iff in E1 as [E1 E2].
  destruct Hbad as [Hb|[Hb|[?|?]]]; try lia; rewrite Hb in *; discriminate.
Qed.

Lemma announce_input_limits_witness :
  exists error,
    announceHandler sampleRawEnv (inr (Some namelessBody)) onlineHost []
    = ([], inr (Announce.badRequest error)).
Proof.
  apply (announce_input_limits onlineHost sampleRawEnv sampleEnv namelessBody [] eq_refl).
  - repeat split.
  - left. vm_compute. reflexivity.
Defined.

(** What the declared type leaves out: a name or an ssml that is there and
    is no string makes the handler throw, nothing having been sent; a null
    body and a message that is no string are caught by the try block around
    the parse and answered 400. *)
Example announce_untyped_bodies :
  run (announceHandler sampleRawEnv
         (inr (Some {| name := FString (lit "Kitchen"); message := FString (lit "hi");
                       ssml := FOther false |}))) onlineHost
  = ([], inl (nativeError onlineHost (lit "parsed.ssml?.trim")))
  /\ run (announceHandler sampleRawEnv
            (inr (Some {| name := FOther true; message := FString (lit "hi");
                          ssml := FAbsent |}))) onlineHost
     = ([], inl (nativeError onlineHost (lit "(parsed.name ?? '').trim")))
  /\ run (announceHandler sampleRawEnv (inr None)) onlineHost
     = ([], inr {| http_status := 400; http_error := Some (lit "Invalid JSON body.");
                   http_details := Some (nativeErrorMessage onlineHost (lit "parsed.name")) |})
  /\ run (announceHandler sampleRawEnv
            (inr (Some {| name := FString (lit "Kitchen"); message := FOther true;
                          ssml := FAbsent |}))) onlineHost
     = ([], inr {| http_status := 400; http_error := Some (lit "Invalid JSON body.");
                   http_details :=
                     Some (nativeErrorMessage onlineHost (lit "parsed.message?.substring")) |}).
Proof. repeat split. Qed.

(** *** What is posted to behaviors/preview *)

Lemma buildAlexaHeadersWithCsrf_run env additional h tr :
  exists tr' token,
    buildAlexaHeadersWithCsrf env additional h tr
    = (tr', inr (buildAlexaHeaders env additional (Some token))).
Proof.
  destruct (getCsrfToken_total h env tr) as (token & [H|H]);
    eexists _, token; unfold buildAlexaHeadersWithCsrf;
    erewrite bind_returns by exact H; reflexivity.
Qed.

Lemma respond_trace result h tr : fst (respond result h tr) = tr.
Proof. unfold respond, bind, askHost. now destruct (_ || _). Qed.

Lemma postAnnouncement_posts env customerId device text h tr :
  exists tr' ev,
    fst (postAnnouncement env customerId device text h tr) = tr' ++ [ev]
    /\ isPreviewPostOf
         (announceBehaviorCommand (vd_deviceType device) (vd_deviceSerialNumber device)
            customerId text) ev.
Proof.
  destruct (buildAlexaHeadersWithCsrf_run env (Some previewHeaders) h tr)
    as (tr' & token & Hrun).
  unfold postAnnouncement. erewrite bind_returns by exact Hrun.
  eexists tr', _. split.
  - unfold bind, fetch.
    destruct (fetchResult h tr' _) as [e|res]; [reflexivity|].
    destruct (negb (res_ok res)); [destruct (res_status res =? 500)%Z|];
      try reflexivity.
    apply respond_trace.
  - eexists. reflexivity.
Qed.

Lemma postBehavior_posts env command failure h tr :
  exists tr' ev,
    fst (Music.postBehavior env command failure h tr) = tr' ++ [ev]
    /\ isPreviewPostOf command ev.
Proof.
  destruct (buildAlexaHeadersWithCsrf_run env (Some previewHeaders) h tr)
    as (tr' & token & Hrun).
  unfold Music.postBehavior. erewrite bind_returns by exact Hrun.
  eexists tr', _. split.
  - unfold bind, fetch.
    destruct (fetchResult h tr' _) as [e|res]; [reflexivity|].
    destruct (negb (res_ok res)); [apply respond_trace|reflexivity].
  - eexists. reflexivity.
Qed.

(** C5.  Whatever the operation (Speak, TextCommand,
    Music.PlaySearchPhrase) and its payload, the behavior command is the
    object with behaviorId PREVIEW, the serialized sequence as sequenceJson
    and status ENABLED; the sequence is a Sequence whose startNode is a
    ParallelNode whose nodesToExecute holds the operation node alone, which
    shows in the serialized text too; and this command, serialized, is the
    body the handlers post to behaviors/preview. *)
Theorem behaviorCommand_envelope :
  (forall node,
      behaviorCommand (sequenceJsonObj node)
      = previewEnvelope (stringify (sequenceJsonObj node))
      /\ nestsTwoLevels (sequenceJsonObj node) node
      /\ stringify (sequenceJsonObj node)
         = SEQUENCE_PREFIX ++ stringify node ++ SEQUENCE_SUFFIX)
  /\ (forall dt sn customerId text,
        let node := announceOperationNode dt sn customerId text in
        announceBehaviorCommand dt sn customerId text = behaviorCommand (sequenceJsonObj node)
        /\ field (lit "type") node = Some (JStr (lit "Alexa.Speak")))
  /\ (forall dt sn customerId text,
        let node := Music.textCommandOperationNode dt sn customerId text in
        Music.textCommandBehavior dt sn customerId text = behaviorCommand (sequenceJsonObj node)
        /\ field (lit "type") node = Some (JStr (lit "Alexa.TextCommand")))
  /\ (forall dt sn customerId provider searchPhrase,
        let node := Music.playSearchPhraseOperationNode dt sn customerId provider searchPhrase in
        Music.playSearchPhraseBehavior dt sn customerId provider searchPhrase
        = behaviorCommand (sequenceJsonObj node)
        /\ field (lit "type") node = Some (JStr (lit "Alexa.Music.PlaySearchPhrase")))
  /\ (forall env customerId device text h tr,
        exists tr' ev,
          fst (postAnnouncement env customerId device text h tr) = tr' ++ [ev]
          /\ isPreviewPostOf
               (announceBehaviorCommand (vd_deviceType device) (vd_deviceSerialNumber device)
                  customerId text) ev)
  /\ (forall env command failure h tr,
        exists tr' ev,
          fst (Music.postBehavior env command failure h tr) = tr' ++ [ev]
          /\ isPreviewPostOf command ev).
Proof.
  split; [|split; [|split; [|split; [|split]]]].
  - intros node. split; [reflexivity|]. split; [apply sequence_nests|apply stringify_sequence].
  - intros. split; reflexivity.
  - intros. split; reflexivity.
  - intros. split; reflexivity.
  - apply postAnnouncement_posts.
  - apply postBehavior_posts.
Qed.

(** *** buildAlexaHeaders *)

Ltac lit_neq := let H := fresh in intros H; vm_compute in H; discriminate H.

Ltac lookup_header :=
  repeat first
    [ rewrite lookup_insert_eq; reflexivity
    | rewrite lookup_insert_ne by lit_neq ].

(** C6.  The header map of buildAlexaHeaders: every extra header wins; where
    the extras are silent, Cookie is csrf=1 with ubid-main and at-main (the
    canonical names, whatever the cookie suffix of the environment) around
    the two credential values, csrf is the given token or 1 when none is
    given, and Accept, Accept-Language and User-Agent are the fixed strings;
    any other name is there only if the extras bring it. *)
Theorem buildAlexaHeaders_entries (env : Env)
    (additional : option (gmap jsstring jsstring)) (csrfToken : option jsstring) :
  let headers := buildAlexaHeaders env additional csrfToken in
  let extra : gmap jsstring jsstring := default ∅ additional in
  (forall k v, extra !! k = Some v -> headers !! k = Some v)
  /\ (extra !! lit "Cookie" = None ->
      headers !! lit "Cookie"
      = Some (lit "csrf=1; ubid-main=" ++ UBID_MAIN env ++ lit "; at-main=" ++ AT_MAIN env))
  /\ (extra !! lit "csrf" = None ->
      headers !! lit "csrf" = Some (default (lit "1") csrfToken))
  /\ (extra !! lit "Accept" = None ->
      headers !! lit "Accept" = Some (lit "application/json; charset=utf-8"))
  /\ (extra !! lit "Accept-Language" = None ->
      headers !! lit "Accept-Language" = Some (lit "en-US"))
  /\ (extra !! lit "User-Agent" = None ->
      headers !! lit "User-Agent" = Some USER_AGENT)
  /\ (forall k,
        ~ In k [lit "Cookie"; lit "csrf"; lit "Accept"; lit "Accept-Language"; lit "User-Agent"] ->
        headers !! k = extra !! k)
  /\ (additional = None -> csrfToken = None ->
      headers !! lit "csrf" = Some (lit "1")).
Proof.
  intros headers extra. subst headers. unfold buildAlexaHeaders. fold extra.
  split; [|split; [|split; [|split; [|split; [|split; [|split]]]]]].
  - intros k v Hk. now apply lookup_union_Some_l.
  - intros Hk. rewrite lookup_union_r by exact Hk. lookup_header.
  - intros Hk. rewrite lookup_union_r by exact Hk. lookup_header.
  - intros Hk. rewrite lookup_union_r by exact Hk. lookup_header.
  - intros Hk. rewrite lookup_union_r by exact Hk. lookup_header.
  - intros Hk. rewrite lookup_union_r by exact Hk. lookup_header.
  - intros k Hk. simpl in Hk.
    destruct (extra !! k) as [v|] eqn:E.
    + now apply lookup_union_Some_l.
    + rewrite lookup_union_r by exact E.
      rewrite !lookup_insert_ne by (intros <-; tauto).
      apply lookup_empty.
  - intros Ha Hc. subst extra. rewrite Ha, Hc. simpl.
    rewrite lookup_union_r by apply lookup_empty. lookup_header.
Qed.

Lemma buildAlexaHeaders_entries_witness :
  buildAlexaHeaders sampleEnv (Some overrideHeaders) (Some (lit "token")) !! lit "csrf"
  = Some (lit "override")
  /\ buildAlexaHeaders sampleEnv (Some overrideHeaders) (Some (lit "token")) !! lit "Cookie"
     = Some (lit "csrf=1; ubid-main=" ++ UBID_MAIN sampleEnv ++
             lit "; at-main=" ++ AT_MAIN sampleEnv)
  /\ buildAlexaHeaders sampleEnv None None !! lit "csrf" = Some (lit "1").
Proof.
  split; [|split].
  - apply (proj1 (buildAlexaHeaders_entries sampleEnv (Some overrideHeaders)
                    (Some (lit "token")))).
    vm_compute. reflexivity.
  - apply (proj1 (proj2 (buildAlexaHeaders_entries sampleEnv (Some overrideHeaders)
                           (Some (lit "token"))))).
    vm_compute. reflexivity.
  - apply (proj2 (proj2 (proj2 (proj2 (proj2 (proj2 (proj2
             (buildAlexaHeaders_entries sampleEnv None None)))))))); reflexivity.
Defined.

(** *** The directory cache *)

Lemma readSlot_fresh {V} now (fetched : Exn + V) e :
  (now - DirectoryCache.fetchedAt e <= DirectoryCache.TTL)%Z ->
  DirectoryCache.readSlot now fetched (Some e) = (Some e, false, inr (DirectoryCache.value e)).
Proof.
  intros Hfresh. unfold DirectoryCache.readSlot, DirectoryCache.expired.
  destruct (Z.ltb_spec DirectoryCache.TTL (now - DirectoryCache.fetchedAt e)); [lia|reflexivity].
Qed.

Lemma readSlot_expired {V} now (fetched : Exn + V) e :
  (DirectoryCache.TTL < now - DirectoryCache.fetchedAt e)%Z ->
  DirectoryCache.readSlot now fetched (Some e)
  = match fetched with
    | inr v => (Some (DirectoryCache.mkEntry v now), true, inr v)
    | inl err => (Some e, true, inl err)
    end.
Proof.
  intros Hold. unfold DirectoryCache.readSlot, DirectoryCache.expired.
  destruct (Z.ltb_spec DirectoryCache.TTL (now - DirectoryCache.fetchedAt e)); [reflexivity|lia].
Qed.

Ltac ttl_policy read :=
  intros up d; split; [|split];
  [ intros e now1 now2 Hslot H1 H2;
    assert (Hread : forall now, (now - DirectoryCache.fetchedAt e <= DirectoryCache.TTL)%Z ->
                                read up now d = (d, inr (DirectoryCache.value e)))
      by (intros now Hnow; unfold read; rewrite Hslot;
          rewrite readSlot_fresh by exact Hnow; destruct d; simpl in Hslot; subst;
          reflexivity);
    cbv zeta; rewrite (Hread now1 H1); cbn [fst snd]; rewrite (Hread now2 H2); auto
  | intros e now Hslot Hold; unfold read; rewrite Hslot;
    rewrite readSlot_expired by assumption;
    match goal with |- context [match ?f with inl _ => _ | inr _ => _ end] =>
      destruct f end; simpl; repeat split; congruence
  | intros now Hslot; unfold read; rewrite Hslot; unfold DirectoryCache.readSlot;
    match goal with |- context [match ?f with inl _ => _ | inr _ => _ end] =>
      destruct f end; simpl; repeat split; congruence ].

(** C7.  Each read of the directory keeps its own (value, fetchedAt) pair
    under the fixed TTL: two reads within the window give the cached value
    and fetch nothing; a read after expiry fetches exactly once, gives what
    upstream gave and stamps the new entry with the time of the read; and a
    read leaves the slots of the other two reads alone. *)
Theorem directory_cache_ttl :
  TtlPolicy DirectoryCache.getAccountInfo DirectoryCache.accountSlot
    DirectoryCache.up_accountInfo DirectoryCache.AccountInfoRead
  /\ TtlPolicy DirectoryCache.listSmartHomeEndpoints DirectoryCache.endpointSlot
       DirectoryCache.up_endpoints DirectoryCache.SmartHomeEndpointsRead
  /\ TtlPolicy DirectoryCache.listDevices DirectoryCache.deviceSlot
       DirectoryCache.up_devices DirectoryCache.DevicesRead
  /\ (forall up now d,
        let d1 := fst (DirectoryCache.getAccountInfo up now d) in
        let d2 := fst (DirectoryCache.listSmartHomeEndpoints up now d) in
        let d3 := fst (DirectoryCache.listDevices up now d) in
        DirectoryCache.endpointSlot d1 = DirectoryCache.endpointSlot d
        /\ DirectoryCache.deviceSlot d1 = DirectoryCache.deviceSlot d
        /\ DirectoryCache.accountSlot d2 = DirectoryCache.accountSlot d
        /\ DirectoryCache.deviceSlot d2 = DirectoryCache.deviceSlot d
        /\ DirectoryCache.accountSlot d3 = DirectoryCache.accountSlot d
        /\ DirectoryCache.endpointSlot d3 = DirectoryCache.endpointSlot d).
Proof.
  split; [|split; [|split]].
  - ttl_policy DirectoryCache.getAccountInfo.
  - ttl_policy DirectoryCache.listSmartHomeEndpoints.
  - ttl_policy DirectoryCache.listDevices.
  - intros up now d.
    unfold DirectoryCache.getAccountInfo, DirectoryCache.listSmartHomeEndpoints,
      DirectoryCache.listDevices.
    repeat match goal with
           | |- context [DirectoryCache.readSlot ?n ?f ?s] =>
               destruct (DirectoryCache.readSlot n f s) as [[? ?] ?]
           end.
    simpl. auto 10.
Qed.

Lemma directory_cache_ttl_witness :
  (snd (DirectoryCache.getAccountInfo sampleUpstream 1000 warmDirectory) = inr sampleAccount
   /\ snd (DirectoryCache.getAccountInfo sampleUpstream 300000
             (fst (DirectoryCache.getAccountInfo sampleUpstream 1000 warmDirectory)))
      = inr sampleAccount
   /\ fst (DirectoryCache.getAccountInfo sampleUpstream 300000
             (fst (DirectoryCache.getAccountInfo sampleUpstream 1000 warmDirectory)))
      = warmDirectory)
  /\ (DirectoryCache.upstreamCalls
        (fst (DirectoryCache.getAccountInfo sampleUpstream 300001 warmDirectory))
      = [DirectoryCache.AccountInfoRead; DirectoryCache.AccountInfoRead]
      /\ snd (DirectoryCache.getAccountInfo sampleUpstream 300001 warmDirectory)
         = inr sampleAccount
      /\ (forall v,
             DirectoryCache.up_accountInfo sampleUpstream
               (DirectoryCache.upstreamCalls warmDirectory) = inr v ->
             DirectoryCache.accountSlot
               (fst (DirectoryCache.getAccountInfo sampleUpstream 300001 warmDirectory))
             = Some (DirectoryCache.mkEntry v 300001))).
Proof.
  split.
  - apply (proj1 (proj1 directory_cache_ttl sampleUpstream warmDirectory)
             (DirectoryCache.mkEntry sampleAccount 0) 1000%Z 300000%Z eq_refl);
      vm_compute; discriminate.
  - apply (proj1 (proj2 (proj1 directory_cache_ttl sampleUpstream warmDirectory))
             (DirectoryCache.mkEntry sampleAccount 0) 300001%Z eq_refl).
    vm_compute. reflexivity.
Defined.

(** *** musicControlHandler *)

Lemma assoc_In key entries v :
  Music.assoc key entries = Some v -> In (key, v) entries.
Proof.
  induction entries as [|[k w] rest IH]; simpl; [discriminate|].
  destruct (decide (key = k)) as [->|]; [intros [= ->]; now left|].
  intros H. right. now apply IH.
Qed.

Lemma textCommandOf_phrase h commandType phrase :
  Music.assoc commandType Music.textCommandMap = Some phrase ->
  Music.textCommandOf h commandType = inr phrase.
Proof.
  intros Hassoc. unfold Music.textCommandOf, Music.lookup. rewrite Hassoc.
  apply assoc_In in Hassoc. simpl in Hassoc.
  repeat (destruct Hassoc as [[= <- <-]|Hassoc]; [reflexivity|]).
  contradiction.
Qed.

Lemma phrase_unescaped commandType phrase :
  Music.assoc commandType Music.textCommandMap = Some phrase ->
  escapeQuotes phrase = phrase.
Proof.
  intros Hassoc. apply assoc_In in Hassoc. simpl in Hassoc.
  repeat (destruct Hassoc as [[= <- <-]|Hassoc]; [vm_compute; reflexivity|]).
  contradiction.
Qed.

Lemma commandMap_word_truthy word commandType :
  Music.assoc word Music.commandMap = Some commandType -> truthy word = true.
Proof. destruct word; [vm_compute; discriminate|reflexivity]. Qed.

Lemma ask_then {A} (k : Host -> M A) h tr : bind askHost k h tr = k h h tr.
Proof. reflexivity. Qed.

Lemma lift_then {A B} (a : A) (k : A -> M B) h tr : bind (lift (inr a)) k h tr = k a h tr.
Proof. reflexivity. Qed.

Lemma lift_throws {A B} e (k : A -> M B) h tr : bind (lift (inl e)) k h tr = (tr, inl e).
Proof. reflexivity. Qed.

Lemma withEnv_valid h rawEnv env k tr :
  EnvSchema_parse (isUrl h) rawEnv = Some env ->
  Music.withEnv rawEnv k h tr = k env h tr.
Proof.
  intros Hparse. destruct (EnvSchema_parse_credentials _ _ _ Hparse) as [Hu Ha].
  unfold Music.withEnv, bind, askHost. now rewrite Hparse, Hu, Ha.
Qed.

(** What postBehavior sends, whatever comes back. *)
Lemma postBehavior_request env node failure h tr :
  exists tr' headers,
    fst (Music.postBehavior env (behaviorCommand (sequenceJsonObj node)) failure h tr)
    = tr' ++ [Fetch (previewPost headers node)].
Proof.
  destruct (postBehavior_posts env (behaviorCommand (sequenceJsonObj node)) failure h tr)
    as (tr' & ev & Htr & headers & ->).
  exists tr', headers. rewrite Htr. unfold previewPost.
  now rewrite <- stringify_sequence.
Qed.

Lemma textCommandBehavior_node dt sn customerId text :
  Music.textCommandBehavior dt sn customerId text
  = behaviorCommand (sequenceJsonObj (textCommandNode dt sn customerId (map swapQuote text))).
Proof.
  unfold Music.textCommandBehavior, Music.textCommandOperationNode. cbv zeta.
  now rewrite escapeQuotes_map.
Qed.

Lemma playSearchPhraseBehavior_node dt sn customerId provider searchPhrase :
  Music.playSearchPhraseBehavior dt sn customerId provider searchPhrase
  = behaviorCommand
      (sequenceJsonObj
         (playSearchPhraseNode dt sn customerId provider (map swapQuote searchPhrase))).
Proof.
  unfold Music.playSearchPhraseBehavior, Music.playSearchPhraseOperationNode. cbv zeta.
  now rewrite escapeQuotes_map.
Qed.

Lemma musicControlHandler_posts h rawEnv env tr parsedCommand commandType phrase
      device customerId tr1 tr2 :
  EnvSchema_parse (isUrl h) rawEnv = Some env ->
  Music.assoc (trim (toLowerCase h parsedCommand)) Music.commandMap = Some commandType ->
  Music.assoc commandType Music.textCommandMap = Some phrase ->
  Music.orServerError (lit "Failed to get device information") (Music.resolveEcho env) h tr
  = (tr1, inr (inr device)) ->
  Music.orServerError (lit "Failed to get customer ID") (fetchCustomerId env) h tr1
  = (tr2, inr (inr customerId)) ->
  Music.musicControlHandler rawEnv (inr (Some (FString parsedCommand))) h tr
  = Music.postBehavior env
      (Music.textCommandBehavior (vd_deviceType device) (vd_deviceSerialNumber device)
         customerId phrase)
      (lit "Music control failed: ") h tr2.
Proof.
  intros Hparse Hword Hphrase Hdevice Hcustomer.
  unfold Music.musicControlHandler. rewrite (withEnv_valid _ _ _ _ _ Hparse).
  rewrite ask_then. cbn [Music.readProperty]. rewrite lift_then.
  cbn [Music.callOptional]. rewrite lift_then. cbn [truthyOpt default].
  rewrite (commandMap_word_truthy _ _ Hword). cbn [negb].
  unfold Datatypes.id, Music.lookup at 1. rewrite Hword.
  erewrite bind_returns by exact Hdevice. cbv beta iota.
  erewrite bind_returns by exact Hcustomer. cbv beta iota.
  unfold bind at 1, lift. now rewrite (textCommandOf_phrase _ _ _ Hphrase).
Qed.

Lemma musicControlHandler_endpoints rawEnv body :
  Emits (fun ev => fetchesOnly MUSIC_ENDPOINTS ev = true)
    (Music.musicControlHandler rawEnv body).
Proof. unfold Music.musicControlHandler, Music.withEnv. emits_handler. Qed.

(** C8.  The six playback command types have their canonical phrases; every
    command word of the handler names one of them; the operation built for
    a phrase is an Alexa.TextCommand whose text is the phrase; and once the
    device and the customer id are known, musicControlHandler goes on to
    post exactly that behavior to behaviors/preview: the last event of the
    run is the POST whose body is the envelope around the sequence that
    holds the Alexa.TextCommand node with the phrase as its text.  No
    request of the handler goes anywhere but to the two csrf probes, the
    customer id and behaviors/preview: the playback endpoint is not used. *)
Theorem playback_commands_as_text_commands :
  (forall h,
      Music.textCommandOf h (lit "PlayCommand") = inr (lit "resume music")
      /\ Music.textCommandOf h (lit "PauseCommand") = inr (lit "pause music")
      /\ Music.textCommandOf h (lit "NextCommand") = inr (lit "next song")
      /\ Music.textCommandOf h (lit "PreviousCommand") = inr (lit "previous song")
      /\ Music.textCommandOf h (lit "ForwardCommand") = inr (lit "fast forward")
      /\ Music.textCommandOf h (lit "RewindCommand") = inr (lit "rewind"))
  /\ (forall word commandType,
        Music.assoc word Music.commandMap = Some commandType ->
        exists phrase, Music.assoc commandType Music.textCommandMap = Some phrase)
  /\ (forall commandType phrase dt sn customerId,
        Music.assoc commandType Music.textCommandMap = Some phrase ->
        let node := Music.textCommandOperationNode dt sn customerId phrase in
        field (lit "type") node = Some (JStr (lit "Alexa.TextCommand"))
        /\ operationPayloadField (lit "text") node = Some (JStr phrase))
  /\ (forall h rawEnv env tr parsedCommand commandType phrase device customerId tr1 tr2,
        EnvSchema_parse (isUrl h) rawEnv = Some env ->
        Music.assoc (trim (toLowerCase h parsedCommand)) Music.commandMap = Some commandType ->
        Music.assoc commandType Music.textCommandMap = Some phrase ->
        Music.orServerError (lit "Failed to get device information") (Music.resolveEcho env) h tr
        = (tr1, inr (inr device)) ->
        Music.orServerError (lit "Failed to get customer ID") (fetchCustomerId env) h tr1
        = (tr2, inr (inr customerId)) ->
        let handler :=
          Music.musicControlHandler rawEnv (inr (Some (FString parsedCommand))) h tr in
        handler
        = Music.postBehavior env
            (Music.textCommandBehavior (vd_deviceType device) (vd_deviceSerialNumber device)
               customerId phrase)
            (lit "Music control failed: ") h tr2
        /\ exists tr3 headers,
             fst handler
             = tr3 ++ [Fetch (previewPost headers
                                (textCommandNode (vd_deviceType device)
                                   (vd_deviceSerialNumber device) customerId phrase))])
  /\ (forall rawEnv body,
        Emits (fun ev => fetchesOnly MUSIC_ENDPOINTS ev = true)
          (Music.musicControlHandler rawEnv body)).
Proof.
  split; [|split; [|split; [|split]]].
  - intros h. repeat split; now apply textCommandOf_phrase.
  - intros word commandType Hword. apply assoc_In in Hword. simpl in Hword.
    repeat (destruct Hword as [[= <- <-]|Hword]; [eexists; reflexivity|]).
    contradiction.
  - intros commandType phrase dt sn customerId Hphrase node. split; [reflexivity|].
    subst node. unfold Music.textCommandOperationNode.
    now rewrite (phrase_unescaped _ _ Hphrase).
  - intros h rawEnv env tr parsedCommand commandType phrase device customerId tr1 tr2
      Hparse Hword Hphrase Hdevice Hcustomer handler.
    assert (Hh : handler
                 = Music.postBehavior env
                     (Music.textCommandBehavior (vd_deviceType device)
                        (vd_deviceSerialNumber device) customerId phrase)
                     (lit "Music control failed: ") h tr2)
      by now apply (musicControlHandler_posts _ _ _ _ _ commandType _ _ _ tr1).
    split; [exact Hh|]. rewrite Hh, textCommandBehavior_node.
    rewrite <- escapeQuotes_map, (phrase_unescaped _ _ Hphrase).
    apply postBehavior_request.
  - apply musicControlHandler_endpoints.
Qed.

Lemma playback_commands_as_text_commands_witness :
  (exists phrase, Music.assoc (lit "PreviousCommand") Music.textCommandMap = Some phrase)
  /\ (field (lit "type")
        (Music.textCommandOperationNode (lit "T1") (lit "S1") (lit "A1CUSTOMER")
           (lit "pause music"))
      = Some (JStr (lit "Alexa.TextCommand"))
      /\ operationPayloadField (lit "text")
           (Music.textCommandOperationNode (lit "T1") (lit "S1") (lit "A1CUSTOMER")
              (lit "pause music"))
         = Some (JStr (lit "pause music")))
  /\ exists tr3 headers,
       fst (Music.musicControlHandler sampleRawEnv (inr (Some (FString (lit " pause "))))
              onlineHost [])
       = tr3 ++ [Fetch (previewPost headers
                          (textCommandNode (lit "T1") (lit "S1") (lit "A1CUSTOMER")
                             (lit "pause music")))].
Proof.
  split; [|split].
  - apply (proj1 (proj2 playback_commands_as_text_commands) (lit "prev")).
    vm_compute. reflexivity.
  - apply (proj1 (proj2 (proj2 playback_commands_as_text_commands))
             (lit "PauseCommand") (lit "pause music")).
    vm_compute. reflexivity.
  - apply (proj2 (proj1 (proj2 (proj2 (proj2 playback_commands_as_text_commands)))
             onlineHost sampleRawEnv sampleEnv [] (lit " pause ") (lit "PauseCommand")
             (lit "pause music") voiceDevice (lit "A1CUSTOMER")
             (fst pauseDeviceRun) (fst pauseCustomerRun)
             ltac:(vm_compute; reflexivity) ltac:(vm_compute; reflexivity)
             ltac:(vm_compute; reflexivity) ltac:(vm_compute; reflexivity)
             ltac:(vm_compute; reflexivity))).
Defined.

(** The whole handler on the sample host: six events, the last one the post
    to behaviors/preview, and the answer 200. *)
Example musicControlHandler_pause :
  let '(trace, result) :=
    run (Music.musicControlHandler sampleRawEnv (inr (Some (FString (lit " pause ")))))
      onlineHost in
  result = inr {| http_status := 200; http_error := None; http_details := None |}
  /\ map isPreviewPost trace = [false; false; false; false; false; false; true]
  /\ exists headers,
       last trace
       = Some (Fetch (previewPost headers
                        (textCommandNode (lit "T1") (lit "S1") (lit "A1CUSTOMER")
                           (lit "pause music")))).
Proof.
  vm_compute. split; [reflexivity|]. split; [reflexivity|].
  eexists. reflexivity.
Qed.

(** *** The csrf cookie *)

(** What the match of getCsrfToken captures: the text right after some
    [csrf=], not empty, up to the next semicolon or the end. *)
Lemma matchCsrf_captures s v :
  matchCsrf s = Some v ->
  exists pre post,
    s = pre ++ lit "csrf=" ++ v ++ post
    /\ v <> []
    /\ forallb (fun c => negb (c =? 59)) v = true
    /\ match post with [] => True | c :: _ => c = 59 end.
Proof.
  induction s as [|a s IH]; [discriminate|].
  cbn [matchCsrf].
  destruct (stripPrefix N.eqb (lit "csrf=") (a :: s)) as [rest|] eqn:Hstrip.
  - destruct (takeWhile (fun c => negb (c =? 59)) rest) as [|d t] eqn:Htake.
    + intros Hm. destruct (IH Hm) as (pre & post & -> & Hrest).
      now exists (a :: pre), post.
    + intros [= <-]. apply stripPrefix_eq in Hstrip.
      exists [], (dropWhile (fun c => negb (c =? 59)) rest).
      rewrite <- Htake, takeWhile_dropWhile. split; [exact Hstrip|].
      split; [rewrite Htake; discriminate|].
      split; [apply takeWhile_all|].
      pose proof (dropWhile_head (fun c => negb (c =? 59)) rest) as Hhead.
      destruct (dropWhile _ rest) as [|c post]; [exact I|].
      apply negb_false_iff, N.eqb_eq in Hhead. exact Hhead.
  - intros Hm. destruct (IH Hm) as (pre & post & -> & Hrest).
    now exists (a :: pre), post.
Qed.

Example matchCsrf_sample :
  matchCsrf (lit "session-id=1; csrf=-1234567; Path=/") = Some (lit "-1234567").
Proof. vm_compute. reflexivity. Qed.

(** * Further properties of the code *)

(** ** sanitizeError and createSafeErrorResponse *)

Lemma replaceAll_nonempty m s :
  (forall t n r, m t = Some (n, r) -> r <> []) -> s <> [] -> replaceAll m 0 s <> [].
Proof.
  intros Hm Hs. destruct s as [|c s]; [congruence|]. cbn [replaceAll].
  destruct (m (c :: s)) as [[n r]|] eqn:E; [|discriminate].
  specialize (Hm _ _ _ E). destruct r; [congruence|discriminate].
Qed.

Lemma redactCookie_nonempty name replacement s :
  replacement <> [] -> s <> [] -> redactCookie name replacement s <> [].
Proof.
  intros Hr Hs. apply replaceAll_nonempty; [|exact Hs].
  intros t n r. destruct (matchCookie name t); [|discriminate]. now intros [= _ <-].
Qed.

Lemma redactLongTokens_nonempty s : s <> [] -> redactLongTokens s <> [].
Proof.
  apply replaceAll_nonempty. intros t n r. unfold matchLongToken.
  destruct (Nat.leb_spec 20 (length (takeWhile isTokenChar t))) as [Hlen|]; [|discriminate].
  intros [= _ <-]. unfold redactToken.
  destruct (keepToken _); [|discriminate].
  destruct (takeWhile isTokenChar t); [simpl in Hlen; lia|discriminate].
Qed.

(** X1.  sanitizeError never gives the empty string, whatever the input, so
    the error of createSafeErrorResponse is never empty; the status goes
    through unchanged. *)
Theorem sanitizeError_never_empty :
  (forall text, sanitizeError text <> [])
  /\ (forall status errorText,
        fst (createSafeErrorResponse status errorText) <> []
        /\ snd (createSafeErrorResponse status errorText) = status).
Proof.
  assert (H : forall text, sanitizeError text <> []).
  { intros text. unfold sanitizeError. destruct text as [|c text]; [discriminate|].
    cbn [truthy negb].
    apply redactLongTokens_nonempty.
    repeat (apply redactCookie_nonempty; [discriminate|]). discriminate. }
  split; [exact H|]. intros status errorText. split; [apply H|reflexivity].
Qed.

Lemma flush_harmless r : harmless r -> flush r = r.
Proof.
  intros Hh. unfold flush.
  destruct (Nat.leb_spec 20 (length r)) as [Hlen|]; [|reflexivity].
  unfold redactToken, keepToken.
  destruct Hh as [Hshort|[Hhttp|Hdigits]].
  - apply Nat.ltb_lt in Hshort. rewrite Hshort. now rewrite !orb_true_r.
  - now rewrite Hhttp.
  - rewrite Hdigits. destruct r; [simpl in Hlen; lia|].
    cbn [truthy andb]. now rewrite !orb_true_r.
Qed.

Lemma Clean_fixed o : Clean o -> redactLongTokens o = o.
Proof.
  induction 1 as [|c l Hc _ IH|r l Hr Hh Hhead _ IH].
  - reflexivity.
  - rewrite redact_sep by exact Hc. now rewrite IH.
  - rewrite redact_run by assumption. now rewrite IH, flush_harmless.
Qed.

Lemma flush_length r : (length (flush r) <= length r)%nat.
Proof.
  unfold flush. destruct (Nat.leb_spec 20 (length r)) as [Hlen|]; [|lia].
  unfold redactToken, keepToken.
  destruct (Nat.ltb_spec (length r) 30) as [Hshort|Hlong].
  - rewrite !orb_true_r. lia.
  - destruct (_ || _); [lia|]. simpl. lia.
Qed.

Lemma redactLongTokens_length s : (length (redactLongTokens s) <= length s)%nat.
Proof.
  remember (length s) as n eqn:Hn. revert s Hn.
  induction n as [n IH] using lt_wf_ind. intros s Hn.
  destruct s as [|c s]; [simpl; lia|].
  destruct (isTokenChar c) eqn:Hc.
  - pose proof (takeWhile_dropWhile isTokenChar (c :: s)) as Hsplit.
    pose proof (takeWhile_all isTokenChar (c :: s)) as Hall.
    pose proof (dropWhile_head isTokenChar (c :: s)) as Hhead.
    assert (Hrest : headNotToken (dropWhile isTokenChar (c :: s)) = true).
    { unfold headNotToken. destruct (dropWhile isTokenChar (c :: s)); [reflexivity|].
      now rewrite Hhead. }
    assert (Hlen : (length (takeWhile isTokenChar (c :: s))
                    + length (dropWhile isTokenChar (c :: s)) = n)%nat).
    { rewrite <- length_app, Hsplit. now subst. }
    assert (Hpos : (0 < length (takeWhile isTokenChar (c :: s)))%nat).
    { simpl. rewrite Hc. simpl. lia. }
    rewrite <- Hsplit at 1. rewrite redact_run by assumption.
    rewrite length_app.
    pose proof (flush_length (takeWhile isTokenChar (c :: s))).
    assert ((length (redactLongTokens (dropWhile isTokenChar (c :: s)))
             <= length (dropWhile isTokenChar (c :: s)))%nat)
      by (eapply IH; [|reflexivity]; lia).
    lia.
  - rewrite redact_sep by exact Hc. simpl.
    assert ((length (redactLongTokens s) <= length s)%nat)
      by (eapply IH; [|reflexivity]; subst; simpl; lia).
    subst. simpl. lia.
Qed.

(** X2.  The replace of long tokens is idempotent and never makes the text
    longer: run on its own output, and so on any output of sanitizeError, it
    changes nothing. *)
Theorem redactLongTokens_idempotent :
  (forall s, redactLongTokens (redactLongTokens s) = redactLongTokens s)
  /\ (forall text, redactLongTokens (sanitizeError text) = sanitizeError text)
  /\ (forall s, (length (redactLongTokens s) <= length s)%nat).
Proof.
  split; [|split].
  - intros s. apply Clean_fixed, redactLongTokens_clean.
  - intros text. unfold sanitizeError.
    destruct (negb (truthy text)); [vm_compute; reflexivity|].
    apply Clean_fixed, redactLongTokens_clean.
  - apply redactLongTokens_length.
Qed.

(** ** isAmazonDomain *)

Lemma endsWith_spec suffix s :
  Domain.endsWith suffix s = true <-> exists pre, s = pre ++ suffix.
Proof.
  unfold Domain.endsWith. rewrite startsWith_spec. split.
  - intros [t Ht]. exists (rev t).
    apply (f_equal (@rev N)) in Ht. rewrite rev_involutive in Ht.
    now rewrite Ht, rev_app_distr, rev_involutive.
  - intros [pre ->]. exists (rev pre). now rewrite rev_app_distr.
Qed.

(** X3.  isAmazonDomain accepts a URL exactly when it parses and its host
    name ends with .amazon.com: the two host names it spells out are cases of
    the suffix test.  The bare amazon.com, a look-alike such as
    notamazon.com and the regional amazon.co.uk are refused, and so is
    whatever the URL constructor rejects. *)
Theorem isAmazonDomain_suffix (hostnameOf : jsstring -> option jsstring) (url : jsstring) :
  (Domain.isAmazonDomain hostnameOf url = true
   <-> exists hostname pre,
         hostnameOf url = Some hostname /\ hostname = pre ++ lit ".amazon.com")
  /\ (hostnameOf url = None -> Domain.isAmazonDomain hostnameOf url = false)
  /\ (hostnameOf url = Some (lit "amazon.com") ->
      Domain.isAmazonDomain hostnameOf url = false)
  /\ (hostnameOf url = Some (lit "notamazon.com") ->
      Domain.isAmazonDomain hostnameOf url = false)
  /\ (hostnameOf url = Some (lit "www.amazon.co.uk") ->
      Domain.isAmazonDomain hostnameOf url = false).
Proof.
  split; [|split; [|split; [|split]]].
  - unfold Domain.isAmazonDomain. destruct (hostnameOf url) as [hostname|].
    + split.
      * rewrite !orb_true_iff, !bool_decide_eq_true. intros [[->| ->]|Hsuffix].
        -- exists (lit "alexa.amazon.com"), (lit "alexa"). now split.
        -- exists (lit "alexa-comms-mobile-service.amazon.com"),
             (lit "alexa-comms-mobile-service"). now split.
        -- apply endsWith_spec in Hsuffix as [pre ->]. now exists (pre ++ lit ".amazon.com"), pre.
      * intros (hn & pre & [= <-] & ->).
        rewrite !orb_true_iff. right. apply endsWith_spec. now exists pre.
    + split; [discriminate|]. now intros (hn & pre & Hnone & _).
  - unfold Domain.isAmazonDomain. now intros ->.
  - unfold Domain.isAmazonDomain. intros ->. vm_compute. reflexivity.
  - unfold Domain.isAmazonDomain. intros ->. vm_compute. reflexivity.
  - unfold Domain.isAmazonDomain. intros ->. vm_compute. reflexivity.
Qed.

Lemma isAmazonDomain_suffix_witness :
  Domain.isAmazonDomain (fun _ => Some (lit "amazon.com")) (lit "https://amazon.com/x") = false
  /\ Domain.isAmazonDomain (fun _ => None) (lit "not a url") = false.
Proof.
  split.
  - apply (proj1 (proj2 (proj2 (isAmazonDomain_suffix (fun _ => Some (lit "amazon.com"))
                                   (lit "https://amazon.com/x"))))).
    reflexivity.
  - apply (proj1 (proj2 (isAmazonDomain_suffix (fun _ => None) (lit "not a url")))).
    reflexivity.
Defined.

(** ** The csrf cookie and the token *)

Lemma takeWhile_app_stop f v rest :
  forallb f v = true ->
  match rest with [] => True | c :: _ => f c = false end ->
  takeWhile f (v ++ rest) = v.
Proof.
  intros Hv Hrest. induction v as [|d v IH]; simpl in *.
  - destruct rest as [|c rest]; [reflexivity|]. simpl. now rewrite Hrest.
  - apply andb_true_iff in Hv as [Hd Hv]. rewrite Hd. now rewrite IH.
Qed.

(** The value at a position is the run up to the next semicolon. *)
Lemma csrfValueAt_run pre v rest' :
  csrfValueAt (pre ++ lit "csrf=" ++ rest') pre v ->
  takeWhile (fun c => negb (c =? 59)) rest' = v.
Proof.
  intros (rest & Hs & _ & Hv & Hrest).
  apply app_inv_head in Hs. apply (app_inv_head (lit "csrf=")) in Hs. subst rest'.
  apply takeWhile_app_stop; [exact Hv|].
  destruct rest as [|c rest]; [exact I|]. now subst c.
Qed.

Lemma csrfValueAt_unique s pre v v' :
  csrfValueAt s pre v -> csrfValueAt s pre v' -> v = v'.
Proof.
  intros H H'. destruct H as (rest & -> & Hrest).
  assert (Hv : csrfValueAt (pre ++ lit "csrf=" ++ v ++ rest) pre v) by now exists rest.
  apply csrfValueAt_run in Hv, H'. congruence.
Qed.

Lemma csrfValueAt_head s v :
  csrfValueAt s [] v
  <-> exists rest, stripPrefix N.eqb (lit "csrf=") s = Some rest
                   /\ takeWhile (fun c => negb (c =? 59)) rest = v /\ v <> [].
Proof.
  split.
  - intros H. pose proof H as (rest & -> & Hne & _).
    exists (v ++ rest). split; [now apply stripPrefix_eq|]. split; [|exact Hne].
    now apply (csrfValueAt_run []).
  - intros (rest & Hstrip & Htake & Hne). apply stripPrefix_eq in Hstrip.
    exists (dropWhile (fun c => negb (c =? 59)) rest). subst v.
    rewrite takeWhile_dropWhile. split; [exact Hstrip|]. split; [exact Hne|].
    split; [apply takeWhile_all|].
    pose proof (dropWhile_head (fun c => negb (c =? 59)) rest) as Hhead.
    destruct (dropWhile _ rest) as [|c post]; [exact I|].
    now apply negb_false_iff, N.eqb_eq in Hhead.
Qed.

Lemma csrfValueAt_cons a s pre v :
  csrfValueAt (a :: s) (a :: pre) v <-> csrfValueAt s pre v.
Proof.
  split; intros (rest & Hs & H); exists rest; (split; [|exact H]).
  - cbn [app] in Hs. congruence.
  - cbn [app]. congruence.
Qed.

(** What the match gives when there is no value at the head. *)
Lemma csrfValueAt_later a s pre v :
  (forall v0, ~ csrfValueAt (a :: s) [] v0) ->
  csrfValueAt (a :: s) pre v -> exists pre', pre = a :: pre' /\ csrfValueAt s pre' v.
Proof.
  intros Hhead H. destruct pre as [|b pre]; [now apply Hhead in H|].
  pose proof H as (rest & Hs & _). cbn [app] in Hs. injection Hs as <- _.
  exists pre. split; [reflexivity|]. now apply csrfValueAt_cons in H.
Qed.

Lemma matchCsrf_spec s :
  match matchCsrf s with
  | Some v =>
      exists pre,
        csrfValueAt s pre v
        /\ forall pre' v', csrfValueAt s pre' v' -> (length pre <= length pre')%nat
  | None => forall pre v, ~ csrfValueAt s pre v
  end.
Proof.
  induction s as [|a s IH].
  - cbn [matchCsrf]. intros pre v (rest & Hs & _).
    apply (f_equal (@length N)) in Hs. rewrite !length_app in Hs. simpl in Hs. lia.
  - assert (Hlater : (forall v0, ~ csrfValueAt (a :: s) [] v0) ->
                     match matchCsrf s with
                     | Some v =>
                         exists pre,
                           csrfValueAt (a :: s) pre v
                           /\ forall pre' v', csrfValueAt (a :: s) pre' v' ->
                                              (length pre <= length pre')%nat
                     | None => forall pre v, ~ csrfValueAt (a :: s) pre v
                     end).
    { intros Hhead. destruct (matchCsrf s) as [v|].
      - destruct IH as (pre & Hpre & Hmin). exists (a :: pre).
        split; [now apply csrfValueAt_cons|].
        intros pre' v' H'. destruct (csrfValueAt_later _ _ _ _ Hhead H') as (q & -> & Hq).
        cbn [length]. apply Hmin in Hq. lia.
      - intros pre v H. destruct (csrfValueAt_later _ _ _ _ Hhead H) as (q & -> & Hq).
        now apply IH in Hq. }
    cbn [matchCsrf].
    destruct (stripPrefix N.eqb (lit "csrf=") (a :: s)) as [rest|] eqn:Hstrip.
    + destruct (takeWhile (fun c => negb (c =? 59)) rest) as [|d t] eqn:Htake.
      * apply Hlater. intros v0 H0. apply csrfValueAt_head in H0 as (rest0 & H1 & H2 & H3).
        congruence.
      * exists []. split; [|intros; cbn [length]; lia].
        apply csrfValueAt_head. exists rest. now rewrite Htake.
    + apply Hlater. intros v0 H0. apply csrfValueAt_head in H0 as (rest0 & H1 & _).
      congruence.
Qed.

(** X4.  The cookie match of getCsrfToken is the leftmost match of csrf=
    followed by a value: it gives the value [v] exactly when [csrf=] stands
    somewhere in the header followed by [v], not empty and up to the next
    semicolon or the end, and at no place further left is [csrf=] followed
    by a value; it gives nothing exactly when no [csrf=] of the header has
    a value.  No cookie boundary is asked before the name, so a cookie
    whose name merely ends in csrf is taken too; and a header that begins
    with the placeholder cookie counts as a failed source whatever cookies
    follow it, a real csrf cookie included. *)
Theorem matchCsrf_leftmost :
  (forall s v,
      matchCsrf s = Some v
      <-> exists pre,
            csrfValueAt s pre v
            /\ forall pre' v', csrfValueAt s pre' v' -> (length pre <= length pre')%nat)
  /\ (forall s, matchCsrf s = None <-> forall pre v, ~ csrfValueAt s pre v)
  /\ (forall r rest,
        res_setCookie r = Some (lit "csrf=1;" ++ rest) -> SourceFails (inr r)).
Proof.
  assert (Hsome : forall s v,
             matchCsrf s = Some v
             <-> exists pre,
                   csrfValueAt s pre v
                   /\ forall pre' v', csrfValueAt s pre' v' ->
                                      (length pre <= length pre')%nat).
  { intros s v. pose proof (matchCsrf_spec s) as Hspec. split.
    - intros Hm. now rewrite Hm in Hspec.
    - intros (pre & Hpre & Hmin).
      destruct (matchCsrf s) as [v0|]; [|now apply Hspec in Hpre].
      destruct Hspec as (pre0 & Hpre0 & Hmin0). f_equal.
      assert (Hlen : length pre0 = length pre)
        by (apply Hmin in Hpre0; apply Hmin0 in Hpre; lia).
      assert (pre0 = pre).
      { destruct Hpre as (rest & Hs & _), Hpre0 as (rest0 & Hs0 & _).
        rewrite Hs in Hs0. now apply app_inj_1 in Hs0 as [-> _]. }
      subst pre0. exact (csrfValueAt_unique _ _ _ _ Hpre0 Hpre). }
  split; [exact Hsome|]. split.
  - intros s. pose proof (matchCsrf_spec s) as Hspec. split.
    + intros Hm. now rewrite Hm in Hspec.
    + intros Hnone. destruct (matchCsrf s) as [v|]; [|reflexivity].
      destruct Hspec as (pre & Hpre & _). now apply Hnone in Hpre.
  - intros r rest Hc. apply (PlaceholderValue r _ Hc).
    apply Hsome. exists []. split; [|intros; cbn [length]; lia].
    exists (59 :: rest). repeat split. discriminate.
Qed.

Lemma matchCsrf_leftmost_witness :
  (exists pre,
      csrfValueAt (lit "Secure; anti-csrf=abc; csrf=real") pre (lit "abc")
      /\ forall pre' v', csrfValueAt (lit "Secure; anti-csrf=abc; csrf=real") pre' v' ->
                         (length pre <= length pre')%nat)
  /\ SourceFails (inr {| res_status := 200;
                         res_setCookie := Some (lit "csrf=1;" ++ lit " csrf=real-token");
                         res_text := [] |}).
Proof.
  split.
  - apply (proj1 (proj1 matchCsrf_leftmost (lit "Secure; anti-csrf=abc; csrf=real")
                    (lit "abc"))).
    vm_compute. reflexivity.
  - apply (proj2 (proj2 matchCsrf_leftmost) _ (lit " csrf=real-token")). reflexivity.
Defined.

(** X5.  getCsrfToken always returns a token, the token is never empty and
    holds no semicolon, and it is the sentinel 1 only after both sources
    were asked.  buildAlexaHeadersWithCsrf therefore never throws either: it
    makes the same one or two probes and gives the headers of
    buildAlexaHeaders for that token, so the csrf header is that token
    unless the extra headers bring their own. *)
Theorem getCsrfToken_token_shape (h : Host) (env : Env) (tr : list Event)
    (additional : option (gmap jsstring jsstring)) :
  exists token tr',
    getCsrfToken env h tr = (tr', inr token)
    /\ (tr' = afterFirst env tr \/ tr' = afterSecond env tr)
    /\ token <> []
    /\ forallb (fun c => negb (c =? 59)) token = true
    /\ (token = lit "1" -> tr' = afterSecond env tr)
    /\ buildAlexaHeadersWithCsrf env additional h tr
       = (tr', inr (buildAlexaHeaders env additional (Some token)))
    /\ (default (∅ : gmap jsstring jsstring) additional !! lit "csrf" = None ->
        buildAlexaHeaders env additional (Some token) !! lit "csrf" = Some token).
Proof.
  assert (Hshape : forall v a, SourceYields v a ->
             v <> [] /\ forallb (fun c => negb (c =? 59)) v = true /\ v <> lit "1").
  { intros v a Hy. inversion Hy as [r c Hok Hc Hm Hne Heq].
    destruct (matchCsrf_captures _ _ Hm) as (pre & post & _ & Hv & Hsemi & _). auto. }
  assert (Hheaders : forall token tr',
             getCsrfToken env h tr = (tr', inr token) ->
             buildAlexaHeadersWithCsrf env additional h tr
             = (tr', inr (buildAlexaHeaders env additional (Some token)))).
  { intros token tr' Hrun. unfold buildAlexaHeadersWithCsrf.
    erewrite bind_returns by exact Hrun. reflexivity. }
  assert (Hcsrf : forall token,
             default (∅ : gmap jsstring jsstring) additional !! lit "csrf" = None ->
             buildAlexaHeaders env additional (Some token) !! lit "csrf" = Some token).
  { intros token Hnone. unfold buildAlexaHeaders.
    rewrite lookup_union_r by exact Hnone. lookup_header. }
  destruct (source_decides (firstAnswer h env tr)) as [Hf1|[v Hy1]].
  - destruct (source_decides (secondAnswer h env tr)) as [Hf2|[v Hy2]].
    + exists (lit "1"), (afterSecond env tr).
      pose proof (getCsrfToken_sentinel h env tr Hf1 Hf2) as Hrun.
      repeat split; auto; discriminate.
    + exists v, (afterSecond env tr).
      pose proof (getCsrfToken_second h env tr v Hf1 Hy2) as Hrun.
      destruct (Hshape _ _ Hy2) as (Hv & Hsemi & Hne).
      repeat split; auto.
  - exists v, (afterFirst env tr).
    pose proof (getCsrfToken_first h env tr v Hy1) as Hrun.
    destruct (Hshape _ _ Hy1) as (Hv & Hsemi & Hne).
    repeat split; auto; intros ->; congruence.
Qed.

Lemma getCsrfToken_token_shape_witness :
  exists token tr',
    getCsrfToken sampleEnv tokenHost [] = (tr', inr token)
    /\ (tr' = afterFirst sampleEnv [] \/ tr' = afterSecond sampleEnv [])
    /\ token <> []
    /\ forallb (fun c => negb (c =? 59)) token = true
    /\ (token = lit "1" -> tr' = afterSecond sampleEnv [])
    /\ buildAlexaHeadersWithCsrf sampleEnv None tokenHost []
       = (tr', inr (buildAlexaHeaders sampleEnv None (Some token)))
    /\ (default (∅ : gmap jsstring jsstring) None !! lit "csrf" = None ->
        buildAlexaHeaders sampleEnv None (Some token) !! lit "csrf" = Some token).
Proof. exact (getCsrfToken_token_shape tokenHost sampleEnv [] None). Defined.

(** ** isAnyLightOn *)

Lemma stateRequest_shape env entityId :
  req_url (stateRequest env entityId) = lit "https://alexa.amazon.com/api/phoenix/state"
  /\ req_method (stateRequest env entityId) = lit "POST"
  /\ req_headers (stateRequest env entityId) !! lit "csrf" = Some (lit "1")
  /\ req_headers (stateRequest env entityId) !! lit "Content-Type"
     = Some (lit "application/json; charset=utf-8")
  /\ req_headers (stateRequest env entityId) !! lit "Cookie" = Some (cookieString env)
  /\ req_body (stateRequest env entityId) = Some (stateRequestBody entityId).
Proof.
  repeat split. cbn [stateRequest req_body]. now rewrite stateRequestBody_text.
Qed.

(** X6.  isAnyLightOn never throws.  Without UBID_MAIN or AT_MAIN it does
    nothing and gives null.  With both it first asks the directory for the
    primary light; if that or the entity id of the light fails it stops
    there with null; otherwise it makes exactly one request, the POST of
    the power-state query for that entity to the phoenix state endpoint,
    with the cookies of the environment, the JSON content type and the
    placeholder csrf header 1 (no token is resolved), and gives the verdict
    of the answer, null when the request fails, is not answered OK or its
    body does not parse.  A verdict true or false is given only after that
    request was answered OK. *)
Theorem isAnyLightOn_protocol (env : Env) (h : Host) (tr : list Event) :
  (truthy (UBID_MAIN env) = false \/ truthy (AT_MAIN env) = false ->
   isAnyLightOn env h tr = (tr, inr None))
  /\ (truthy (UBID_MAIN env) = true -> truthy (AT_MAIN env) = true ->
      (exists evs lightOn, LightCheck h env tr evs lightOn)
      /\ (forall evs lightOn,
             LightCheck h env tr evs lightOn ->
             isAnyLightOn env h tr = (tr ++ evs, inr lightOn)
             /\ (evs = [GetPrimaryLight env]
                 \/ exists entityId, evs = [GetPrimaryLight env; Fetch (stateRequest env entityId)])
             /\ (lightOn <> None ->
                 exists light entityId res,
                   primaryLight h tr env = inr light
                   /\ extractEntityId h light = inr entityId
                   /\ evs = [GetPrimaryLight env; Fetch (stateRequest env entityId)]
                   /\ fetchResult h (tr ++ [GetPrimaryLight env]) (stateRequest env entityId)
                      = inr res
                   /\ res_ok res = true)))
  /\ (forall entityId,
        let req := stateRequest env entityId in
        req_url req = lit "https://alexa.amazon.com/api/phoenix/state"
        /\ req_method req = lit "POST"
        /\ req_headers req !! lit "csrf" = Some (lit "1")
        /\ req_headers req !! lit "Content-Type" = Some (lit "application/json; charset=utf-8")
        /\ req_headers req !! lit "Cookie" = Some (cookieString env)
        /\ req_body req = Some (stateRequestBody entityId)).
Proof.
  split; [apply isAnyLightOn_without_credentials|]. split.
  - intros Hu Ha. split; [apply LightCheck_total|].
    intros evs lightOn Hcheck. split; [now apply isAnyLightOn_check|]. split.
    + destruct Hcheck; eauto.
    + intros Hverdict. destruct lightOn as [b|]; [|congruence].
      apply LightCheck_verdict in Hcheck
        as (light & entityId & res & data & first & others & H1 & H2 & H3 & H4 & H5 & _).
      now exists light, entityId, res.
  - intros entityId. apply stateRequest_shape.
Qed.

Lemma isAnyLightOn_protocol_witness :
  isAnyLightOn sampleEnv nightHost []
  = ([] ++ [GetPrimaryLight sampleEnv; Fetch (stateRequest sampleEnv (lit "light-1"))],
     inr (Some false)).
Proof.
  apply (proj2 (proj1 (proj2 (isAnyLightOn_protocol sampleEnv nightHost []))
                  ltac:(vm_compute; reflexivity) ltac:(vm_compute; reflexivity))
           [GetPrimaryLight sampleEnv; Fetch (stateRequest sampleEnv (lit "light-1"))]
           (Some false)).
  apply (check_state nightHost sampleEnv [] lightEndpoint (lit "light-1") okResponse
           {| deviceStates := Some [ {| capabilityStates := [lit "state"] |} ] |}
           {| capabilityStates := [lit "state"] |} [] (Some false));
    try reflexivity.
  apply (report_power nightHost (lit "state") []
           {| cap_namespace := Some (lit "Alexa.PowerController");
              cap_name := Some (lit "powerState");
              cap_value := Some (lit "OFF") |}); [reflexivity|].
  split; reflexivity.
Defined.

Lemma PowerReport_skip h skipped raws verdict :
  Forall (skippedState h) skipped -> PowerReport h raws verdict ->
  PowerReport h (skipped ++ raws) verdict.
Proof.
  induction 1 as [|raw skipped [[e Hraw]|(cap & Hraw & Hcap)] _ IH]; intros Hr;
    cbn [app]; [exact Hr| |].
  - apply (report_unparsed h raw _ e); auto.
  - apply (report_other h raw _ cap); auto.
Qed.

(** X7.  When the state request is answered OK and the body parses, the
    verdict of isAnyLightOn is read off the capability states of the first
    device state alone, from left to right: a state that does not parse is
    skipped (it does not fail the check), and so is a capability that is
    not Alexa.PowerController / powerState; the first state that is neither
    decides: if it is the power state the verdict is true exactly when its
    value is the string ON, and if it parses to null the verdict is null,
    whatever follows.  With nothing but skipped states, with no device
    state or with none listed the verdict is null. *)
Theorem isAnyLightOn_verdict (env : Env) (h : Host) (tr : list Event)
    (light : Endpoint) (entityId : jsstring) (res : Response) (data : StateResponse) :
  truthy (UBID_MAIN env) = true -> truthy (AT_MAIN env) = true ->
  primaryLight h tr env = inr light ->
  extractEntityId h light = inr entityId ->
  fetchResult h (tr ++ [GetPrimaryLight env]) (stateRequest env entityId) = inr res ->
  res_ok res = true ->
  jsonStateResponse h (res_text res) = inr data ->
  (* no device state *)
  (deviceStates data = None \/ deviceStates data = Some [] ->
   snd (isAnyLightOn env h tr) = inr None)
  (* the first device state decides *)
  /\ (forall first others,
        deviceStates data = Some (first :: others) ->
        (exists verdict, PowerReport h (capabilityStates first) verdict)
        /\ (forall verdict,
               PowerReport h (capabilityStates first) verdict ->
               snd (isAnyLightOn env h tr) = inr verdict)
        /\ (forall skipped raw rest cap,
               capabilityStates first = skipped ++ raw :: rest ->
               Forall (skippedState h) skipped ->
               jsonCapability h raw = inr (Some cap) -> isPowerController cap ->
               snd (isAnyLightOn env h tr)
               = inr (Some (bool_decide (cap_value cap = Some (lit "ON")))))
        /\ (forall skipped raw rest,
               capabilityStates first = skipped ++ raw :: rest ->
               Forall (skippedState h) skipped ->
               jsonCapability h raw = inr None ->
               snd (isAnyLightOn env h tr) = inr None)
        /\ (Forall (skippedState h) (capabilityStates first) ->
            snd (isAnyLightOn env h tr) = inr None)).
Proof.
  intros Hu Ha Hlight Hid Hfetch Hok Hdata. split.
  - intros Hnone.
    now rewrite (isAnyLightOn_check env h tr _ None Hu Ha
                   (check_no_state h env tr light entityId res data
                      Hlight Hid Hfetch Hok Hdata Hnone)).
  - intros first others Hfirst.
    assert (Hrun : forall verdict,
               PowerReport h (capabilityStates first) verdict ->
               snd (isAnyLightOn env h tr) = inr verdict).
    { intros verdict Hr.
      now rewrite (isAnyLightOn_check env h tr _ verdict Hu Ha
                     (check_state h env tr light entityId res data first others verdict
                        Hlight Hid Hfetch Hok Hdata Hfirst Hr)). }
    split; [apply PowerReport_total|]. split; [exact Hrun|]. split; [|split].
    + intros skipped raw rest cap Hstates Hskipped Hraw Hcap. apply Hrun.
      rewrite Hstates. apply PowerReport_skip; [exact Hskipped|]. now apply (report_power h raw rest cap).
    + intros skipped raw rest Hstates Hskipped Hraw. apply Hrun.
      rewrite Hstates. apply PowerReport_skip; [exact Hskipped|]. now apply report_null.
    + intros Hskipped. apply Hrun.
      pose proof (PowerReport_skip h _ [] None Hskipped (report_end h)) as Hr.
      now rewrite app_nil_r in Hr.
Qed.

Lemma isAnyLightOn_verdict_witness :
  snd (isAnyLightOn sampleEnv nightHost []) = inr (Some false).
Proof.
  pose proof (isAnyLightOn_verdict sampleEnv nightHost [] lightEndpoint (lit "light-1")
                okResponse
                {| deviceStates := Some [ {| capabilityStates := [lit "state"] |} ] |}
                eq_refl eq_refl eq_refl eq_refl eq_refl eq_refl eq_refl)
    as (_ & Hfirst).
  destruct (Hfirst {| capabilityStates := [lit "state"] |} [] eq_refl)
    as (_ & _ & Hpower & _).
  exact (Hpower [] (lit "state") []
           {| cap_namespace := Some (lit "Alexa.PowerController");
              cap_name := Some (lit "powerState");
              cap_value := Some (lit "OFF") |}
           eq_refl ltac:(constructor) eq_refl (conj eq_refl eq_refl)).
Defined.

(** A capability state that parses to null ends the reading, also when a
    power state that is on follows it. *)
Example isAnyLightOn_null_capability :
  let h := {| fetchResult := fetchResult onlineHost;
              customerSmartHomeEndpoints := customerSmartHomeEndpoints onlineHost;
              primaryLight := primaryLight onlineHost;
              extractEntityId := extractEntityId onlineHost;
              hourIn := hourIn onlineHost;
              isUrl := isUrl onlineHost;
              toLowerCase := toLowerCase onlineHost;
              toUpperCase := toUpperCase onlineHost;
              jsonUsersMe := jsonUsersMe onlineHost;
              jsonStateResponse :=
                fun _ => inr {| deviceStates :=
                                  Some [ {| capabilityStates := [lit "null"; lit "on"] |} ] |};
              jsonCapability :=
                fun raw => if bool_decide (raw = lit "null") then inr None
                           else jsonCapability onlineHost raw;
              zodErrorMessage := zodErrorMessage onlineHost;
              nativeErrorMessage := nativeErrorMessage onlineHost |} in
  snd (isAnyLightOn sampleEnv h []) = inr None
  /\ snd (isAnyLightOn sampleEnv onlineHost []) = inr (Some true).
Proof. split; vm_compute; reflexivity. Qed.

(** ** getAmazonMusicPlayback *)

Lemma includes_spec p s : includes p s = true <-> occursIn p s.
Proof.
  unfold occursIn. induction s as [|c s IH]; cbn [includes].
  - rewrite orb_false_r, startsWith_spec. split.
    + intros [t Ht]. now exists [], t.
    + intros (a & b & Hab). destruct a; [now exists b|discriminate].
  - rewrite orb_true_iff, startsWith_spec, IH. split.
    + intros [[t Ht]|(a & b & ->)].
      * now exists [], t.
      * now exists (c :: a), b.
    + intros (a & b & Hab). destruct a as [|d a].
      * left. now exists b.
      * right. injection Hab as -> ->. now exists a, b.
Qed.

Lemma echoIdentifiers_run env h tr :
  NowPlaying.echoIdentifiers env h tr
  = (tr ++ [GetCustomerSmartHomeEndpoints env],
     inr match customerSmartHomeEndpoints h tr env with
         | inl _ => None
         | inr endpoints =>
             match List.find isVoiceEnabled endpoints with
             | Some echo =>
                 match deviceSerialNumber echo, deviceType echo with
                 | Some sn, Some dt => if truthy sn && truthy dt then Some (sn, dt) else None
                 | _, _ => None
                 end
             | None => None
             end
         end).
Proof.
  unfold NowPlaying.echoIdentifiers, tryCatch, bind, getCustomerSmartHomeEndpoints, ret.
  destruct (customerSmartHomeEndpoints h tr env) as [e|endpoints]; [reflexivity|].
  destruct (List.find isVoiceEnabled endpoints) as [echo|]; [|reflexivity].
  destruct (deviceSerialNumber echo) as [sn|], (deviceType echo) as [dt|]; try reflexivity.
  destruct (truthy sn), (truthy dt); reflexivity.
Qed.

Lemma usableEcho_identifiers echo sn dt :
  usableEcho echo sn dt ->
  match deviceSerialNumber echo, deviceType echo with
  | Some sn', Some dt' => if truthy sn' && truthy dt' then Some (sn', dt') else None
  | _, _ => None
  end = Some (sn, dt).
Proof.
  intros (-> & -> & Hsn & Hdt). destruct sn; [congruence|]. destruct dt; [congruence|].
  reflexivity.
Qed.

Lemma unusableEcho_identifiers echo :
  (forall sn dt, ~ usableEcho echo sn dt) ->
  match deviceSerialNumber echo, deviceType echo with
  | Some sn', Some dt' => if truthy sn' && truthy dt' then Some (sn', dt') else None
  | _, _ => None
  end = None.
Proof.
  intros Hno. destruct (deviceSerialNumber echo) as [sn|] eqn:Hsn; [|reflexivity].
  destruct (deviceType echo) as [dt|] eqn:Hdt; [|reflexivity].
  destruct sn as [|c sn]; [reflexivity|]. destruct dt as [|d dt]; [reflexivity|].
  exfalso. apply (Hno (c :: sn) (d :: dt)). repeat split; auto; discriminate.
Qed.

(** X8.  getAmazonMusicPlayback gives null without touching anything when a
    credential is missing.  Otherwise it asks the directory once and never
    lets that call throw: when the directory fails, when it lists no
    voice-enabled endpoint, or when the first voice-enabled endpoint lacks
    an identifier or has an empty one, it gives null and makes no request.
    When that endpoint has both identifiers it makes exactly one request, a
    GET of list-media-sessions with the two identifiers in the query, the
    cookies of the environment and the placeholder csrf header 1; a status
    that is not OK gives null, but a failing fetch or a body that does not
    parse is not caught: the function throws.  On a parsed body only the
    first media session counts. *)
Theorem getAmazonMusicPlayback_protocol
    (jsonSessions : jsstring -> Exn + NowPlaying.NPResponse)
    (env : Env) (h : Host) (tr : list Event) :
  let tr1 := tr ++ [GetCustomerSmartHomeEndpoints env] in
  let result := NowPlaying.getAmazonMusicPlayback jsonSessions env h tr in
  (truthy (UBID_MAIN env) = false \/ truthy (AT_MAIN env) = false -> result = (tr, inr None))
  /\ (truthy (UBID_MAIN env) = true -> truthy (AT_MAIN env) = true ->
      (forall e, customerSmartHomeEndpoints h tr env = inl e -> result = (tr1, inr None))
      /\ (forall endpoints,
            customerSmartHomeEndpoints h tr env = inr endpoints ->
            Forall (fun x => isVoiceEnabled x = false) endpoints ->
            result = (tr1, inr None))
      /\ (forall before echo after,
            customerSmartHomeEndpoints h tr env = inr (before ++ echo :: after) ->
            Forall (fun x => isVoiceEnabled x = false) before ->
            isVoiceEnabled echo = true ->
            ((forall sn dt, ~ usableEcho echo sn dt) -> result = (tr1, inr None))
            /\ (forall sn dt,
                  usableEcho echo sn dt ->
                  let req := nowPlayingRequest env sn dt in
                  fst result = tr1 ++ [Fetch req]
                  /\ req_url req
                     = lit "https://alexa.amazon.com/api/np/list-media-sessions?deviceSerialNumber="
                       ++ sn ++ lit "&deviceType=" ++ dt
                  /\ req_method req = lit "GET"
                  /\ req_body req = None
                  /\ req_headers req !! lit "csrf" = Some (lit "1")
                  /\ req_headers req !! lit "Cookie" = Some (cookieString env)
                  /\ (forall e, fetchResult h tr1 req = inl e -> snd result = inl e)
                  /\ (forall res,
                        fetchResult h tr1 req = inr res -> res_ok res = false ->
                        snd result = inr None)
                  /\ (forall res e,
                        fetchResult h tr1 req = inr res -> res_ok res = true ->
                        jsonSessions (res_text res) = inl e -> snd result = inl e)
                  /\ (forall res data,
                        fetchResult h tr1 req = inr res -> res_ok res = true ->
                        jsonSessions (res_text res) = inr data ->
                        snd result
                        = inr match NowPlaying.mediaSessionList data with
                              | Some (session :: _) =>
                                  NowPlaying.playbackOf h session
                                    <$> NowPlaying.nowPlayingData session
                              | _ => None
                              end)))).
Proof.
  intros tr1 result. split.
  - intros Hmissing. subst result. unfold NowPlaying.getAmazonMusicPlayback.
    destruct Hmissing as [-> | ->]; [reflexivity|]. now rewrite orb_true_r.
  - intros Hu Ha.
    assert (Hnull : match customerSmartHomeEndpoints h tr env with
                    | inl _ => None
                    | inr endpoints =>
                        match List.find isVoiceEnabled endpoints with
                        | Some echo =>
                            match deviceSerialNumber echo, deviceType echo with
                            | Some sn, Some dt =>
                                if truthy sn && truthy dt then Some (sn, dt) else None
                            | _, _ => None
                            end
                        | None => None
                        end
                    end = None -> result = (tr1, inr None)).
    { intros Hids. subst result. unfold NowPlaying.getAmazonMusicPlayback.
      rewrite Hu, Ha. cbn [negb orb].
      erewrite bind_returns by apply echoIdentifiers_run. now rewrite Hids. }
    split; [|split].
    + intros e He. apply Hnull. now rewrite He.
    + intros endpoints Hep Hnone. apply Hnull. now rewrite Hep, (find_no_match _ Hnone).
    + intros before echo after Hep Hbefore Hecho. split.
      * intros Hno. apply Hnull.
        rewrite Hep, (find_first_match _ _ _ Hbefore Hecho).
        now apply unusableEcho_identifiers.
      * intros sn dt Husable req.
        assert (Hresult : result
                  = (tr1 ++ [Fetch req],
                     match fetchResult h tr1 req with
                     | inl e => inl e
                     | inr res =>
                         if negb (res_ok res) then inr None
                         else match jsonSessions (res_text res) with
                              | inl e => inl e
                              | inr data =>
                                  inr match NowPlaying.mediaSessionList data with
                                      | Some (session :: _) =>
                                          NowPlaying.playbackOf h session
                                            <$> NowPlaying.nowPlayingData session
                                      | _ => None
                                      end
                              end
                     end)).
        { subst result. unfold NowPlaying.getAmazonMusicPlayback. rewrite Hu, Ha.
          cbn [negb orb]. erewrite bind_returns by apply echoIdentifiers_run.
          rewrite Hep, (find_first_match _ _ _ Hbefore Hecho),
            (usableEcho_identifiers _ _ _ Husable).
          cbv beta iota.
          unfold bind, askHost, fetch, lift, ret.
          subst req tr1. unfold nowPlayingRequest.
          destruct (fetchResult h _ _) as [e|res]; [reflexivity|].
          destruct (negb (res_ok res)); [reflexivity|].
          destruct (jsonSessions (res_text res)) as [e|data]; [reflexivity|].
          destruct (NowPlaying.mediaSessionList data) as [[|session rest]|]; try reflexivity.
          now destruct (NowPlaying.nowPlayingData session). }
        rewrite Hresult. cbn [fst snd].
        split; [reflexivity|]. do 5 (split; [reflexivity|]).
        split; [now intros e ->|]. split; [now intros res -> ->|].
        split; [now intros res e -> -> ->|]. now intros res data -> -> ->.
Qed.

Lemma getAmazonMusicPlayback_protocol_witness :
  NowPlaying.getAmazonMusicPlayback sampleSessions
    {| UBID_MAIN := []; AT_MAIN := lit "Atza|token"; COOKIE_SUFFIX := None; API_KEY := None;
       API_BASE := lit "http://localhost:8787"; TZ := None; SPOTIFY_TOKEN := None;
       SPOTIFY_CLIENT_ID := None; SPOTIFY_CLIENT_SECRET := None;
       SPOTIFY_REFRESH_TOKEN := None |} onlineHost []
  = ([], inr None)
  /\ fst (NowPlaying.getAmazonMusicPlayback sampleSessions sampleEnv onlineHost [])
     = ([] ++ [GetCustomerSmartHomeEndpoints sampleEnv])
       ++ [Fetch (nowPlayingRequest sampleEnv (lit "S1") (lit "T1"))].
Proof.
  split.
  - apply (proj1 (getAmazonMusicPlayback_protocol sampleSessions _ onlineHost [])).
    left. reflexivity.
  - apply (proj2 (proj2 (proj2 (proj2 (getAmazonMusicPlayback_protocol sampleSessions
                                         sampleEnv onlineHost [])
                                  ltac:(vm_compute; reflexivity)
                                  ltac:(vm_compute; reflexivity)))
                    [otherEndpoint] voiceEndpoint []
                    ltac:(vm_compute; reflexivity)
                    ltac:(repeat constructor)
                    ltac:(vm_compute; reflexivity))
             (lit "S1") (lit "T1")).
    repeat split; discriminate.
Defined.

(** The whole function on the sample host: the directory, one GET, and the
    first session, whose empty session-level state hides the PLAYING of the
    now-playing data and whose empty medium cover lets the small one
    through. *)
Example getAmazonMusicPlayback_sample :
  let '(trace, result) := run (NowPlaying.getAmazonMusicPlayback sampleSessions sampleEnv)
                            onlineHost in
  trace = [GetCustomerSmartHomeEndpoints sampleEnv;
           Fetch (nowPlayingRequest sampleEnv (lit "S1") (lit "T1"))]
  /\ result = inr (Some {| NowPlaying.provider := lit "spotify";
                           NowPlaying.isPlaying := false;
                           NowPlaying.trackName := lit "So What";
                           NowPlaying.artist := lit "Miles Davis";
                           NowPlaying.album := [];
                           NowPlaying.coverUrl := lit "https://img/small.jpg";
                           NowPlaying.pb_mediaLength := None;
                           NowPlaying.pb_mediaProgress := None |}).
Proof. vm_compute. split; reflexivity. Qed.

(** X9.  What getAmazonMusicPlayback reports of a session: the cover is the
    first of the medium, large, small, tiny and full URLs that is there and
    not empty, and empty only when none is; the provider is spotify exactly
    when the provider name, in lower case, contains spotify, and amazon in
    every other case, a missing name included; and a player state on the
    session, even the empty string, takes the place of the one in the
    now-playing data, isPlaying being true exactly for PLAYING. *)
Theorem playbackOf_fields (h : Host) (session : NowPlaying.MediaSession)
    (np : NowPlaying.NowPlayingData) :
  let playback := NowPlaying.playbackOf h session np in
  NowPlaying.coverUrl playback
  = match List.find truthyOpt (coverCandidates (NowPlaying.mainArt np)) with
    | Some (Some url) => url
    | _ => []
    end
  /\ (NowPlaying.coverUrl playback = []
      <-> Forall (fun c => truthyOpt c = false) (coverCandidates (NowPlaying.mainArt np)))
  /\ (NowPlaying.provider playback = lit "spotify"
      <-> occursIn (lit "spotify")
            (toLowerCase h (default [] (NowPlaying.providerName np))))
  /\ (NowPlaying.provider playback = lit "spotify"
      \/ NowPlaying.provider playback = lit "amazon")
  /\ (forall st, NowPlaying.playerState session = Some st ->
                 NowPlaying.isPlaying playback = bool_decide (st = lit "PLAYING"))
  /\ (NowPlaying.playerState session = None ->
      NowPlaying.isPlaying playback
      = bool_decide (NowPlaying.np_playerState np = Some (lit "PLAYING"))).
Proof.
  intros playback. subst playback.
  assert (Hcover : forall art,
             NowPlaying.coverOf art
             = match List.find truthyOpt (coverCandidates art) with
               | Some (Some url) => url
               | _ => []
               end).
  { intros art. unfold NowPlaying.coverOf, coverCandidates, NowPlaying.orElse. cbn [List.find].
    repeat match goal with
           | |- context [truthyOpt ?o] =>
               let E := fresh in destruct o as [[|? ?]|] eqn:E; cbn [truthyOpt truthy]
           end; reflexivity. }
  assert (Hempty : forall cands : list (option jsstring),
             match List.find truthyOpt cands with
             | Some (Some url) => url
             | _ => []
             end = []
             <-> Forall (fun c => truthyOpt c = false) cands).
  { induction cands as [|c cands IH]; cbn [List.find].
    - split; [constructor|reflexivity].
    - destruct (truthyOpt c) eqn:Hc.
      + split.
        * destruct c as [[|? ?]|]; discriminate.
        * intros HF. inversion HF; congruence.
      + rewrite IH. split.
        * intros HF. now constructor.
        * intros HF. now inversion HF. }
  split; [apply Hcover|]. split; [cbn [NowPlaying.coverUrl NowPlaying.playbackOf]; rewrite Hcover; apply Hempty|].
  cbn [NowPlaying.provider NowPlaying.playbackOf NowPlaying.isPlaying].
  assert (Hname : NowPlaying.nullish (NowPlaying.providerName np) []
                  = default [] (NowPlaying.providerName np))
    by now destruct (NowPlaying.providerName np).
  rewrite Hname.
  split; [|split; [|split]].
  - destruct (includes (lit "spotify") (toLowerCase h (default [] (NowPlaying.providerName np))))
      eqn:Hinc.
    + apply includes_spec in Hinc. tauto.
    + split; [discriminate|]. intros Hocc. apply includes_spec in Hocc. congruence.
  - destruct (includes _ _); auto.
  - intros st ->. apply bool_decide_ext. split; congruence.
  - now intros ->.
Qed.

Lemma playbackOf_fields_witness :
  NowPlaying.isPlaying
    (NowPlaying.playbackOf onlineHost sampleSession
       {| NowPlaying.infoText := None; NowPlaying.mainArt := None;
          NowPlaying.np_playerState := Some (lit "PLAYING");
          NowPlaying.progress := None; NowPlaying.providerName := None |})
  = bool_decide (([] : jsstring) = lit "PLAYING").
Proof.
  apply (proj1 (proj2 (proj2 (proj2 (proj2
           (playbackOf_fields onlineHost sampleSession
              {| NowPlaying.infoText := None; NowPlaying.mainArt := None;
                 NowPlaying.np_playerState := Some (lit "PLAYING");
                 NowPlaying.progress := None; NowPlaying.providerName := None |})))))
           []).
  reflexivity.
Defined.

(** ** Where the requests go *)

Section AlexaOnly.

Let P := fun ev => fetchToAlexa ev = true.

Lemma headers_toAlexa env additional : Emits P (buildAlexaHeadersWithCsrf env additional).
Proof. apply buildAlexaHeadersWithCsrf_emits_any; reflexivity. Qed.

Lemma isAnyLightOn_toAlexa env : Emits P (isAnyLightOn env).
Proof. emits_handler. Qed.

Lemma announceHandler_toAlexa rawEnv body : Emits P (announceHandler rawEnv body).
Proof.
  unfold announceHandler, announceValidated, deliverAnnouncement. emits_handler.
Qed.

Lemma musicControlHandler_toAlexa rawEnv body : Emits P (Music.musicControlHandler rawEnv body).
Proof. unfold Music.musicControlHandler, Music.withEnv. emits_handler. Qed.

Lemma playMusicHandler_toAlexa rawEnv body : Emits P (Music.playMusicHandler rawEnv body).
Proof. unfold Music.playMusicHandler, Music.withEnv. emits_handler. Qed.

Lemma musicTextCommandHandler_toAlexa rawEnv body :
  Emits P (Music.musicTextCommandHandler rawEnv body).
Proof. unfold Music.musicTextCommandHandler, Music.withEnv. emits_handler. Qed.

Lemma getAmazonMusicPlayback_toAlexa jsonSessions env :
  Emits P (NowPlaying.getAmazonMusicPlayback jsonSessions env).
Proof.
  unfold NowPlaying.getAmazonMusicPlayback, NowPlaying.echoIdentifiers.
  repeat emits_step.
Qed.

End AlexaOnly.

(** X10.  Whatever the host answers and whatever the input, every call of
    fetch that announceHandler, the three music handlers, isAnyLightOn,
    getAmazonMusicPlayback and buildAlexaHeadersWithCsrf make goes to a URL
    under https://alexa.amazon.com/api/.  Besides fetch these functions
    reach the outside only through getCustomerSmartHomeEndpoints and
    getPrimaryLight of alexa-dynamic.ts, to which they hand the
    environment; what those two request is not part of this statement. *)
Theorem requests_go_to_alexa_only :
  (forall rawEnv body, Emits (fun ev => fetchToAlexa ev = true) (announceHandler rawEnv body))
  /\ (forall rawEnv body,
        Emits (fun ev => fetchToAlexa ev = true) (Music.musicControlHandler rawEnv body))
  /\ (forall rawEnv body,
        Emits (fun ev => fetchToAlexa ev = true) (Music.playMusicHandler rawEnv body))
  /\ (forall rawEnv body,
        Emits (fun ev => fetchToAlexa ev = true) (Music.musicTextCommandHandler rawEnv body))
  /\ (forall env, Emits (fun ev => fetchToAlexa ev = true) (isAnyLightOn env))
  /\ (forall jsonSessions env,
        Emits (fun ev => fetchToAlexa ev = true)
          (NowPlaying.getAmazonMusicPlayback jsonSessions env))
  /\ (forall env additional,
        Emits (fun ev => fetchToAlexa ev = true) (buildAlexaHeadersWithCsrf env additional)).
Proof.
  split; [|split; [|split; [|split; [|split; [|split]]]]].
  - apply announceHandler_toAlexa.
  - apply musicControlHandler_toAlexa.
  - apply playMusicHandler_toAlexa.
  - apply musicTextCommandHandler_toAlexa.
  - apply isAnyLightOn_toAlexa.
  - apply getAmazonMusicPlayback_toAlexa.
  - apply headers_toAlexa.
Qed.

(** ** What the handlers answer *)

Lemma Answers_ret {A} (Q : A -> Prop) a : Q a -> Answers Q (ret a).
Proof. intros HQ h tr b [= <-]. exact HQ. Qed.

Lemma Answers_throw {A} (Q : A -> Prop) e : Answers Q (throw e).
Proof. intros h tr b. discriminate. Qed.

Lemma Answers_bind {A B} (Q : B -> Prop) (m : M A) (k : A -> M B) :
  (forall a, Answers Q (k a)) -> Answers Q (bind m k).
Proof.
  intros Hk h tr b. unfold bind. destruct (m h tr) as [tr' [e|a]]; [discriminate|].
  apply Hk.
Qed.

Lemma Answers_bind_with {A B} (Q1 : A -> Prop) (Q : B -> Prop) (m : M A) (k : A -> M B) :
  Answers Q1 m -> (forall a, Q1 a -> Answers Q (k a)) -> Answers Q (bind m k).
Proof.
  intros Hm Hk h tr b. unfold bind.
  destruct (m h tr) as [tr' [e|a]] eqn:E; [discriminate|].
  apply Hk. apply (Hm h tr). now rewrite E.
Qed.

Lemma Answers_tryCatch {A} (Q : A -> Prop) (m : M A) handler :
  Answers Q m -> (forall e, Answers Q (handler e)) -> Answers Q (tryCatch m handler).
Proof.
  intros Hm Hk h tr a. unfold tryCatch.
  destruct (m h tr) as [tr' [e|b]] eqn:E.
  - apply Hk.
  - intros [= <-]. apply (Hm h tr). now rewrite E.
Qed.

Lemma orServerError_answers {A} error (m : M A) :
  error <> MISSING_CREDENTIALS -> Answers earlyAnswerOk (Music.orServerError error m).
Proof.
  intros Herror. unfold Music.orServerError. apply Answers_tryCatch.
  - apply Answers_bind; intros a. now apply Answers_ret.
  - intros e. apply Answers_ret. unfold earlyAnswerOk, Music.serverError.
    cbn [http_error]. intros [= H]. exact (Herror H).
Qed.

Lemma respond_answers (Q : HttpResult -> Prop) result : Q result -> Answers Q (respond result).
Proof.
  intros HQ h tr r. unfold respond, bind, askHost.
  destruct (_ || _); [discriminate|]. now intros [= <-].
Qed.

Ltac answers_step :=
  first
    [ apply Answers_throw
    | apply Answers_ret; cbn; first [discriminate | congruence]
    | apply respond_answers; cbn; first [discriminate | congruence]
    | apply Answers_bind; intros ?
    | match goal with
      | |- Answers _ (if ?b then _ else _) => destruct b
      | |- Answers _ (match ?x with _ => _ end) => destruct x
      end ].

Lemma postBehavior_answers env command failure :
  (forall status, failure ++ numberToString status <> MISSING_CREDENTIALS) ->
  Answers (fun r => http_error r <> Some MISSING_CREDENTIALS)
    (Music.postBehavior env command failure).
Proof.
  intros Hfailure. unfold Music.postBehavior.
  apply Answers_bind; intros headers. apply Answers_bind; intros res.
  destruct (negb (res_ok res)); [apply respond_answers|apply Answers_ret]; cbn;
    [|discriminate].
  intros [= H]. exact (Hfailure _ H).
Qed.

Lemma withEnv_answers rawEnv k :
  (forall env, Answers (fun r => http_error r <> Some MISSING_CREDENTIALS) (k env)) ->
  Answers (fun r => http_error r <> Some MISSING_CREDENTIALS) (Music.withEnv rawEnv k).
Proof.
  intros Hk h tr r. unfold Music.withEnv, bind, askHost.
  destruct (EnvSchema_parse (isUrl h) rawEnv) as [env|] eqn:Hparse.
  - destruct (EnvSchema_parse_credentials _ _ _ Hparse) as [-> ->]. cbn [negb orb].
    apply Hk.
  - intros [= <-]. cbn. discriminate.
Qed.

(** X11.  EnvSchema.parse lets no empty credential through, so the check of
    the credentials that follows it in announceHandler and in the three
    music handlers never fires: none of them ever answers Missing UBID_MAIN
    or AT_MAIN in environment. *)
Theorem missing_credentials_never_answered :
  (forall rawEnv body,
      Answers (fun r => http_error r <> Some MISSING_CREDENTIALS)
        (announceHandler rawEnv body))
  /\ (forall rawEnv body,
        Answers (fun r => http_error r <> Some MISSING_CREDENTIALS)
          (Music.musicControlHandler rawEnv body))
  /\ (forall rawEnv body,
        Answers (fun r => http_error r <> Some MISSING_CREDENTIALS)
          (Music.playMusicHandler rawEnv body))
  /\ (forall rawEnv body,
        Answers (fun r => http_error r <> Some MISSING_CREDENTIALS)
          (Music.musicTextCommandHandler rawEnv body)).
Proof.
  split; [|split; [|split]].
  - intros rawEnv body h tr r. unfold announceHandler. rewrite ask_then.
    destruct (EnvSchema_parse (isUrl h) rawEnv) as [env|] eqn:Hparse;
      [|intros [= <-]; cbn; discriminate].
    destruct (EnvSchema_parse_credentials _ _ _ Hparse) as [-> ->]. cbn [negb orb].
    destruct (readBody h body) as [error|parsed]; [intros [= <-]; cbn; discriminate|].
    destruct (nameOf h parsed) as [e|name]; [rewrite lift_throws; discriminate|].
    rewrite lift_then.
    destruct (textToSpeakRawOf h parsed) as [e|text]; [rewrite lift_throws; discriminate|].
    rewrite lift_then.
    destruct (_ || _); [intros [= <-]; cbn; discriminate|].
    destruct (40 <? length name)%nat; [intros [= <-]; cbn; discriminate|].
    destruct (500 <? length text)%nat; [intros [= <-]; cbn; discriminate|].
    revert h tr r Hparse.
    enough (Hvalidated : Answers (fun r => http_error r <> Some MISSING_CREDENTIALS)
                           (announceValidated env text))
      by (intros h tr r _; apply Hvalidated).
    assert (Hdeliver : forall text,
               Answers (fun r => http_error r <> Some MISSING_CREDENTIALS)
                 (deliverAnnouncement env text)).
    { intros text'. unfold deliverAnnouncement.
      apply (Answers_bind_with earlyAnswerOk).
      - apply Answers_tryCatch.
        + apply Answers_bind; intros a. now apply Answers_ret.
        + intros e. apply Answers_ret. cbn. discriminate.
      - intros [response|[customerId device]] Hq; [now apply Answers_ret|].
        unfold postAnnouncement. repeat answers_step. }
    unfold announceValidated.
    repeat first [apply Hdeliver | answers_step].
  - intros rawEnv body. unfold Music.musicControlHandler.
    apply withEnv_answers. intros env.
    repeat first [ apply postBehavior_answers; intros status; cbn; discriminate
                 | eapply Answers_bind_with;
                   [ apply orServerError_answers; vm_compute; discriminate
                   | intros [?|?] ?; [apply Answers_ret; assumption|] ]
                 | answers_step ].
  - intros rawEnv body. unfold Music.playMusicHandler.
    apply withEnv_answers. intros env.
    repeat first [ apply postBehavior_answers; intros status; cbn; discriminate
                 | eapply Answers_bind_with;
                   [ apply orServerError_answers; vm_compute; discriminate
                   | intros [?|?] ?; [apply Answers_ret; assumption|] ]
                 | answers_step ].
  - intros rawEnv body. unfold Music.musicTextCommandHandler.
    apply withEnv_answers. intros env.
    repeat first [ apply postBehavior_answers; intros status; cbn; discriminate
                 | eapply Answers_bind_with;
                   [ apply orServerError_answers; vm_compute; discriminate
                   | intros [?|?] ?; [apply Answers_ret; assumption|] ]
                 | answers_step ].
Qed.

Lemma missing_credentials_never_answered_witness :
  http_error {| http_status := 500;
                http_error := Some (lit "Failed to get device information");
                http_details := Some (lit "fetch failed") |}
  <> Some MISSING_CREDENTIALS.
Proof.
  apply (proj1 missing_credentials_never_answered sampleRawEnv (inr (Some sampleBody))
           offlineHost []).
  vm_compute. reflexivity.
Defined.

Lemma PostsOnSuccess_ret resp : http_status resp <> 200%Z -> PostsOnSuccess (ret resp).
Proof. intros Hne h tr r [= <-] Hs. contradiction. Qed.

Lemma PostsOnSuccess_throw e : PostsOnSuccess (throw e).
Proof. intros h tr r. discriminate. Qed.

Lemma PostsOnSuccess_bind {A} (m : M A) (k : A -> M HttpResult) :
  Emits (fun _ => True) m -> (forall a, PostsOnSuccess (k a)) -> PostsOnSuccess (bind m k).
Proof.
  intros Hm Hk h tr resp. unfold bind.
  destruct (Hm h tr) as (evs1 & Htr & _).
  destruct (m h tr) as [tr' [e|a]]; [discriminate|].
  cbn [fst] in Htr. subst tr'. intros Hr Hs.
  destruct (Hk a h (tr ++ evs1) resp Hr Hs) as (evs & req & res & Hfst & Hurl & Hans & Hok).
  exists (evs1 ++ evs), req, res. rewrite Hfst, <- !app_assoc.
  rewrite <- app_assoc in Hans. auto.
Qed.

Lemma not_ok_not_200 res : res_ok res = false -> res_status res <> 200%Z.
Proof. unfold res_ok. intros H E. rewrite E in H. discriminate. Qed.

Lemma postBehavior_posts_on_success env command failure :
  PostsOnSuccess (Music.postBehavior env command failure).
Proof.
  intros h tr resp.
  destruct (buildAlexaHeadersWithCsrf_run env (Some previewHeaders) h tr)
    as (tr' & token & Hrun).
  destruct (buildAlexaHeadersWithCsrf_emits_any (fun _ => True) env (Some previewHeaders)
              I I h tr) as (evs & Htr & _).
  rewrite Hrun in Htr. cbn [fst] in Htr. subst tr'.
  unfold Music.postBehavior. erewrite bind_returns by exact Hrun.
  unfold bind, fetch.
  match goal with |- context [fetchResult h ?t ?r] =>
    set (req := r); destruct (fetchResult h t req) as [e|res] eqn:Hans
  end; [discriminate|].
  destruct (res_ok res) eqn:Hok; cbn [negb ret snd fst].
  - intros _ _. exists evs, req, res. rewrite <- app_assoc. auto.
  - unfold respond, bind, askHost. destruct (_ || _); [discriminate|].
    intros [= <-] Hs. cbn in Hs. now apply not_ok_not_200 in Hok.
Qed.

Lemma postAnnouncement_posts_on_success env customerId device text :
  PostsOnSuccess (postAnnouncement env customerId device text).
Proof.
  intros h tr resp.
  destruct (buildAlexaHeadersWithCsrf_run env (Some previewHeaders) h tr)
    as (tr' & token & Hrun).
  destruct (buildAlexaHeadersWithCsrf_emits_any (fun _ => True) env (Some previewHeaders)
              I I h tr) as (evs & Htr & _).
  rewrite Hrun in Htr. cbn [fst] in Htr. subst tr'.
  unfold postAnnouncement. erewrite bind_returns by exact Hrun.
  unfold bind, fetch.
  match goal with |- context [fetchResult h ?t ?r] =>
    set (req := r); destruct (fetchResult h t req) as [e|res] eqn:Hans
  end; [discriminate|].
  destruct (res_ok res) eqn:Hok; cbn [negb ret snd fst].
  - intros _ _. exists evs, req, res. rewrite <- app_assoc. auto.
  - destruct (res_status res =? 500)%Z; [intros [= <-] Hs; cbn in Hs; discriminate|].
    unfold respond, bind, askHost. destruct (_ || _); [discriminate|].
    intros [= <-] Hs. cbn in Hs. now apply not_ok_not_200 in Hok.
Qed.

Lemma PostsOnSuccess_bind_with {A} (Q : A -> Prop) (m : M A) (k : A -> M HttpResult) :
  Answers Q m -> Emits (fun _ => True) m -> (forall a, Q a -> PostsOnSuccess (k a)) ->
  PostsOnSuccess (bind m k).
Proof.
  intros HQ Hm Hk h tr resp. unfold bind.
  destruct (Hm h tr) as (evs1 & Htr & _).
  pose proof (HQ h tr) as Ha.
  destruct (m h tr) as [tr' [e|a]]; [discriminate|].
  cbn [fst] in Htr. subst tr'. intros Hr Hs.
  destruct (Hk a (Ha a eq_refl) h (tr ++ evs1) resp Hr Hs)
    as (evs & req & res & Hfst & Hurl & Hans & Hok).
  exists (evs1 ++ evs), req, res. rewrite Hfst, <- !app_assoc.
  rewrite <- app_assoc in Hans. auto.
Qed.

Lemma orServerError_fails {A} error (m : M A) :
  Answers earlyAnswerFails (Music.orServerError error m).
Proof.
  unfold Music.orServerError. apply Answers_tryCatch.
  - apply Answers_bind; intros a. now apply Answers_ret.
  - intros e. apply Answers_ret. cbn. discriminate.
Qed.

Lemma deviceInfo_fails env :
  Answers earlyAnswerFails
    (tryCatch
       (let* r := Announce.getDeviceInfo env in ret (inr r))
       (fun error =>
          ret (inl {| http_status := 500;
                      http_error := Some (lit "Failed to get device information");
                      http_details := Some (errorMessage error) |}))).
Proof.
  apply Answers_tryCatch.
  - apply Answers_bind; intros a. now apply Answers_ret.
  - intros e. apply Answers_ret. cbn. discriminate.
Qed.

Ltac posts_step :=
  first
    [ apply postBehavior_posts_on_success
    | eapply PostsOnSuccess_bind_with;
      [ first [apply orServerError_fails | apply deviceInfo_fails]
      | trivial_emits
      | intros [?|?] ?; [apply PostsOnSuccess_ret; assumption|] ]
    | apply postAnnouncement_posts_on_success
    | apply PostsOnSuccess_throw
    | apply PostsOnSuccess_ret; cbn; discriminate
    | apply PostsOnSuccess_bind; [trivial_emits|intros ?]
    | match goal with
      | |- PostsOnSuccess (if ?b then _ else _) => destruct b
      | |- PostsOnSuccess (match ?x with _ => _ end) => destruct x
      end ].

(** X12.  announceHandler and the three music handlers answer 200 only when
    the last thing they did was the request to behaviors/preview and the
    host answered it with an OK status: a rejected input, a failed lookup or
    a refused command is never reported as a success. *)
Theorem success_means_posted :
  (forall rawEnv body, PostsOnSuccess (announceHandler rawEnv body))
  /\ (forall rawEnv body, PostsOnSuccess (Music.musicControlHandler rawEnv body))
  /\ (forall rawEnv body, PostsOnSuccess (Music.playMusicHandler rawEnv body))
  /\ (forall rawEnv body, PostsOnSuccess (Music.musicTextCommandHandler rawEnv body)).
Proof.
  split; [|split; [|split]]; intros rawEnv body.
  - unfold announceHandler, announceValidated, deliverAnnouncement.
    repeat posts_step.
  - unfold Music.musicControlHandler, Music.withEnv. repeat posts_step.
  - unfold Music.playMusicHandler, Music.withEnv. repeat posts_step.
  - unfold Music.musicTextCommandHandler, Music.withEnv. repeat posts_step.
Qed.


Lemma success_means_posted_witness :
  exists evs req res,
    fst (announceHandler sampleRawEnv (inr (Some sampleBody)) onlineHost [])
    = [] ++ evs ++ [Fetch req]
    /\ req_url req = PREVIEW_URL
    /\ fetchResult onlineHost ([] ++ evs) req = inr res
    /\ res_ok res = true.
Proof.
  apply (proj1 success_means_posted sampleRawEnv (inr (Some sampleBody)) onlineHost []
           {| http_status := 200; http_error := None; http_details := None |});
    vm_compute; reflexivity.
Defined.








(** X14.  playMusicHandler, once the environment has validated, checks the
    request before it asks anything of Alexa.  A body that did not parse is
    answered 400.  On a body whose searchPhrase and provider are each a
    string, null or absent, a search phrase that is missing or empty once
    trimmed, or a provider that in upper case is none of the six (SPOTIFY
    standing in for a missing or empty one), is answered 400 with nothing
    sent; a request that passes goes on, once the device information is
    there, to post to behaviors/preview the Alexa.Music.PlaySearchPhrase
    node for that device and customer, with the trimmed phrase (its double
    quotes turned into single ones) and the provider in upper case, which
    is then one of the six.  A body that is null, a searchPhrase that is
    not a string, and, behind a phrase that passes, a truthy provider that
    is not a string make the handler throw a TypeError with nothing
    sent. *)
Theorem playMusicHandler_request h rawEnv env tr parsedSearchPhrase parsedProvider
    searchPhrase provider :
  EnvSchema_parse (isUrl h) rawEnv = Some env ->
  stringOrAbsent parsedSearchPhrase -> stringOrAbsent parsedProvider ->
  searchPhrase = default [] (trim <$> stringOf parsedSearchPhrase) ->
  provider = toUpperCase h (match stringOf parsedProvider with
                            | Some s => if truthy s then s else lit "SPOTIFY"
                            | None => lit "SPOTIFY"
                            end) ->
  let out := Music.playMusicHandler rawEnv
               (inr (Some (parsedSearchPhrase, parsedProvider))) h tr in
  (searchPhrase = [] \/ provider ∉ Music.validProviders ->
   fst out = tr /\ exists response, snd out = inr response /\ http_status response = 400%Z)
  /\ (searchPhrase <> [] -> provider ∈ Music.validProviders ->
      forall tr1 customerId device,
        Music.getDeviceInfo env h tr = (tr1, inr (customerId, device)) ->
        out = Music.postBehavior env
                (Music.playSearchPhraseBehavior (vd_deviceType device)
                   (vd_deviceSerialNumber device) customerId provider searchPhrase)
                (lit "Play music failed: ") h tr1
        /\ exists tr3 headers,
             fst out
             = tr3 ++ [Fetch (previewPost headers
                                (playSearchPhraseNode (vd_deviceType device)
                                   (vd_deviceSerialNumber device) customerId provider
                                   (map swapQuote searchPhrase)))])
  /\ (forall error,
        Music.playMusicHandler rawEnv (inl error) h tr
        = (tr, inr {| http_status := 400; http_error := Some (lit "Invalid JSON body.");
                      http_details := None |}))
  /\ Music.playMusicHandler rawEnv (inr None) h tr
     = (tr, inl (Error (nativeErrorMessage h (lit "parsed.searchPhrase"))))
  /\ (forall truthyValue anyProvider,
        Music.playMusicHandler rawEnv (inr (Some (FOther truthyValue, anyProvider))) h tr
        = (tr, inl (Error (nativeErrorMessage h (lit "parsed.searchPhrase?.trim")))))
  /\ (forall phrase,
        trim phrase <> [] ->
        Music.playMusicHandler rawEnv (inr (Some (FString phrase, FOther true))) h tr
        = (tr, inl (Error (nativeErrorMessage h (lit "provider.toUpperCase"))))).
Proof.
  intros Hparse HtypedPhrase HtypedProvider HsearchPhrase Hprovider out. subst out.
  unfold Music.playMusicHandler. rewrite !(withEnv_valid _ _ _ _ _ Hparse).
  rewrite !ask_then. cbn [Music.readProperty]. rewrite !lift_then. cbn [fst snd].
  assert (Hread : Music.callOptional h (lit "parsed.searchPhrase?.trim") trim
                    parsedSearchPhrase
                  = inr (trim <$> stringOf parsedSearchPhrase))
    by (destruct parsedSearchPhrase; [reflexivity..|contradiction]).
  assert (HproviderOf : Music.providerOf parsedProvider
                        = Some (match stringOf parsedProvider with
                                | Some s => if truthy s then s else lit "SPOTIFY"
                                | None => lit "SPOTIFY"
                                end))
    by (destruct parsedProvider; [reflexivity..|contradiction]).
  assert (Hphrase : truthyOpt (trim <$> stringOf parsedSearchPhrase) = truthy searchPhrase).
  { subst searchPhrase. now destruct (stringOf parsedSearchPhrase). }
  rewrite Hread, lift_then, HproviderOf, Hphrase, <- HsearchPhrase.
  clear Hread HproviderOf Hphrase.
  split; [|split; [|split; [|split; [|split]]]].
  - intros [Hempty|Hinvalid].
    + rewrite Hempty. cbn [truthy negb ret fst snd]. eauto.
    + destruct (truthy searchPhrase); cbn [negb ret fst snd]; [|eauto].
      cbn [Music.readProperty]. rewrite lift_then, <- Hprovider.
      rewrite (bool_decide_eq_false_2 _ Hinvalid). cbn [negb ret fst snd]. eauto.
  - intros Hfull Hvalid tr1 customerId device Hinfo.
    assert (Htruthy : truthy searchPhrase = true) by (now destruct searchPhrase).
    rewrite Htruthy. cbn [negb].
    cbn [Music.readProperty]. rewrite lift_then, <- Hprovider.
    rewrite (bool_decide_eq_true_2 _ Hvalid). cbn [negb].
    unfold Music.orServerError.
    erewrite bind_returns
      by (apply tryCatch_returns; erewrite bind_returns by exact Hinfo; reflexivity).
    split; [reflexivity|]. cbv beta iota.
    rewrite playSearchPhraseBehavior_node. apply postBehavior_request.
  - intros error. rewrite ?(withEnv_valid _ _ _ _ _ Hparse). reflexivity.
  - reflexivity.
  - intros truthyValue anyProvider. rewrite ?(withEnv_valid _ _ _ _ _ Hparse). reflexivity.
  - intros phrase Hfull. rewrite ?(withEnv_valid _ _ _ _ _ Hparse), ?ask_then.
    cbn [Music.readProperty]. rewrite lift_then. cbn [fst snd Music.callOptional].
    rewrite lift_then. cbn [truthyOpt Music.providerOf].
    destruct (trim phrase); [congruence|]. reflexivity.
Qed.

Lemma playMusicHandler_request_witness :
  (fst (Music.playMusicHandler sampleRawEnv
          (inr (Some (FString (lit "jazz"), FString (lit "NAPSTER")))) onlineHost []) = []
   /\ exists response,
        snd (Music.playMusicHandler sampleRawEnv
               (inr (Some (FString (lit "jazz"), FString (lit "NAPSTER")))) onlineHost [])
        = inr response /\ http_status response = 400%Z)
  /\ exists tr3 headers,
       fst (Music.playMusicHandler sampleRawEnv
              (inr (Some (FString (lit " jazz "), FAbsent))) onlineHost [])
       = tr3 ++ [Fetch (previewPost headers
                          (playSearchPhraseNode (lit "T1") (lit "S1") (lit "A1CUSTOMER")
                             (lit "SPOTIFY") (map swapQuote (lit "jazz"))))].
Proof.
  split.
  - apply (proj1 (playMusicHandler_request onlineHost sampleRawEnv sampleEnv []
                    (FString (lit "jazz")) (FString (lit "NAPSTER")) (lit "jazz")
                    (lit "NAPSTER")
                    ltac:(vm_compute; reflexivity) I I ltac:(vm_compute; reflexivity)
                    ltac:(vm_compute; reflexivity))).
    right. vm_compute. intros Hin.
    repeat (apply elem_of_cons in Hin as [Hin|Hin]; [discriminate|]).
    now apply elem_of_nil in Hin.
  - apply (proj2 (proj1 (proj2 (playMusicHandler_request onlineHost sampleRawEnv sampleEnv []
                                  (FString (lit " jazz ")) FAbsent (lit "jazz") (lit "SPOTIFY")
                                  ltac:(vm_compute; reflexivity) I I
                                  ltac:(vm_compute; reflexivity)
                                  ltac:(vm_compute; reflexivity)))
                    ltac:(vm_compute; discriminate)
                    ltac:(vm_compute; apply elem_of_cons; now left)
                    (fst (Music.getDeviceInfo sampleEnv onlineHost [])) (lit "A1CUSTOMER")
                    voiceDevice ltac:(vm_compute; reflexivity))).
Defined.

(** X15.  musicTextCommandHandler, once the environment has validated,
    answers 400 with nothing sent when the body did not parse, and, on a
    body whose text is a string, null or absent, when the text is missing
    or empty once trimmed; any other text goes on, once the device
    information is there, to post to behaviors/preview the
    Alexa.TextCommand node for that device and customer with the trimmed
    text (its double quotes turned into single ones): the handler keeps no
    list of allowed phrases.  A body that is null and a text that is not a
    string make the handler throw a TypeError with nothing sent. *)
Theorem musicTextCommandHandler_request h rawEnv env tr parsedText text :
  EnvSchema_parse (isUrl h) rawEnv = Some env ->
  stringOrAbsent parsedText ->
  text = default [] (trim <$> stringOf parsedText) ->
  let out := Music.musicTextCommandHandler rawEnv (inr (Some parsedText)) h tr in
  (text = [] ->
   fst out = tr /\ exists response, snd out = inr response /\ http_status response = 400%Z)
  /\ (text <> [] ->
      forall tr1 customerId device,
        Music.getDeviceInfo env h tr = (tr1, inr (customerId, device)) ->
        out = Music.postBehavior env
                (Music.textCommandBehavior (vd_deviceType device)
                   (vd_deviceSerialNumber device) customerId text)
                (lit "Text command failed: ") h tr1
        /\ exists tr3 headers,
             fst out
             = tr3 ++ [Fetch (previewPost headers
                                (textCommandNode (vd_deviceType device)
                                   (vd_deviceSerialNumber device) customerId
                                   (map swapQuote text)))])
  /\ (forall error,
        Music.musicTextCommandHandler rawEnv (inl error) h tr
        = (tr, inr {| http_status := 400; http_error := Some (lit "Invalid JSON body.");
                      http_details := None |}))
  /\ Music.musicTextCommandHandler rawEnv (inr None) h tr
     = (tr, inl (Error (nativeErrorMessage h (lit "parsed.text"))))
  /\ (forall truthyValue,
        Music.musicTextCommandHandler rawEnv (inr (Some (FOther truthyValue))) h tr
        = (tr, inl (Error (nativeErrorMessage h (lit "parsed.text?.trim"))))).
Proof.
  intros Hparse Htyped Htrimmed out. subst out.
  unfold Music.musicTextCommandHandler. rewrite !(withEnv_valid _ _ _ _ _ Hparse).
  rewrite !ask_then. cbn [Music.readProperty]. rewrite !lift_then.
  assert (Hread : Music.callOptional h (lit "parsed.text?.trim") trim parsedText
                  = inr (trim <$> stringOf parsedText))
    by (destruct parsedText; [reflexivity..|contradiction]).
  assert (Htext : truthyOpt (trim <$> stringOf parsedText) = truthy text).
  { subst text. now destruct (stringOf parsedText). }
  rewrite Hread, lift_then, Htext, <- Htrimmed. clear Hread Htext.
  split; [|split; [|split; [|split]]].
  - intros Hempty. rewrite Hempty. cbn [truthy negb ret fst snd]. eauto.
  - intros Hfull tr1 customerId device Hinfo.
    assert (Htruthy : truthy text = true) by (now destruct text).
    rewrite Htruthy. cbn [negb].
    unfold Music.orServerError.
    erewrite bind_returns
      by (apply tryCatch_returns; erewrite bind_returns by exact Hinfo; reflexivity).
    split; [reflexivity|]. cbv beta iota.
    rewrite textCommandBehavior_node. apply postBehavior_request.
  - intros error. rewrite ?(withEnv_valid _ _ _ _ _ Hparse). reflexivity.
  - reflexivity.
  - intros truthyValue. rewrite ?(withEnv_valid _ _ _ _ _ Hparse). reflexivity.
Qed.

Lemma musicTextCommandHandler_request_witness :
  (fst (Music.musicTextCommandHandler sampleRawEnv (inr (Some (FString (lit "  "))))
          onlineHost []) = []
   /\ exists response,
        snd (Music.musicTextCommandHandler sampleRawEnv (inr (Some (FString (lit "  "))))
               onlineHost [])
        = inr response /\ http_status response = 400%Z)
  /\ exists tr3 headers,
       fst (Music.musicTextCommandHandler sampleRawEnv
              (inr (Some (FString (lit " play jazz ")))) onlineHost [])
       = tr3 ++ [Fetch (previewPost headers
                          (textCommandNode (lit "T1") (lit "S1") (lit "A1CUSTOMER")
                             (map swapQuote (lit "play jazz"))))].
Proof.
  split.
  - apply (proj1 (musicTextCommandHandler_request onlineHost sampleRawEnv sampleEnv []
                    (FString (lit "  ")) []
                    ltac:(vm_compute; reflexivity) I ltac:(vm_compute; reflexivity))).
    reflexivity.
  - apply (proj2 (proj1 (proj2 (musicTextCommandHandler_request onlineHost sampleRawEnv
                                  sampleEnv [] (FString (lit " play jazz ")) (lit "play jazz")
                                  ltac:(vm_compute; reflexivity) I
                                  ltac:(vm_compute; reflexivity)))
                    ltac:(vm_compute; discriminate)
                    (fst (Music.getDeviceInfo sampleEnv onlineHost [])) (lit "A1CUSTOMER")
                    voiceDevice ltac:(vm_compute; reflexivity))).
Defined.





(** X16.  The status handler answers 200 exactly when both credentials are
    there and the account request succeeded, and it is then that it reports
    connected; a failure of the device or endpoint discovery does not change
    the status, it only empties the lists.  It answers 401 exactly when the
    account request failed with a message that contains 401 or 403 anywhere
    in it, and 500 in every other case; the message goes out as it came,
    unsanitized, as details with 401 and as the error with 500. *)
Theorem statusHandler_classification rawEnv accountInfo alexaDevices smartHomeEndpoints :
  let out := Status.statusHandler rawEnv accountInfo alexaDevices smartHomeEndpoints in
  (fst out = 200%Z \/ fst out = 401%Z \/ fst out = 500%Z)
  /\ (fst out = 200%Z <-> hasCredentials rawEnv /\ exists customerId, accountInfo = inr customerId)
  /\ (fst out = 200%Z <-> Status.connected (snd out) = true)
  /\ (fst out = 401%Z <->
      hasCredentials rawEnv
      /\ exists e, accountInfo = inl e
                   /\ (occursIn (lit "401") (errorMessage e)
                       \/ occursIn (lit "403") (errorMessage e)))
  /\ (forall e, hasCredentials rawEnv -> accountInfo = inl e ->
                (fst out = 401%Z -> Status.sb_details (snd out) = Some (errorMessage e))
                /\ (fst out = 500%Z -> Status.sb_error (snd out) = Some (errorMessage e)))
  /\ (forall e1 e2, alexaDevices = inl e1 -> smartHomeEndpoints = inl e2 ->
                    fst out = 200%Z ->
                    Status.sb_total (snd out) = 0%nat /\ Status.sb_list (snd out) = []
                    /\ Status.sb_endpoints (snd out) = 0%nat).
Proof.
  intros out. subst out. unfold Status.statusHandler, hasCredentials.
  destruct (truthyOpt (raw_UBID_MAIN rawEnv)), (truthyOpt (raw_AT_MAIN rawEnv));
    cbn [negb orb].
  2-4: cbn [fst snd Status.failure Status.connected];
    (split; [auto|]);
    (split; [split; [discriminate|intros [[? ?] _]; discriminate]|]);
    (split; [split; discriminate|]);
    (split; [split; [discriminate|intros [[? ?] _]; discriminate]|]);
    (split; [intros ? [? ?]; discriminate|intros; discriminate]).
  destruct accountInfo as [e|customerId].
  - destruct (includes (lit "401") (errorMessage e) || includes (lit "403") (errorMessage e))
      eqn:Hcode; cbn [fst snd Status.failure Status.connected Status.sb_details Status.sb_error].
    + apply orb_true_iff in Hcode. rewrite !includes_spec in Hcode.
      split; [auto|]. split; [split; [discriminate|intros [_ [? [=]]]]|].
      split; [split; discriminate|].
      split; [split; [intros _; split; [auto|]; exists e; auto|reflexivity]|].
      split; [intros e' _ [= <-]; split; [reflexivity|discriminate]|].
      intros; discriminate.
    + apply orb_false_iff in Hcode as [H401 H403].
      split; [auto|]. split; [split; [discriminate|intros [_ [? [=]]]]|].
      split; [split; discriminate|].
      split.
      { split; [discriminate|]. intros (_ & e' & [= <-] & [H|H]);
          apply includes_spec in H; congruence. }
      split; [intros e' _ [= <-]; split; [discriminate|reflexivity]|].
      intros; discriminate.
  - cbn [fst snd Status.connected Status.sb_total Status.sb_list Status.sb_endpoints].
    split; [auto|]. split; [split; [intros _; split; [auto|eauto]|reflexivity]|].
    split; [split; reflexivity|].
    split; [split; [discriminate|intros (_ & e & [=] & _)]|].
    split; [intros; discriminate|].
    intros e1 e2 -> -> _. repeat split.
Qed.

Lemma statusHandler_classification_witness :
  fst (Status.statusHandler sampleRawEnv (inl (Error (lit "Timeout after 4010 ms")))
         (inr sampleDevices) (inr []))
  = 401%Z.
Proof.
  apply (proj1 (proj2 (proj2 (proj2
           (statusHandler_classification sampleRawEnv
              (inl (Error (lit "Timeout after 4010 ms"))) (inr sampleDevices) (inr [])))))).
  split; [split; reflexivity|].
  exists (Error (lit "Timeout after 4010 ms")). split; [reflexivity|].
  left. exists (lit "Timeout after "), (lit "0 ms"). reflexivity.
Defined.




Lemma resolveVoiceDevice_usable noDevice missing endpoints device :
  resolveVoiceDevice noDevice missing endpoints = inr device ->
  usableDevice device /\ In (echoDevice device) endpoints.
Proof.
  unfold resolveVoiceDevice.
  destruct (List.find isVoiceEnabled endpoints) as [echo|] eqn:Hfind; [|discriminate].
  apply find_some in Hfind as [Hin Hvoice].
  destruct (deviceType echo) as [dt|] eqn:Hdt; [|discriminate].
  destruct (deviceSerialNumber echo) as [sn|] eqn:Hsn; [|discriminate].
  destruct dt as [|c dt]; [discriminate|]. destruct sn as [|c' sn]; [discriminate|].
  cbn [truthy negb orb]. intros [= <-]. unfold usableDevice. cbn.
  repeat split; auto; discriminate.
Qed.

Lemma Answers_lift {A} (Q : A -> Prop) (r : Exn + A) :
  (forall a, r = inr a -> Q a) -> Answers Q (lift r).
Proof. intros H h tr a. unfold lift. cbn. apply H. Qed.

Lemma fetchCustomerId_answers env : Answers (fun customerId => customerId <> []) (fetchCustomerId env).
Proof.
  unfold fetchCustomerId.
  repeat first
    [ apply Answers_throw
    | apply Answers_ret; discriminate
    | apply Answers_bind; intros ?
    | match goal with
      | |- Answers _ (if truthy ?s then _ else _) => destruct s
      | |- Answers _ (if ?b then _ else _) => destruct b
      | |- Answers _ (match ?x with _ => _ end) => destruct x
      end ].
Qed.

Lemma resolveEcho_answers env : Answers usableDevice (Music.resolveEcho env).
Proof.
  unfold Music.resolveEcho. apply Answers_bind. intros endpoints.
  apply Answers_lift. intros device Hdevice.
  now apply resolveVoiceDevice_usable in Hdevice.
Qed.

(** X18.  The device information the handlers go on with is always usable:
    the customer id of /api/users/me is not empty, and the device is a
    voice-enabled endpoint of the list the directory gave, with both legacy
    identifiers, neither of them empty.  This holds for the lookup of
    announceHandler, for the one of playMusicHandler and
    musicTextCommandHandler, and for the two lookups of
    musicControlHandler: an empty identifier never reaches a command. *)
Theorem device_info_is_usable :
  (forall env, Answers usableDeviceInfo (Announce.getDeviceInfo env))
  /\ (forall env, Answers usableDeviceInfo (Music.getDeviceInfo env))
  /\ (forall env, Answers usableDevice (Music.resolveEcho env))
  /\ (forall env, Answers (fun customerId => customerId <> []) (fetchCustomerId env))
  /\ (forall noDevice missing endpoints device,
        resolveVoiceDevice noDevice missing endpoints = inr device ->
        In (echoDevice device) endpoints).
Proof.
  split; [|split; [|split; [|split]]].
  - intros env. unfold Announce.getDeviceInfo.
    eapply Answers_bind_with; [apply fetchCustomerId_answers|]. intros customerId Hid.
    apply Answers_bind. intros endpoints.
    eapply Answers_bind_with.
    { apply Answers_lift. intros device Hdevice.
      apply resolveVoiceDevice_usable in Hdevice. exact (proj1 Hdevice). }
    intros device Hdevice. apply Answers_ret. now split.
  - intros env. unfold Music.getDeviceInfo.
    eapply Answers_bind_with; [apply fetchCustomerId_answers|]. intros customerId Hid.
    eapply Answers_bind_with; [apply resolveEcho_answers|].
    intros device Hdevice. apply Answers_ret. now split.
  - apply resolveEcho_answers.
  - apply fetchCustomerId_answers.
  - intros noDevice missing endpoints device Hdevice.
    now apply resolveVoiceDevice_usable in Hdevice.
Qed.

Lemma device_info_is_usable_witness :
  usableDeviceInfo (lit "A1CUSTOMER", voiceDevice).
Proof.
  apply (proj1 device_info_is_usable sampleEnv onlineHost []).
  vm_compute. reflexivity.
Defined.


(** X19.  EnvSchema.parse fails exactly when a credential is missing or
    empty, or API_BASE is missing or no URL: API_BASE is required although
    none of the four handlers reads it.  On such an environment
    announceHandler and the three music handlers answer 500, Environment
    validation failed, with the message of the validation error as details,
    whatever the body (one that did not parse or is null included), and
    send nothing. *)
Theorem invalid_environment_sends_nothing h rawEnv tr :
  (EnvSchema_parse (isUrl h) rawEnv = None
   <-> truthyOpt (raw_UBID_MAIN rawEnv) = false
       \/ truthyOpt (raw_AT_MAIN rawEnv) = false
       \/ match raw_API_BASE rawEnv with
          | Some base => isUrl h base = false
          | None => True
          end)
  /\ (EnvSchema_parse (isUrl h) rawEnv = None ->
      let failure :=
        {| http_status := 500; http_error := Some (lit "Environment validation failed");
           http_details := Some (zodErrorMessage h rawEnv) |} in
      (forall body, announceHandler rawEnv body h tr = (tr, inr failure))
      /\ (forall body, Music.musicControlHandler rawEnv body h tr = (tr, inr failure))
      /\ (forall body, Music.playMusicHandler rawEnv body h tr = (tr, inr failure))
      /\ (forall body, Music.musicTextCommandHandler rawEnv body h tr = (tr, inr failure))).
Proof.
  split.
  - unfold EnvSchema_parse.
    destruct (raw_UBID_MAIN rawEnv) as [[|c ubid]|], (raw_AT_MAIN rawEnv) as [[|c' at_]|],
      (raw_API_BASE rawEnv) as [base|];
      cbn [truthyOpt truthy length Nat.leb andb];
      try destruct (isUrl h base); cbn [andb];
      split; auto; try discriminate; intros [H|[H|H]]; discriminate.
  - intros Hparse failure.
    split; [|split; [|split]]; intros body;
      unfold announceHandler, Music.musicControlHandler, Music.playMusicHandler,
        Music.musicTextCommandHandler, Music.withEnv;
      rewrite ask_then, Hparse; reflexivity.
Qed.

Lemma invalid_environment_sends_nothing_witness :
  Music.playMusicHandler baselessRawEnv (inr (Some (FString (lit "jazz"), FAbsent)))
    onlineHost []
  = ([], inr (environmentFailure onlineHost baselessRawEnv)).
Proof.
  apply (proj2 (invalid_environment_sends_nothing onlineHost baselessRawEnv [])
           ltac:(vm_compute; reflexivity)).
Defined.
